(** * CodeForge editor core: highlight engine, bracket matcher, minimap

    A shallow embedding of the document-analysis functions of
    [src/code_editor.py] (class [CodeEditor]):

    - [highlight_syntax], [get_compiled_regex], [highlight_python],
      [highlight_javascript], [highlight_c_like], [highlight_html];
    - [highlight_matching_bracket], [find_matching_bracket];
    - [update_minimap], [minimap_click];
    - the typing helpers [auto_indent], [auto_complete_bracket],
      [auto_complete_quote], [smart_backspace];
    - the line operations [toggle_comment], [duplicate_line],
      [move_line_up], [move_line_down];
    - [add_to_recent_files];
    - the history of the terminal: [execute_command],
      [terminal_history_up], [terminal_history_down];
    - the tabs: [switch_to_file], [close_file], [close_current_tab],
      [load_file], [update_title].

    Text is a sequence of Unicode code points.  The regular expressions of
    the rule tables are run by a backtracking matcher with the priority
    order of Python's [re] module. *)

From stdpp Require Import gmap strings list.
From Stdlib Require Import ZArith NArith Lia.

Local Open Scope nat_scope.

(** ** Text *)

(** A Python [str]: a list of code points. *)
Abbreviation text := (list N).

(** The code points of an ASCII literal. *)
Definition cps (s : string) : text :=
  map Ascii.N_of_ascii (String.list_ascii_of_string s).

(** Character tables of the Python runtime outside the ASCII range
    ([str.isalnum], [str.isdecimal], [str.isspace] and the lower-case mapping
    of the character at a position of a string): they belong to the
    interpreter, not to the editor, and are left abstract. *)
Class unicode_data := {
  uni_alnum : N -> bool;
  uni_decimal : N -> bool;
  uni_space : N -> bool;
  uni_lower_at : text -> nat -> text
}.

(** Tables with nothing outside ASCII: no letter, digit or space, and no
    lower-case form. *)
Definition ascii_only : unicode_data :=
  {| uni_alnum := fun _ => false;
     uni_decimal := fun _ => false;
     uni_space := fun _ => false;
     uni_lower_at := fun _ _ => [] |}.

Definition NL : N := 10%N.

Definition in_range (lo hi c : N) : bool := ((lo <=? c) && (c <=? hi))%N.

Definition ascii_alnum (c : N) : bool :=
  in_range 48 57 c || in_range 65 90 c || in_range 97 122 c.

Definition ascii_space (c : N) : bool :=
  in_range 9 13 c || in_range 28 32 c.

Section Chars.
Context `{unicode_data}.

(** [str.isalnum] on one code point. *)
Definition isalnum (c : N) : bool :=
  if (c <? 128)%N then ascii_alnum c else uni_alnum c.

(** [str.isdecimal] on one code point. *)
Definition isdecimal (c : N) : bool :=
  if (c <? 128)%N then in_range 48 57 c else uni_decimal c.

(** [str.isspace] on one code point. *)
Definition isspace (c : N) : bool :=
  if (c <? 128)%N then ascii_space c else uni_space c.

(** The word characters of [\w] and [\b]: alphanumeric or underscore. *)
Definition is_word (c : N) : bool := isalnum c || (c =? 95)%N.

(** [str.lstrip()]. *)
Fixpoint lstrip (t : text) : text :=
  match t with
  | c :: t' => if isspace c then lstrip t' else t
  | [] => []
  end.

(** [str.rstrip()]. *)
Definition rstrip (t : text) : text := reverse (lstrip (reverse t)).

(** [str.strip()]. *)
Definition strip (t : text) : text := rstrip (lstrip t).

(** [str.lower()]. *)
Definition lower_at (t : text) (i : nat) (c : N) : text :=
  if (c <? 128)%N
  then [if in_range 65 90 c then (c + 32)%N else c]
  else uni_lower_at t i.

Definition lower (t : text) : text := concat (imap (lower_at t) t).
End Chars.

(** [str.startswith]. *)
Fixpoint startswith (t p : text) : bool :=
  match p, t with
  | [], _ => true
  | a :: p', b :: t' => (a =? b)%N && startswith t' p'
  | _ :: _, [] => false
  end.

(** [p in t] on strings: [p] occurs as a substring of [t]. *)
Fixpoint contains (t p : text) : bool :=
  startswith t p ||
  match t with
  | [] => false
  | _ :: t' => contains t' p
  end.

(** [str.split(sep)] for a separator of one character. *)
Fixpoint split (sep : N) (t : text) : list text :=
  match t with
  | [] => [[]]
  | c :: t' =>
      if (c =? sep)%N then [] :: split sep t'
      else match split sep t' with
           | l :: ls => (c :: l) :: ls
           | [] => [[c]]
           end
  end.

(** ** Regular expressions *)

Module Re.

(** Items of a bracketed character set. *)
Inductive cls_item :=
| CChar (c : N)
| CWord
| CDigit
| CSpace.

(** Patterns, as [re.compile] parses them.  Every pattern of the rule
    tables has at most one capturing group, so [Group] is group 1;
    [(?:...)] needs no constructor. *)
Inductive regex :=
| Eps
| Chr (c : N)
| Cls (neg : bool) (items : list cls_item)
| Any
| Cat (r1 r2 : regex)
| Alt (r1 r2 : regex)
| Star (greedy : bool) (r : regex)
| Group (r : regex)
| Bnd
| Eol.

(** [r+] and [r?], greedy. *)
Definition Plus (r : regex) : regex := Cat r (Star true r).
Definition Opt (r : regex) : regex := Alt r Eps.

(** A literal word. *)
Fixpoint lit_cps (t : text) : regex :=
  match t with
  | [] => Eps
  | [c] => Chr c
  | c :: t' => Cat (Chr c) (lit_cps t')
  end.
Definition lit (s : string) : regex := lit_cps (cps s).

(** [r1|r2|...|rn], tried from left to right. *)
Fixpoint alts (r : regex) (rs : list regex) : regex :=
  match rs with
  | [] => r
  | r' :: rs' => Alt r (alts r' rs')
  end.

Definition words (w : string) (ws : list string) : regex :=
  alts (lit w) (map lit ws).

(** The least number of characters a match of [r] consumes. *)
Fixpoint min_len (r : regex) : nat :=
  match r with
  | Eps | Bnd | Eol | Star _ _ => 0
  | Chr _ | Cls _ _ | Any => 1
  | Cat r1 r2 => min_len r1 + min_len r2
  | Alt r1 r2 => min_len r1 `min` min_len r2
  | Group r1 => min_len r1
  end.

(** Every group of [r] encloses at least one character. *)
Fixpoint groups_nonempty (r : regex) : bool :=
  match r with
  | Cat r1 r2 | Alt r1 r2 => groups_nonempty r1 && groups_nonempty r2
  | Star _ r1 => groups_nonempty r1
  | Group r1 => (1 <=? min_len r1) && groups_nonempty r1
  | _ => true
  end.

(** Every match of [r] goes through its group. *)
Fixpoint sets_group (r : regex) : bool :=
  match r with
  | Cat r1 r2 => sets_group r1 || sets_group r2
  | Alt r1 r2 => sets_group r1 && sets_group r2
  | Group _ => true
  | _ => false
  end.

Record flags := { DOTALL : bool; MULTILINE : bool }.
Definition no_flags : flags := {| DOTALL := false; MULTILINE := false |}.
Definition dotall : flags := {| DOTALL := true; MULTILINE := false |}.

(** The span of group 1, when it took part in the match. *)
Definition caps := option (nat * nat).

Section Engine.
Context `{unicode_data}.
Variable fl : flags.
Variable s : text.

Definition item_matches (c : N) (it : cls_item) : bool :=
  match it with
  | CChar a => (c =? a)%N
  | CWord => is_word c
  | CDigit => isdecimal c
  | CSpace => isspace c
  end.

Definition cls_matches (neg : bool) (items : list cls_item) (c : N) : bool :=
  xorb neg (existsb (item_matches c) items).

(** [.]: any character but a newline, any character under DOTALL. *)
Definition any_matches (c : N) : bool :=
  DOTALL fl || negb (c =? NL)%N.

Definition word_at (i : nat) : bool :=
  match s !! i with
  | Some c => is_word c
  | None => false
  end.

(** [\b]: exactly one side of position [i] is a word character. *)
Definition at_boundary (i : nat) : bool :=
  xorb (match i with 0 => false | S k => word_at k end) (word_at i).

(** [$]: the end of the text or just before a newline that ends it;
    under MULTILINE, before every newline. *)
Definition at_eol (i : nat) : bool :=
  (i =? length s) ||
  ((S i =? length s) && bool_decide (s !! i = Some NL)) ||
  (MULTILINE fl && bool_decide (s !! i = Some NL)).

(** One character test at position [i]. *)
Definition step_char (p : N -> bool) (i : nat) (c : caps)
  : list (nat * caps) :=
  match s !! i with
  | Some b => if p b then [(S i, c)] else []
  | None => []
  end.

(** The repetition loop.  [body] gives the ways one iteration can match;
    every iteration has to consume a character, as every repeated part of
    the patterns of the rule tables does, so there is fuel for one iteration
    for each character left (lemma [star_loop_fuel]). *)
Fixpoint star_loop (body : nat -> caps -> list (nat * caps))
    (greedy : bool) (fuel : nat) (i : nat) (c : caps)
  : list (nat * caps) :=
  match fuel with
  | 0 => [(i, c)]
  | S fuel' =>
      let more :=
        flat_map (fun jc : nat * caps =>
                    if i <? jc.1
                    then star_loop body greedy fuel' jc.1 jc.2
                    else [])
                 (body i c) in
      if greedy then more ++ [(i, c)] else (i, c) :: more
  end.

(** All the ways [r] matches from position [i], in the order in which
    the backtracking matcher tries them: the head of the list is the
    match it reports.  Each result is the end position and the group
    state. *)
Fixpoint m (r : regex) (i : nat) (c : caps) : list (nat * caps) :=
  match r with
  | Eps => [(i, c)]
  | Chr a => step_char (fun b => (b =? a)%N) i c
  | Cls neg items => step_char (cls_matches neg items) i c
  | Any => step_char any_matches i c
  | Cat r1 r2 =>
      flat_map (fun jc : nat * caps => m r2 jc.1 jc.2) (m r1 i c)
  | Alt r1 r2 => m r1 i c ++ m r2 i c
  | Star greedy r1 => star_loop (m r1) greedy (length s - i) i c
  | Group r1 =>
      map (fun jc : nat * caps => (jc.1, Some (i, jc.1))) (m r1 i c)
  | Bnd => if at_boundary i then [(i, c)] else []
  | Eol => if at_eol i then [(i, c)] else []
  end.

(** A match object: [start()], [end()] and the span of group 1. *)
Record re_match := {
  m_start : nat;
  m_end : nat;
  m_group : caps
}.

(** [match.start()], [match.end()]. *)
Definition start0 (mt : re_match) : Z := Z.of_nat (m_start mt).
Definition end0 (mt : re_match) : Z := Z.of_nat (m_end mt).

(** [match.start(1)], [match.end(1)]: -1 when the group did not take
    part in the match. *)
Definition start1 (mt : re_match) : Z :=
  match m_group mt with
  | Some (a, _) => Z.of_nat a
  | None => (-1)%Z
  end.
Definition end1 (mt : re_match) : Z :=
  match m_group mt with
  | Some (_, b) => Z.of_nat b
  | None => (-1)%Z
  end.

(** The span of the group is not empty and lies inside the text. *)
Definition group_ok (c : caps) : Prop :=
  match c with
  | Some (a, b) => a < b <= length s
  | None => True
  end.

(** One attempt at position [p].  After an empty match the scanner may
    not report an empty match again at the position where it stopped
    ([must_advance]). *)
Definition match_at (r : regex) (must_advance : bool) (pos p : nat)
  : option re_match :=
  match filter (fun jc : nat * caps =>
                  negb (must_advance && (p =? pos) && (jc.1 =? pos))
                    = true)
               (m r p None) with
  | jc :: _ => Some {| m_start := p; m_end := jc.1; m_group := jc.2 |}
  | [] => None
  end.

(** [search]: the first position from [p] on, up to the end of the
    text, where the pattern matches; [n] counts the positions left. *)
Fixpoint search_from (r : regex) (must_advance : bool) (pos : nat)
    (n : nat) (p : nat) : option re_match :=
  match match_at r must_advance pos p with
  | Some mt => Some mt
  | None =>
      match n with
      | 0 => None
      | S n' => search_from r must_advance pos n' (S p)
      end
  end.

Definition search (r : regex) (must_advance : bool) (pos : nat)
  : option re_match :=
  if pos <=? length s
  then search_from r must_advance pos (length s - pos) pos
  else None.

(** The scanner behind [finditer]: each search starts where the last
    match ended.  [fuel] bounds the number of searches. *)
Fixpoint scan (r : regex) (fuel : nat) (must_advance : bool)
    (pos : nat) : list re_match :=
  match fuel with
  | 0 => []
  | S fuel' =>
      match search r must_advance pos with
      | Some mt =>
          mt :: scan r fuel' (m_end mt =? m_start mt) (m_end mt)
      | None => []
      end
  end.

(** [pattern.finditer(s)]: two searches for each position are all the
    scanner can do (lemma [finditer_fuel]). *)
Definition finditer (r : regex) : list re_match :=
  scan r (2 * length s + 2) false 0.

(** What [finditer] yields are matches of the pattern. *)
Definition is_match (r : regex) (mt : re_match) : Prop :=
  m_start mt <= length s /\
  In (m_end mt, m_group mt) (m r (m_start mt) None).

(** The number of searches left before the scanner is at the end. *)
Definition searches_left (ma : bool) (pos : nat) : nat :=
  2 * (length s - pos) + (if ma then 1 else 2).

(** The characters from [i] up to [j] are no newlines. *)
Definition no_newline (i j : nat) : Prop :=
  forall k, i <= k < j -> exists b, s !! k = Some b /\ b <> NL.

(** The end of a line comment: the end of the text, or the newline that
    ends the text. *)
Definition at_text_end (j : nat) : Prop :=
  j = length s \/ (S j = length s /\ s !! j = Some NL).
End Engine.
End Re.

(** ** The highlight engine *)

Module Highlight.
Import Re.

(** The tags of [setup_syntax_highlighting]. *)
Inductive tag :=
| keyword | string_ | comment | function_ | number | class_ | operator
| builtin.

Global Instance tag_eq_dec : EqDecision tag.
Proof. solve_decision. Defined.

(** A range tagged by [tag_add(tag, start, end)], in offsets from the
    start of the text. *)
Record span := { kind : tag; startOffset : Z; endOffset : Z }.

Global Instance span_eq_dec : EqDecision span.
Proof. solve_decision. Defined.

(** A compiled pattern object. *)
Record compiled := { pat : regex; cflags : flags }.

(** [re.compile(pattern)]: no flags. *)
Definition re_compile (pattern : regex) : compiled :=
  {| pat := pattern; cflags := no_flags |}.

Definition DQ : N := 34%N.   (* double quote *)
Definition SQ : N := 39%N.   (* single quote *)
Definition BSL : N := 92%N.  (* backslash *)

Definition seq_of (rs : list regex) : regex := foldr Cat Eps rs.

Definition digit : regex := Cls false [CDigit].
Definition wordc : regex := Cls false [CWord].
Definition space : regex := Cls false [CSpace].

(** [q(?:[^q\\]|\\.)*q] for a quote character [q]. *)
Definition quoted (q : N) : regex :=
  seq_of [Chr q;
          Star true (Alt (Cls true [CChar q; CChar BSL])
                         (Cat (Chr BSL) Any));
          Chr q].

(** [qqq.*?qqq]. *)
Definition triple (q : N) : regex :=
  seq_of [Chr q; Chr q; Chr q; Star false Any; Chr q; Chr q; Chr q].

(** [\b\d+\.?\d*\b] *)
Definition numbers_re : regex :=
  seq_of [Bnd; Plus digit; Opt (Chr 46); Star true digit; Bnd].

(** [//.*?$|/\*.*?\*/] *)
Definition slash_comments_re : regex :=
  Alt (seq_of [Chr 47; Chr 47; Star false Any; Eol])
      (seq_of [Chr 47; Chr 42; Star false Any; Chr 42; Chr 47]).

(** The patterns of [highlight_python]. *)
Definition py_keywords_re : regex :=
  seq_of [Bnd;
          Group (words "def" ["class"; "if"; "elif"; "else"; "for"; "while";
            "try"; "except"; "finally"; "with"; "as"; "import"; "from";
            "return"; "yield"; "break"; "continue"; "pass"; "raise";
            "assert"; "lambda"; "and"; "or"; "not"; "in"; "is"; "True";
            "False"; "None"; "async"; "await"]);
          Bnd].

Definition py_builtins_re : regex :=
  seq_of [Bnd;
          Group (words "print" ["len"; "range"; "str"; "int"; "float";
            "list"; "dict"; "set"; "tuple"; "open"; "input"; "isinstance";
            "type"; "enumerate"; "zip"; "map"; "filter"; "sum"; "min";
            "max"; "sorted"; "abs"; "all"; "any"; "bool"; "bytes"; "chr";
            "ord"; "dir"; "eval"; "exec"; "format"; "hash"; "help"; "hex";
            "id"; "iter"; "next"; "object"; "oct"; "pow"; "repr";
            "reversed"; "round"; "slice"; "super"; "vars"]);
          Bnd].

(** [(QQQ.*?QQQ|qqq.*?qqq|Q(?:[^Q\\]|\\.)*Q|q(?:[^q\\]|\\.)*q)], with [Q]
    the double and [q] the single quote. *)
Definition py_strings_re : regex :=
  Group (alts (triple DQ) [triple SQ; quoted DQ; quoted SQ]).

(** [#.*?$] *)
Definition py_comments_re : regex :=
  seq_of [Chr 35; Star false Any; Eol].

(** [\bdef\s+(\w+)] *)
Definition py_functions_re : regex :=
  seq_of [Bnd; lit "def"; Plus space; Group (Plus wordc)].

(** [\bclass\s+(\w+)] *)
Definition py_classes_re : regex :=
  seq_of [Bnd; lit "class"; Plus space; Group (Plus wordc)].

(** The patterns of [highlight_javascript]. *)
Definition js_keywords_re : regex :=
  seq_of [Bnd;
          Group (words "function" ["const"; "let"; "var"; "if"; "else";
            "for"; "while"; "do"; "switch"; "case"; "break"; "continue";
            "return"; "try"; "catch"; "finally"; "throw"; "new"; "this";
            "class"; "extends"; "import"; "export"; "from"; "default";
            "async"; "await"; "yield"; "typeof"; "instanceof"; "delete";
            "void"; "in"; "of"]);
          Bnd].

(** [(`.*?`|Q(?:[^Q\\]|\\.)*Q|q(?:[^q\\]|\\.)*q)] *)
Definition js_strings_re : regex :=
  Group (alts (seq_of [Chr 96; Star false Any; Chr 96])
              [quoted DQ; quoted SQ]).

(** The patterns of [highlight_c_like]. *)
Definition c_keywords_re : regex :=
  seq_of [Bnd;
          Group (words "if" ["else"; "for"; "while"; "do"; "switch"; "case";
            "break"; "continue"; "return"; "class"; "struct"; "enum";
            "public"; "private"; "protected"; "static"; "void"; "int";
            "float"; "double"; "char"; "bool"; "long"; "short"; "unsigned";
            "signed"; "const"; "new"; "delete"; "try"; "catch"; "throw";
            "virtual"; "override"; "namespace"; "using"; "include"]);
          Bnd].

(** [Q(?:[^Q\\]|\\.)*Q] *)
Definition c_strings_re : regex := quoted DQ.

(** The patterns of [highlight_html]. *)

(** [</?[\w\-]+[^>]*>] *)
Definition html_tags_re : regex :=
  seq_of [Chr 60; Opt (Chr 47); Plus (Cls false [CWord; CChar 45]);
          Star true (Cls true [CChar 62]); Chr 62].

(** [<!--.*?-->] *)
Definition html_comments_re : regex :=
  seq_of [Chr 60; Chr 33; Chr 45; Chr 45; Star false Any;
          Chr 45; Chr 45; Chr 62].

(** [Q[^Q]*Q|q[^q]*q] *)
Definition html_strings_re : regex :=
  Alt (seq_of [Chr DQ; Star true (Cls true [CChar DQ]); Chr DQ])
      (seq_of [Chr SQ; Star true (Cls true [CChar SQ]); Chr SQ]).

Section Engine.
Context `{unicode_data}.

(** [self.regex_cache]: compiled patterns by key. *)
Definition get_compiled_regex (pattern : regex) (key : string)
    (cache : gmap string compiled) : compiled * gmap string compiled :=
  match cache !! key with
  | Some p => (p, cache)
  | None => (re_compile pattern, <[key := re_compile pattern]> cache)
  end.

(** [for match in pattern.finditer(content): tag_add(tag, start(), end())] *)
Definition tag_matches (t : tag) (p : compiled) (content : text)
  : list span :=
  map (fun mt => {| kind := t; startOffset := start0 mt;
                    endOffset := end0 mt |})
      (finditer (cflags p) content (pat p)).

(** The same with [start(1)], [end(1)]. *)
Definition tag_groups (t : tag) (p : compiled) (content : text)
  : list span :=
  map (fun mt => {| kind := t; startOffset := start1 mt;
                    endOffset := end1 mt |})
      (finditer (cflags p) content (pat p)).

(** [re.finditer(pattern, content, flags)] *)
Definition tag_finditer (t : tag) (pattern : regex) (f : flags)
    (content : text) : list span :=
  tag_matches t {| pat := pattern; cflags := f |} content.

Definition highlight_python (content : text)
    (cache : gmap string compiled) : list span * gmap string compiled :=
  let '(p, cache) := get_compiled_regex py_keywords_re "py_keywords" cache in
  let kw := tag_matches keyword p content in
  let '(p, cache) := get_compiled_regex py_builtins_re "py_builtins" cache in
  let bi := tag_matches builtin p content in
  let st := tag_finditer string_ py_strings_re dotall content in
  let '(p, cache) := get_compiled_regex py_comments_re "py_comments" cache in
  let cm := tag_matches comment p content in
  let '(p, cache) := get_compiled_regex numbers_re "py_numbers" cache in
  let nu := tag_matches number p content in
  let '(p, cache) := get_compiled_regex py_functions_re "py_functions" cache in
  let fn := tag_groups function_ p content in
  let '(p, cache) := get_compiled_regex py_classes_re "py_classes" cache in
  let cl := tag_groups class_ p content in
  (kw ++ bi ++ st ++ cm ++ nu ++ fn ++ cl, cache).

Definition highlight_javascript (content : text)
    (cache : gmap string compiled) : list span * gmap string compiled :=
  let '(p, cache) := get_compiled_regex js_keywords_re "js_keywords" cache in
  let kw := tag_matches keyword p content in
  let '(p, cache) := get_compiled_regex js_strings_re "js_strings" cache in
  let st := tag_matches string_ p content in
  let '(p, cache) := get_compiled_regex slash_comments_re "js_comments" cache in
  let cm := tag_matches comment p content in
  let '(p, cache) := get_compiled_regex numbers_re "js_numbers" cache in
  let nu := tag_matches number p content in
  (kw ++ st ++ cm ++ nu, cache).

Definition highlight_c_like (content : text)
    (cache : gmap string compiled) : list span * gmap string compiled :=
  let '(p, cache) := get_compiled_regex c_keywords_re "c_keywords" cache in
  let kw := tag_matches keyword p content in
  let '(p, cache) := get_compiled_regex c_strings_re "c_strings" cache in
  let st := tag_matches string_ p content in
  let '(p, cache) := get_compiled_regex slash_comments_re "c_comments" cache in
  let cm := tag_matches comment p content in
  let '(p, cache) := get_compiled_regex numbers_re "c_numbers" cache in
  let nu := tag_matches number p content in
  (kw ++ st ++ cm ++ nu, cache).

Definition highlight_html (content : text)
    (cache : gmap string compiled) : list span * gmap string compiled :=
  let '(p, cache) := get_compiled_regex html_tags_re "html_tags" cache in
  let tg := tag_matches keyword p content in
  let cm := tag_finditer comment html_comments_re dotall content in
  let st := tag_finditer string_ html_strings_re no_flags content in
  (tg ++ cm ++ st, cache).
End Engine.

(** The exceptions the modelled code could raise. *)
Inductive outcome (A : Type) :=
| Ok (a : A)
| IndexError.
Global Arguments Ok {A} a.
Global Arguments IndexError {A}.

(** The part of the editor [highlight_syntax] reads and writes:
    [self.current_file], the text of [self.text_area], the ranges of the
    syntax tags in it (in the order of the [tag_add] calls) and
    [self.regex_cache]. *)
Record editor := {
  current_file : option text;
  content : text;
  tags : list span;
  regex_cache : gmap string compiled
}.

(** [tag_remove(t, 1.0, end)]: every range of tag [t] goes. *)
Definition tag_remove (t : tag) (ts : list span) : list span :=
  filter (fun sp => kind sp <> t) ts.

(** Truth value of [self.current_file]: [None] and the empty string are
    false. *)
Definition truthy (f : option text) : option text :=
  match f with
  | Some (c :: f') => Some (c :: f')
  | _ => None
  end.

Definition DOT : N := 46%N.

Section Syntax.
Context `{unicode_data}.

(** [f.split('.')[-1].lower() if '.' in f else ''] *)
Definition extension (f : text) : outcome text :=
  if contains f [DOT]
  then match last (split DOT f) with
       | Some e => Ok (lower e)
       | None => IndexError
       end
  else Ok [].

(** The language dispatch of [highlight_syntax]. *)
Definition highlight (ext : text) (content : text)
    (cache : gmap string compiled) : list span * gmap string compiled :=
  if bool_decide (ext = cps "py") then highlight_python content cache
  else if bool_decide (ext ∈ map cps ["js"; "ts"; "jsx"; "tsx"])
  then highlight_javascript content cache
  else if bool_decide (ext ∈ map cps ["java"; "c"; "cpp"; "cs"; "h"])
  then highlight_c_like content cache
  else if bool_decide (ext = cps "html") then highlight_html content cache
  else ([], cache).

Definition highlight_syntax (e : editor) : outcome editor :=
  match truthy (current_file e) with
  | None => Ok e
  | Some f =>
      match extension f with
      | IndexError => IndexError
      | Ok ext =>
          let cleared :=
            foldl (fun ts t => tag_remove t ts) (tags e)
              [keyword; string_; comment; function_; number; class_;
               builtin; operator] in
          let '(added, cache) :=
            highlight ext (content e) (regex_cache e) in
          Ok {| current_file := current_file e;
                content := content e;
                tags := cleared ++ added;
                regex_cache := cache |}
      end
  end.
End Syntax.

(** The tags in the order [setup_syntax_highlighting] creates them.  The
    text widget gives a tag created later the higher priority, and of the
    syntax tags on a character the highest gives it its colour. *)
Definition tag_order : list tag :=
  [keyword; string_; comment; function_; number; class_; operator; builtin].

Definition covers (i : Z) (sp : span) : bool :=
  ((startOffset sp <=? i) && (i <? endOffset sp))%Z.

(** The syntax tag whose colour the character at offset [i] shows. *)
Definition displayed (ts : list span) (i : Z) : option tag :=
  last (filter (fun t =>
                  existsb (fun sp => bool_decide (kind sp = t) && covers i sp)
                          ts = true)
               tag_order).

(** The keys of [self.regex_cache] and the pattern compiled under each. *)
Definition rule_table : list (string * regex) :=
  [("py_keywords", py_keywords_re); ("py_builtins", py_builtins_re);
   ("py_comments", py_comments_re); ("py_numbers", numbers_re);
   ("py_functions", py_functions_re); ("py_classes", py_classes_re);
   ("js_keywords", js_keywords_re); ("js_strings", js_strings_re);
   ("js_comments", slash_comments_re); ("js_numbers", numbers_re);
   ("c_keywords", c_keywords_re); ("c_strings", c_strings_re);
   ("c_comments", slash_comments_re); ("c_numbers", numbers_re);
   ("html_tags", html_tags_re)]%string.

(** The caches the editor can hold: under each key, the pattern the rule
    table compiles under it. *)
Definition cache_ok (cache : gmap string compiled) : Prop :=
  forall key p pattern,
    cache !! key = Some p -> (key, pattern) ∈ rule_table ->
    p = re_compile pattern.

(** The cache has no key but those of the rule table. *)
Definition known_keys (cache : gmap string compiled) : Prop :=
  forall key, is_Some (cache !! key) -> key ∈ rule_table.*1.

(** The caches the editor goes through: empty at the start, changed by
    the calls of [highlight_syntax], emptied when the last file is closed. *)
Inductive reachable_cache `{unicode_data} : gmap string compiled -> Prop :=
| cache_initial : reachable_cache ∅
| cache_highlighted ext content cache :
    reachable_cache cache ->
    reachable_cache (highlight ext content cache).2
| cache_cleared cache : reachable_cache cache -> reachable_cache ∅.

Section Spans.
Context `{unicode_data}.

(** The spans of each profile with every pattern compiled afresh. *)
Definition python_spans (content : text) : list span :=
  tag_matches keyword (re_compile py_keywords_re) content ++
  tag_matches builtin (re_compile py_builtins_re) content ++
  tag_finditer string_ py_strings_re dotall content ++
  tag_matches comment (re_compile py_comments_re) content ++
  tag_matches number (re_compile numbers_re) content ++
  tag_groups function_ (re_compile py_functions_re) content ++
  tag_groups class_ (re_compile py_classes_re) content.

Definition javascript_spans (content : text) : list span :=
  tag_matches keyword (re_compile js_keywords_re) content ++
  tag_matches string_ (re_compile js_strings_re) content ++
  tag_matches comment (re_compile slash_comments_re) content ++
  tag_matches number (re_compile numbers_re) content.

Definition c_like_spans (content : text) : list span :=
  tag_matches keyword (re_compile c_keywords_re) content ++
  tag_matches string_ (re_compile c_strings_re) content ++
  tag_matches comment (re_compile slash_comments_re) content ++
  tag_matches number (re_compile numbers_re) content.

Definition html_spans (content : text) : list span :=
  tag_matches keyword (re_compile html_tags_re) content ++
  tag_finditer comment html_comments_re dotall content ++
  tag_finditer string_ html_strings_re no_flags content.

(** The spans of the profile of an extension; none for an extension
    without a profile. *)
Definition profile_spans (ext : text) (content : text) : list span :=
  if bool_decide (ext = cps "py") then python_spans content
  else if bool_decide (ext ∈ map cps ["js"; "ts"; "jsx"; "tsx"])
  then javascript_spans content
  else if bool_decide (ext ∈ map cps ["java"; "c"; "cpp"; "cs"; "h"])
  then c_like_spans content
  else if bool_decide (ext = cps "html") then html_spans content
  else [].

(** A span lies inside the text and is not empty. *)
Definition span_in_text (content : text) (sp : span) : Prop :=
  (0 <= startOffset sp < endOffset sp)%Z /\
  (endOffset sp <= Z.of_nat (length content))%Z.
End Spans.

(** The extensions that have a profile. *)
Definition recognized_extensions : list text :=
  map cps ["py"; "js"; "ts"; "jsx"; "tsx"; "java"; "c"; "cpp"; "cs"; "h";
           "html"].

(** Span [inner] lies inside span [outer]. *)
Definition inside (inner outer : span) : Prop :=
  (startOffset outer <= startOffset inner)%Z /\
  (endOffset inner <= endOffset outer)%Z.

(** Masking as the specification words it: no keyword span and no function
    span inside a comment span. *)
Definition masked_by_comments (spans : list span) : Prop :=
  forall c sp,
    c ∈ spans -> kind c = comment ->
    sp ∈ spans -> kind sp = keyword \/ kind sp = function_ ->
    ~ inside sp c.
End Highlight.

(** ** The bracket matcher *)

Module Bracket.
Local Open Scope Z_scope.

(** [self.matching_pairs]. *)
Definition matching_pairs : gmap text text :=
  list_to_map [(cps "(", cps ")"); (cps "[", cps "]"); (cps "{", cps "}");
               (cps "<", cps ">")].

(** [self.closing_pairs = {v: k for k, v in self.matching_pairs.items()}]. *)
Definition closing_pairs : gmap text text :=
  list_to_map ((fun kv : text * text => (kv.2, kv.1))
                 <$> map_to_list matching_pairs).

(** [text_area.get(1.0+a chars, 1.0+b chars)]: the widget holds the text
    and a final newline; indices outside of it are brought back to its
    ends. *)
Definition clamp (n : nat) (a : Z) : nat := Z.to_nat (Z.min (Z.max 0 a) (Z.of_nat n)).

Definition tk_get (content : text) (a b : Z) : text :=
  let w := content ++ [NL] in
  let a' := clamp (length w) a in
  let b' := clamp (length w) b in
  take (b' - a')%nat (drop a' w).

(** What a scan ends with. *)
Inductive scan_result :=
| Found (i : Z)
| NotFound
| IndexError.

(** [content[i]] for a non-negative index. *)
Definition char_at (content : text) (i : Z) : option N :=
  if (0 <=? i) && (i <? Z.of_nat (length content))
  then content !! Z.to_nat i
  else None.

(** The [while] loop of [find_matching_bracket], one iteration for each
    unit of [fuel]; [None] when the fuel does not reach the end of the
    loop. *)
Fixpoint scan_loop (content : text) (start_index : Z)
    (open_char close_char : text) (direction : Z)
    (fuel : nat) (count i : Z) : option scan_result :=
  if (0 <=? i) && (i <? Z.of_nat (length content)) then
    match fuel with
    | O => None
    | S fuel' =>
        match char_at content i with
        | None => Some IndexError
        | Some ch =>
            let count :=
              if bool_decide ([ch] = open_char) then count + 1
              else if bool_decide ([ch] = close_char) then count - 1
              else count in
            if (count =? 0) && negb (i =? start_index)
            then Some (Found i)
            else scan_loop content start_index open_char close_char
                   direction fuel' count (i + direction)
        end
    end
  else Some NotFound.

(** [find_matching_bracket(start_pos, open_char, close_char, direction)],
    with [start_index] the number of characters before [start_pos].  The
    result is the offset tagged besides the start, if any. *)
Definition find_matching_bracket (content : text) (start_index : Z)
    (open_char close_char : text) (direction : Z) : option scan_result :=
  scan_loop content start_index open_char close_char direction
    (S (length content)) 0 start_index.

(** The scan an anchor character starts: forward from an opener, backward
    from a closer, none from any other character. *)
Definition anchor_scan (content : text) (start_index : Z) (ch : text)
  : option (option scan_result) :=
  match matching_pairs !! ch with
  | Some closer =>
      Some (find_matching_bracket content start_index ch closer 1)
  | None =>
      match closing_pairs !! ch with
      | Some opener =>
          Some (find_matching_bracket content start_index ch opener (-1))
      | None => None
      end
  end.

(** [len(text_area.get(1.0, start_pos))], the number of characters before
    the start of a scan: [start_pos] is the index [cursor - 1 chars] for the
    anchor before the cursor and the index [cursor] for the one after it. *)
Definition before_index (content : text) (cursor : Z) : Z :=
  Z.of_nat (length (tk_get content 0 (cursor - 1))).

Definition after_index (content : text) (cursor : Z) : Z :=
  Z.of_nat (length (tk_get content 0 cursor)).

Definition char_before (content : text) (cursor : Z) : text :=
  tk_get content (cursor - 1) cursor.

Definition char_after (content : text) (cursor : Z) : text :=
  tk_get content cursor (cursor + 1).

(** The scans of [highlight_matching_bracket] with the cursor [cursor]
    characters into the text: for the character before the cursor and for
    the one after it. *)
Definition scan_before (content : text) (cursor : Z)
  : option (option scan_result) :=
  anchor_scan content (before_index content cursor)
    (char_before content cursor).

Definition scan_after (content : text) (cursor : Z)
  : option (option scan_result) :=
  anchor_scan content (after_index content cursor)
    (char_after content cursor).

(** The pair a scan tags with [match_bracket]: the start and the offset
    found, lower offset first. *)
Definition tagged_pair (start_index : Z)
    (r : option (option scan_result)) : option (Z * Z) :=
  match r with
  | Some (Some (Found i)) => Some (Z.min start_index i, Z.max start_index i)
  | _ => None
  end.

(** The pairs tagged after a call of [highlight_matching_bracket]: from the
    anchor before the cursor and from the anchor after it. *)
Definition matchAt (content : text) (cursor : Z)
  : option (Z * Z) * option (Z * Z) :=
  (tagged_pair (before_index content cursor) (scan_before content cursor),
   tagged_pair (after_index content cursor) (scan_after content cursor)).

(** The balanced count as the specification words it: over the positions
    [start], [start + d], ..., [start + k * d], one up for each occurrence
    of the anchor character and one down for each occurrence of its
    counterpart. *)
Definition weight (anchor counterpart : text) (ch : N) : Z :=
  if bool_decide ([ch] = anchor) then 1
  else if bool_decide ([ch] = counterpart) then -1
  else 0.

Fixpoint balance (content : text) (anchor counterpart : text)
    (start d : Z) (k : nat) : Z :=
  let w := match char_at content (start + Z.of_nat k * d) with
           | Some ch => weight anchor counterpart ch
           | None => 0
           end in
  match k with
  | O => w
  | S k' => balance content anchor counterpart start d k' + w
  end.

Definition in_text (content : text) (i : Z) : Prop :=
  0 <= i < Z.of_nat (length content).

(** Position [start + k * d] is the first one besides the start where the
    count is back at 0. *)
Definition first_return (content : text) (anchor counterpart : text)
    (start d : Z) (k : nat) : Prop :=
  (0 < k)%nat /\
  in_text content (start + Z.of_nat k * d) /\
  balance content anchor counterpart start d k = 0 /\
  forall t, (0 < t < k)%nat ->
            balance content anchor counterpart start d t <> 0.

(** The registered pairs, opener first. *)
Definition brackets : list (text * text) :=
  [(cps "(", cps ")"); (cps "[", cps "]"); (cps "{", cps "}");
   (cps "<", cps ">")].

(** What a pair of offsets has to be: an opener and, after it, its closer,
    both in the text. *)
Definition bracket_pair (content : text) (x y : Z) : Prop :=
  0 <= x < y /\ y < Z.of_nat (length content) /\
  exists (o c : text) (co cc : N),
    (o, c) ∈ brackets /\
    content !! Z.to_nat x = Some co /\ [co] = o /\
    content !! Z.to_nat y = Some cc /\ [cc] = c.
End Bracket.

(** ** The minimap *)

Module Minimap.
Local Open Scope Z_scope.

Definition rgb := (Z * Z * Z)%type.

(** The items [update_minimap] puts on the canvas. *)
Inductive item :=
| FillRect (x0 y0 x1 y1 : Z) (fill : rgb)
| ViewportRect (x0 y0 x1 y1 : Z).

Definition is_fill (it : item) : bool :=
  match it with FillRect _ _ _ _ _ => true | ViewportRect _ _ _ _ => false end.

Definition is_viewport (it : item) : bool := negb (is_fill it).

(** The categories of lines and their colours. *)
Inductive category := Comment | Definition_ | Import_ | ControlFlow | Plain.

Definition color_of (c : category) : rgb :=
  match c with
  | Comment => (106, 153, 85)
  | Definition_ => (220, 220, 170)
  | Import_ => (78, 201, 176)
  | ControlFlow => (86, 156, 214)
  | Plain => (212, 212, 212)
  end.

Definition definition_prefixes : list text :=
  map cps ["def "; "class "; "function "; "public "; "private "; "async ";
           "const "; "let "; "var "]%string.

Definition import_words : list text :=
  map cps ["import "; "from "; "include "; "using "]%string.

Definition control_prefixes : list text :=
  map cps ["if "; "else"; "for "; "while "; "switch "; "case "; "return "]%string.

(** The [if]/[elif] chain that chooses [base_color] from the line without
    its leading whitespace. *)
Definition base_color (stripped : text) : rgb :=
  if startswith stripped (cps "#") || startswith stripped (cps "//")
  then (106, 153, 85)
  else if existsb (startswith stripped) definition_prefixes
  then (220, 220, 170)
  else if existsb (contains stripped) import_words
  then (78, 201, 176)
  else if existsb (startswith stripped) control_prefixes
  then (86, 156, 214)
  else (212, 212, 212).

Section Render.
Context `{unicode_data}.

(** The two computations [update_minimap] does in floating point:
    [int((indent_level / 4) * (canvas_width / 15))] and
    [int(min(1.0, line_length / 100) * width)]. *)
Variable indent_px : Z -> Z -> Z.
Variable scaled_width : Z -> Z -> Z.

Definition line_height : Z := 2.
Definition line_gap : Z := 1.
Definition pixels_per_line : Z := line_height + line_gap.

(** The body of the loop over the lines: the rectangle of line [i], if
    it gets one. *)
Definition draw_line (canvas_width : Z) (i : nat) (line : text)
  : list item :=
  let y := Z.of_nat i * pixels_per_line in
  match strip line with
  | [] => []
  | _ :: _ =>
      let indent_level :=
        Z.of_nat (length line) - Z.of_nat (length (lstrip line)) in
      let stripped := lstrip line in
      let color := base_color stripped in
      let line_length := Z.of_nat (length (rstrip line)) in
      let indent_offset :=
        Z.min (canvas_width / 3) (indent_px indent_level canvas_width) in
      let content_width :=
        scaled_width line_length (canvas_width - indent_offset) in
      if 0 <? content_width
      then [FillRect indent_offset y (indent_offset + content_width)
                     (y + line_height) color]
      else []
  end.

(** [for i in range(visible_start, visible_end): line = lines[i] ...]:
    the rectangles drawn, and whether the loop ran to its end ([false]
    when [lines[i]] raised [IndexError]). *)
Fixpoint draw_lines (canvas_width : Z) (lines : list text)
    (i : nat) (n : nat) : list item * bool :=
  match n with
  | O => ([], true)
  | S n' =>
      match lines !! i with
      | None => ([], false)
      | Some line =>
          let rest := draw_lines canvas_width lines (S i) n' in
          (draw_line canvas_width i line ++ rest.1, rest.2)
      end
  end.

(** [update_minimap]: the items on the canvas after the call, given
    those before it.  [first_visible] and [last_visible] are the line
    numbers the text widget reports for the top and the bottom of its
    window.  The call also scrolls the canvas, which puts no item on
    it and is left out.  An exception inside the call is swallowed by
    its [except] clause and leaves what was drawn before it. *)
Definition update_minimap (minimap_visible : bool) (content : text)
    (canvas_height canvas_width : Z) (first_visible last_visible : Z)
    (canvas : list item) : list item :=
  if negb minimap_visible then canvas
  else
    let lines := split NL content in
    match lines with
    | [] => []
    | _ :: _ =>
        if (canvas_height <=? 1) || (canvas_width <=? 1) then []
        else
          let total_lines := Z.of_nat (length lines) in
          let visible_start := Z.max 0 (first_visible - 50) in
          let visible_end := Z.min total_lines (first_visible + 200) in
          let '(rects, finished) :=
            draw_lines canvas_width lines (Z.to_nat visible_start)
              (Z.to_nat (visible_end - visible_start)) in
          if finished then
            let viewport_start := (first_visible - 1) * pixels_per_line in
            let viewport_height :=
              (last_visible - first_visible + 1) * pixels_per_line in
            rects ++ [ViewportRect 0 viewport_start canvas_width
                        (viewport_start + viewport_height)]
          else rects
    end.
End Render.

(** [minimap_click]: the line the INSERT mark is put on by a click at the
    canvas coordinate [canvas_y], a whole number of pixels;
    [int(canvas_y / pixels_per_line)] rounds towards zero. *)
Definition minimap_click (content : text) (canvas_y : Z) : Z :=
  let lines := split NL content in
  let clicked_line := Z.quot canvas_y pixels_per_line + 1 in
  Z.max 1 (Z.min clicked_line (Z.of_nat (length lines))).

(** The rectangle of a line of the text that is not blank, with an index
    from [lo] up to [hi], at the height of the line and in the colour of
    its category. *)
Definition rectangle_of `{unicode_data} (lines : list text) (lo hi : Z)
    (it : item) : Prop :=
  exists (i : nat) line x0 x1,
    it = FillRect x0 (Z.of_nat i * 3) x1 (Z.of_nat i * 3 + 2)
           (base_color (lstrip line)) /\
    lo <= Z.of_nat i < hi /\
    lines !! i = Some line /\
    strip line <> [] /\
    x0 < x1.

(** The classification as the specification lists it: keywords without
    the spaces of the source. *)
Definition claimed_definition_prefixes : list text :=
  map cps ["def"; "class"; "function"; "public"; "private"; "async";
           "const"; "let"; "var"]%string.

Definition claimed_import_words : list text :=
  map cps ["import"; "from"; "include"; "using"]%string.

Definition claimed_control_prefixes : list text :=
  map cps ["if"; "else"; "for"; "while"; "switch"; "case"; "return"]%string.

Definition claimed_category (stripped : text) : category :=
  if startswith stripped (cps "#") || startswith stripped (cps "//")
  then Comment
  else if existsb (startswith stripped) claimed_definition_prefixes
  then Definition_
  else if existsb (contains stripped) claimed_import_words
  then Import_
  else if existsb (startswith stripped) claimed_control_prefixes
  then ControlFlow
  else Plain.

(** The classification as the code does it, rule by rule.  [p] occurs in
    [t]: *)
Definition occurs_in (p t : text) : Prop := exists a b, t = a ++ p ++ b.

Definition SP : N := 32%N.

(** A keyword with the space the code wants after it. *)
Definition spaced (w : string) : text := cps w ++ [SP].

Definition comment_rule (l : text) : Prop :=
  cps "#" `prefix_of` l \/ cps "//" `prefix_of` l.

Definition definition_rule (l : text) : Prop :=
  exists w,
    w ∈ ["def"; "class"; "function"; "public"; "private"; "async"; "const";
         "let"; "var"]%string /\
    spaced w `prefix_of` l.

Definition import_rule (l : text) : Prop :=
  exists w,
    w ∈ ["import"; "from"; "include"; "using"]%string /\
    occurs_in (spaced w) l.

Definition control_rule (l : text) : Prop :=
  cps "else" `prefix_of` l \/
  exists w,
    w ∈ ["if"; "for"; "while"; "switch"; "case"; "return"]%string /\
    spaced w `prefix_of` l.

(** The first rule that applies decides. *)
Definition category_of (l : text) (c : category) : Prop :=
  match c with
  | Comment => comment_rule l
  | Definition_ => ~ comment_rule l /\ definition_rule l
  | Import_ => ~ comment_rule l /\ ~ definition_rule l /\ import_rule l
  | ControlFlow =>
      ~ comment_rule l /\ ~ definition_rule l /\ ~ import_rule l /\
      control_rule l
  | Plain =>
      ~ comment_rule l /\ ~ definition_rule l /\ ~ import_rule l /\
      ~ control_rule l
  end.

(** The colour of a filled rectangle. *)
Definition fill_of (it : item) : option rgb :=
  match it with
  | FillRect _ _ _ _ fill => Some fill
  | ViewportRect _ _ _ _ => None
  end.
End Minimap.

(** ** Typing helpers *)

Module Typing.
Import Bracket.
Local Open Scope Z_scope.

(** The text widget as the typing helpers use it: its text, the offset of
    the INSERT mark and, when text is selected, the offsets SEL_FIRST and
    SEL_LAST. *)
Record widget := {
  w_text : text;
  w_insert : Z;
  w_sel : option (Z * Z)
}.

(** [insert(index, s)] and [delete(index1, index2)] on the text; the
    newline behind the text stays. *)
Definition tk_insert (content : text) (a : Z) (s : text) : text :=
  let a' := clamp (length content) a in
  take a' content ++ s ++ drop a' content.

Definition tk_delete (content : text) (a b : Z) : text :=
  let a' := clamp (length content) a in
  let b' := clamp (length content) b in
  if (a' <? b')%nat then take a' content ++ drop b' content else content.

(** An offset after text of length [n] went in at offset [a]: a mark at [a]
    moves behind the new text. *)
Definition after_insert (a n m : Z) : Z := if a <=? m then m + n else m.

(** An offset after the text from [a] to [b] went out. *)
Definition after_delete (a b m : Z) : Z :=
  if m <=? a then m else if m <=? b then a else m - (b - a).

(** [mark_set(INSERT, index)]: the mark stays in the text. *)
Definition mark_at (content : text) (i : Z) : Z :=
  Z.of_nat (clamp (length content) i).

Inductive result (A : Type) :=
| Done (a : A)
| KeyError.
Global Arguments Done {A} a.
Global Arguments KeyError {A}.

(** The [try] branch of [auto_complete_bracket] and [auto_complete_quote]:
    the selection from [s] to [e] goes between [left] and [right]. *)
Definition wrap_selection (left right : text) (s e : Z) (w : widget)
  : widget :=
  let selected_text := tk_get (w_text w) s e in
  let t := tk_delete (w_text w) s e in
  let t := tk_insert t s (left ++ selected_text ++ right) in
  {| w_text := t;
     w_insert := mark_at t (s + (Z.of_nat (length selected_text) + 1));
     w_sel := None |}.

(** The [except] branch: the pair goes in at the INSERT mark, and the mark
    one character back, between the two. *)
Definition insert_pair (left right : text) (w : widget) : widget :=
  let t := tk_insert (w_text w) (w_insert w) (left ++ right) in
  let ins :=
    after_insert (mark_at (w_text w) (w_insert w))
      (Z.of_nat (length (left ++ right))) (w_insert w) in
  {| w_text := t; w_insert := mark_at t (ins - 1); w_sel := None |}.

Definition auto_complete_bracket (opener : text) (w : widget)
  : result widget :=
  match matching_pairs !! opener with
  | None => KeyError
  | Some closer =>
      match w_sel w with
      | Some (s, e) => Done (wrap_selection opener closer s e w)
      | None => Done (insert_pair opener closer w)
      end
  end.

Definition auto_complete_quote (quote : text) (w : widget) : widget :=
  match w_sel w with
  | Some (s, e) => wrap_selection quote quote s e w
  | None =>
      let next_char := tk_get (w_text w) (w_insert w) (w_insert w + 1) in
      if bool_decide (next_char = quote)
      then {| w_text := w_text w;
              w_insert := mark_at (w_text w) (w_insert w + 1);
              w_sel := None |}
      else insert_pair quote quote w
  end.

(** The quote characters of [smart_backspace]. *)
Definition quote_chars : list text := [[34%N]; [39%N]; [96%N]].

(** [smart_backspace]: the widget after the call, and whether the call
    took the key ([break]); when it did not, the widget's own binding of
    the key runs next. *)
Definition smart_backspace (w : widget) : widget * bool :=
  let prev_char := tk_get (w_text w) (w_insert w - 1) (w_insert w) in
  let next_char := tk_get (w_text w) (w_insert w) (w_insert w + 1) in
  if match matching_pairs !! prev_char with
     | Some closer => bool_decide (next_char = closer)
     | None => false
     end
     || (bool_decide (prev_char ∈ quote_chars)
         && bool_decide (prev_char = next_char))
  then
    let a := Z.of_nat (clamp (length (w_text w)) (w_insert w - 1)) in
    let b := Z.of_nat (clamp (length (w_text w)) (w_insert w + 1)) in
    ({| w_text := tk_delete (w_text w) (w_insert w - 1) (w_insert w + 1);
        w_insert := after_delete a b (w_insert w);
        w_sel :=
          match w_sel w with
          | Some (s, e) => Some (after_delete a b s, after_delete a b e)
          | None => None
          end |}, true)
  else (w, false).

(** The characters [setup_bindings] binds to [auto_complete_bracket]. *)
Definition bound_openers : list text :=
  [cps "("; cps "["; cps "{"; cps "<"; cps ">"].

(** [auto_indent]: what the Return key puts in at the INSERT mark, given
    the line the mark is on. *)
Section Indent.
Context `{unicode_data}.

Definition ends_with (t : text) (c : N) : bool :=
  bool_decide (last t = Some c).

Definition auto_indent_text (line : text) : text :=
  let indent := (length line - length (lstrip line))%nat in
  let indent_str := take indent line in
  let stripped := rstrip line in
  let indent_str :=
    if ends_with stripped 58 || ends_with stripped 123 ||
       ends_with stripped 91 || ends_with stripped 40
    then indent_str ++ cps "    "
    else indent_str in
  NL :: indent_str.
End Indent.
End Typing.

(** ** The list of recent files *)

Module Recent.

(** [list.remove(x)]: the list without the first [x]; [None] for the
    [ValueError] of a list without [x]. *)
Fixpoint list_remove (x : text) (l : list text) : option (list text) :=
  match l with
  | [] => None
  | y :: l' =>
      if decide (x = y) then Some l'
      else match list_remove x l' with
           | Some r => Some (y :: r)
           | None => None
           end
  end.

Definition max_recent_files : nat := 10.

(** [add_to_recent_files]: the new [self.recent_files]; [None] if
    [remove] raised. *)
Definition add_to_recent_files (filepath : text) (recent_files : list text)
  : option (list text) :=
  match (if bool_decide (filepath ∈ recent_files)
         then list_remove filepath recent_files
         else Some recent_files) with
  | None => None
  | Some recent_files =>
      let recent_files := filepath :: recent_files in
      if max_recent_files <? length recent_files
      then Some (take max_recent_files recent_files)
      else Some recent_files
  end.
End Recent.

(** ** The history of the terminal *)

Module Terminal.
Local Open Scope Z_scope.

(** [self.command_history], [self.history_index] and the text of
    [self.terminal_input]. *)
Record terminal := {
  command_history : list text;
  history_index : Z;
  terminal_input : text
}.

(** The terminal of [setup_ui]. *)
Definition initial : terminal :=
  {| command_history := []; history_index := -1; terminal_input := [] |}.

(** [l[i]]: a negative index counts from the end; [None] for
    [IndexError]. *)
Definition py_index {A} (l : list A) (i : Z) : option A :=
  if 0 <=? i then l !! Z.to_nat i
  else if - Z.of_nat (length l) <=? i
       then l !! Z.to_nat (Z.of_nat (length l) + i)
       else None.

Definition nonempty {A} (l : list A) : bool :=
  match l with [] => false | _ :: _ => true end.

(** [terminal_history_up]; [None] for [IndexError]. *)
Definition terminal_history_up (t : terminal) : option terminal :=
  if nonempty (command_history t) && (0 <? history_index t) then
    let i := history_index t - 1 in
    match py_index (command_history t) i with
    | Some c =>
        Some {| command_history := command_history t;
                history_index := i;
                terminal_input := c |}
    | None => None
    end
  else Some t.

(** [terminal_history_down]. *)
Definition terminal_history_down (t : terminal) : option terminal :=
  let n := Z.of_nat (length (command_history t)) in
  if nonempty (command_history t) && (history_index t <? n - 1) then
    let i := history_index t + 1 in
    match py_index (command_history t) i with
    | Some c =>
        Some {| command_history := command_history t;
                history_index := i;
                terminal_input := c |}
    | None => None
    end
  else if n - 1 <=? history_index t then
    Some {| command_history := command_history t;
            history_index := n;
            terminal_input := [] |}
  else Some t.

(** What [execute_command] does to the history and the input line, before
    it runs the command: a command that is not blank goes to the end of the
    history, the index behind it, and the input line is emptied. *)
Definition record_command `{unicode_data} (t : terminal) : terminal :=
  match strip (terminal_input t) with
  | [] => t
  | command =>
      {| command_history := command_history t ++ [command];
         history_index :=
           Z.of_nat (length (command_history t ++ [command]));
         terminal_input := [] |}
  end.

(** The states the index can be in: from one before the first command, as
    at the start, to one behind the last. *)
Definition index_ok (t : terminal) : Prop :=
  -1 <= history_index t <= Z.of_nat (length (command_history t)).
End Terminal.

(** ** Operations on lines *)

Module Lines.
Import Bracket Typing Highlight.
Local Open Scope Z_scope.

(** The offset behind the first [k] newlines of the text, or the end of
    the text if it has fewer. *)
Fixpoint skip_lines (t : text) (k : nat) : nat :=
  match k, t with
  | S k', c :: t' => S (skip_lines t' (if (c =? NL)%N then k' else k))
  | _, _ => O
  end.

(** The characters up to the first newline. *)
Fixpoint line_len (t : text) : nat :=
  match t with
  | c :: t' => if (c =? NL)%N then O else S (line_len t')
  | [] => O
  end.

(** The offsets of the indices [n.0] and [n.end]; lines count from 1. *)
Definition line_start (content : text) (n : Z) : Z :=
  Z.of_nat (skip_lines content (Z.to_nat (n - 1))).

Definition line_end (content : text) (n : Z) : Z :=
  line_start content n +
  Z.of_nat (line_len (drop (Z.to_nat (line_start content n)) content)).

Definition count_newlines (t : text) : nat :=
  length (filter (fun c => c = NL) t).

(** [int(index(i).split('.')[0])]: the line of an offset, the newline
    that ends the text counted in. *)
Definition line_of (content : text) (i : Z) : Z :=
  1 + Z.of_nat (count_newlines
                  (take (clamp (length content + 1) i) (content ++ [NL]))).

(** The line of [end-1c]. *)
Definition last_line (content : text) : Z :=
  line_of content (Z.of_nat (length content)).

(** [get(n.0, n.end)] *)
Definition get_line (content : text) (n : Z) : text :=
  tk_get content (line_start content n) (line_end content n).

(** [delete(n.0, n.end); insert(n.0, new_line)] *)
Definition replace_line (content : text) (n : Z) (new_line : text) : text :=
  let t := tk_delete content (line_start content n) (line_end content n) in
  tk_insert t (line_start t n) new_line.

(** [move_line_up] and [move_line_down]: the text and the INSERT mark
    after the call. *)
Definition move_line_up (content : text) (insert : Z) : text * Z :=
  let line_num := line_of content insert in
  if 1 <? line_num then
    let current_line := get_line content line_num in
    let prev_line := get_line content (line_num - 1) in
    let t := tk_delete content (line_start content (line_num - 1))
               (line_end content line_num) in
    let t := tk_insert t (line_start t (line_num - 1))
               (current_line ++ [NL] ++ prev_line) in
    (t, line_start t (line_num - 1))
  else (content, insert).

Definition move_line_down (content : text) (insert : Z) : text * Z :=
  let line_num := line_of content insert in
  if line_num <? last_line content then
    let current_line := get_line content line_num in
    let next_line := get_line content (line_num + 1) in
    let t := tk_delete content (line_start content line_num)
               (line_end content (line_num + 1)) in
    let t := tk_insert t (line_start t line_num)
               (next_line ++ [NL] ++ current_line) in
    (t, line_start t (line_num + 1))
  else (content, insert).

(** [duplicate_line]: the text and the INSERT mark after the call. *)
Definition duplicate_line (w : widget) : text * Z :=
  match w_sel w with
  | Some (s, e) =>
      let selected_text := tk_get (w_text w) s e in
      (tk_insert (w_text w) e selected_text,
       after_insert (mark_at (w_text w) e)
         (Z.of_nat (length selected_text)) (w_insert w))
  | None =>
      let line_num := line_of (w_text w) (w_insert w) in
      let line := get_line (w_text w) line_num in
      (tk_insert (w_text w) (line_end (w_text w) line_num) (NL :: line),
       after_insert (line_end (w_text w) line_num)
         (Z.of_nat (length (NL :: line))) (w_insert w))
  end.

(** [comment_symbols] of [toggle_comment]. *)
Definition comment_symbols : list (text * text) :=
  [(cps "py", cps "#"); (cps "js", cps "//"); (cps "ts", cps "//");
   (cps "java", cps "//"); (cps "c", cps "//"); (cps "cpp", cps "//");
   (cps "cs", cps "//"); (cps "html", cps "<!--"); (cps "css", cps "/*")].

(** [comment_symbols.get(ext, '#')] *)
Definition comment_symbol (ext : text) : text :=
  default (cps "#") ((list_to_map comment_symbols : gmap text text) !! ext).

(** [range(start_line, end_line + 1)] *)
Definition line_numbers (start_line end_line : Z) : list Z :=
  map (fun k => start_line + Z.of_nat k)
      (seq 0 (Z.to_nat (end_line + 1 - start_line))).

(** The truth value of a string. *)
Definition truth (t : text) : bool :=
  match t with [] => false | _ :: _ => true end.

Section Toggle.
Context `{unicode_data}.

(** The first loop of [toggle_comment]: no line of the range has text
    that does not begin with the comment symbol. *)
Definition all_commented (comment content : text)
    (start_line end_line : Z) : bool :=
  forallb (fun line_num =>
             let line := get_line content line_num in
             negb (truth (strip line) &&
                   negb (startswith (lstrip line) comment)))
          (line_numbers start_line end_line).

(** The body of the second loop. *)
Definition toggle_line (all_commented : bool) (comment content : text)
    (line_num : Z) : text :=
  let line := get_line content line_num in
  if all_commented then
    if startswith (lstrip line) comment then
      let indent := (length line - length (lstrip line))%nat in
      let new_line :=
        take indent line ++
        lstrip (drop (length comment) (lstrip (drop indent line))) in
      replace_line content line_num new_line
    else content
  else
    if truth (strip line) then
      let indent := (length line - length (lstrip line))%nat in
      let new_line := take indent line ++ comment ++ cps " " ++
                      drop indent line in
      replace_line content line_num new_line
    else content.

(** What the second loop makes of a line. *)
Definition toggled (all_commented : bool) (comment line : text) : text :=
  let indent := (length line - length (lstrip line))%nat in
  if all_commented then
    if startswith (lstrip line) comment
    then take indent line ++
         lstrip (drop (length comment) (lstrip (drop indent line)))
    else line
  else
    if truth (strip line)
    then take indent line ++ comment ++ cps " " ++ drop indent line
    else line.

(** The two loops, on the lines from [start_line] to [end_line]. *)
Definition toggle_lines (comment content : text)
    (start_line end_line : Z) : text :=
  let all_commented := all_commented comment content start_line end_line in
  foldl (toggle_line all_commented comment) content
        (line_numbers start_line end_line).

(** [toggle_comment]: the text after the call. *)
Definition toggle_comment (current_file : option text) (w : widget)
  : outcome text :=
  match truthy current_file with
  | None => Ok (w_text w)
  | Some f =>
      match extension f with
      | IndexError => IndexError
      | Ok ext =>
          let comment := comment_symbol ext in
          let '(start_line, end_line) :=
            match w_sel w with
            | Some (s, e) => (line_of (w_text w) s, line_of (w_text w) e)
            | None => (line_of (w_text w) (w_insert w),
                       line_of (w_text w) (w_insert w))
            end in
          Ok (toggle_lines comment (w_text w) start_line end_line)
      end
  end.
End Toggle.

(** The text as its lines.  A line has no newline in it. *)
Definition nonl (l : text) : Prop := NL ∉ l.

(** A comment symbol has no newline in it and begins with a character that
    is no white space. *)
Definition symbol_ok `{unicode_data} (c : text) : Prop :=
  nonl c /\ exists c0 c', c = c0 :: c' /\ isspace c0 = false.

(** Lines with a newline behind each, and with a newline before each. *)
Definition closed_lines (ls : list text) : text :=
  concat (map (fun l => l ++ [NL]) ls).

Definition opened_lines (ls : list text) : text :=
  concat (map (fun l => NL :: l) ls).

(** ['\n'.join(ls)] *)
Definition unlines (ls : list text) : text :=
  match ls with
  | [] => []
  | l :: ls' => l ++ opened_lines ls'
  end.
End Lines.

(** ** Open files and tabs *)

Module Tabs.
Import Highlight.

(** An entry of [self.open_files]. *)
Record file_info := {
  fi_path : option text;
  fi_content : text;
  fi_modified : bool
}.

(** [self.open_files]: a dict, its keys in the order in which they were
    first set. *)
Abbreviation dict := (list (text * file_info)).

(** [d.get(k)] *)
Fixpoint dict_get (d : dict) (k : text) : option file_info :=
  match d with
  | [] => None
  | (k', v) :: d' => if decide (k = k') then Some v else dict_get d' k
  end.

(** [d[k] = v]: a key the dict has keeps its place. *)
Fixpoint dict_set (d : dict) (k : text) (v : file_info) : dict :=
  match d with
  | [] => [(k, v)]
  | (k', v') :: d' =>
      if decide (k = k') then (k, v) :: d' else (k', v') :: dict_set d' k v
  end.

(** [del d[k]], for a key the dict has. *)
Definition dict_del (d : dict) (k : text) : dict :=
  filter (fun kv => kv.1 <> k) d.

(** The part of the editor the tab functions work on: [self.open_files],
    [self.recent_files], and what [highlight_syntax] works on, which has
    [self.current_file] and the text of [self.text_area]. *)
Record state := {
  open_files : dict;
  recent_files : list text;
  ed : editor
}.

Definition set_open_files (d : dict) (st : state) : state :=
  {| open_files := d; recent_files := recent_files st; ed := ed st |}.

Definition set_ed (e : editor) (st : state) : state :=
  {| open_files := open_files st; recent_files := recent_files st; ed := e |}.

Definition set_current_file (f : option text) (e : editor) : editor :=
  {| current_file := f; content := content e; tags := tags e;
     regex_cache := regex_cache e |}.

(** [delete(1.0, end); insert(1.0, s)]: the tags go with the old text. *)
Definition set_text (s : text) (e : editor) : editor :=
  {| current_file := current_file e; content := s; tags := [];
     regex_cache := regex_cache e |}.

Definition set_regex_cache (c : gmap string compiled) (e : editor)
  : editor :=
  {| current_file := current_file e; content := content e; tags := tags e;
     regex_cache := c |}.

(** The exceptions of the tab functions, and a run that ends in a state
    or is cut short by an exception in a state. *)
Inductive raised :=
| KeyError | IndexError | AttributeError | ValueError
| ReadError.  (* what [open] and [read] raise *)

Inductive run :=
| Return (st : state)
| Raise (e : raised) (st : state).

Definition bind (r : run) (k : state -> run) : run :=
  match r with
  | Return st => k st
  | Raise e st => Raise e st
  end.

Notation "'let!' st ':=' r 'in' k" := (bind r (fun st => k))
  (at level 10, st name, r at level 100, k at level 200).

(** The state a run ends in. *)
Definition final (r : run) : state :=
  match r with Return st => st | Raise _ st => st end.

(** The text of the text area when no file is open. *)
Definition welcome : text :=
  cps "# Welcome to CodeForge" ++ [NL] ++ cps "# Press Ctrl+O to open a file".

Section Files.
Context `{unicode_data}.

(** [highlight_syntax] as a step of a run. *)
Definition highlight_step (st : state) : run :=
  match highlight_syntax (ed st) with
  | Ok e => Return (set_ed e st)
  | Highlight.IndexError => Raise IndexError st
  end.

(** [update_title]: it changes nothing in the state, and raises when the
    current file has no entry ([file_info.get] on [None]). *)
Definition update_title (st : state) : run :=
  match truthy (current_file (ed st)) with
  | Some cur =>
      match dict_get (open_files st) cur with
      | Some _ => Return st
      | None => Raise AttributeError st
      end
  | None => Return st
  end.

(** [switch_to_file].  The calls of [update_tabs], [update_line_numbers]
    and [update_minimap] in it change nothing in the state and raise
    nothing, and are left out. *)
Definition switch_to_file (filename : text) (st : state) : run :=
  match dict_get (open_files st) filename with
  | None => Return st
  | Some _ =>
      let! st :=
        match truthy (current_file (ed st)) with
        | Some cur =>
            match dict_get (open_files st) cur with
            | None => Raise KeyError st
            | Some info =>
                Return
                  (set_open_files
                     (dict_set (open_files st) cur
                        {| fi_path := fi_path info;
                           fi_content := content (ed st);
                           fi_modified := fi_modified info |})
                     st)
            end
        | None => Return st
        end in
      let st := set_ed (set_current_file (Some filename) (ed st)) st in
      match dict_get (open_files st) filename with
      | None => Raise KeyError st
      | Some file_info =>
          let st := set_ed (set_text (fi_content file_info) (ed st)) st in
          let! st := highlight_step st in
          update_title st
      end
  end.

(** [save_file] writes to the disk and may ask for a file name; it is
    left open. *)
Variable save_file : state -> run.

(** [close_file]; [response] is the answer to the question whether to
    save the changes, asked when the file is modified: [None] for Cancel. *)
Definition close_file (filename : text) (response : option bool)
    (st : state) : run :=
  match dict_get (open_files st) filename with
  | None => Return st
  | Some file_info =>
      if fi_modified file_info && bool_decide (response = None)
      then Return st
      else
        let! st :=
          if fi_modified file_info && bool_decide (response = Some true)
          then save_file st
          else Return st in
        match dict_get (open_files st) filename with
        | None => Raise KeyError st
        | Some _ =>
            let d := dict_del (open_files st) filename in
            let st := set_open_files d st in
            let st :=
              match d with
              | [] => set_ed (set_regex_cache ∅ (ed st)) st
              | _ :: _ => st
              end in
            match d with
            | (first, _) :: _ => switch_to_file first st
            | [] =>
                Return (set_ed (set_text welcome
                                  (set_current_file None (ed st))) st)
            end
        end
  end.

(** [close_current_tab] *)
Definition close_current_tab (response : option bool) (st : state) : run :=
  match truthy (current_file (ed st)) with
  | Some cur => close_file cur response st
  | None => Return st
  end.

(** [load_file]: [filename] is the base name of [filepath] and [read]
    what reading the file gave, [None] if it failed.  What is raised
    inside is caught and shown in a message box: the result is the state
    reached and the exception shown, if any. *)
Definition load_file (filepath filename : text) (read : option text)
    (st : state) : state * option raised :=
  match read with
  | None => (st, Some ReadError)
  | Some file_content =>
      let st :=
        set_open_files
          (dict_set (open_files st) filename
             {| fi_path := Some filepath; fi_content := file_content;
                fi_modified := false |})
          st in
      let r :=
        let! st := switch_to_file filename st in
        let! st := highlight_step st in
        let! st := update_title st in
        match Recent.add_to_recent_files filepath (recent_files st) with
        | Some l =>
            Return {| open_files := open_files st; recent_files := l;
                      ed := ed st |}
        | None => Raise ValueError st
        end in
      match r with
      | Return st => (st, None)
      | Raise e st => (st, Some e)
      end
  end.
End Files.

(** The current file, if there is one, has an entry. *)
Definition current_open (st : state) : Prop :=
  match truthy (current_file (ed st)) with
  | Some cur => is_Some (dict_get (open_files st) cur)
  | None => True
  end.
End Tabs.

(** ** Sample texts *)

Module Samples.
Import Highlight.

(** An editor on a file without a profile, with tags left from before. *)
Definition notes_editor : editor :=
  {| current_file := Some (cps "notes.txt");
     content := cps "def f(): pass";
     tags := [{| kind := keyword; startOffset := 0; endOffset := 3 |};
              {| kind := operator; startOffset := 5; endOffset := 6 |}];
     regex_cache := ∅ |}.

(** The line of the precedence example. *)
Definition comment_line : text := cps "# def foo():".

Definition comment_line_spans : list span :=
  [{| kind := keyword; startOffset := 2; endOffset := 5 |};
   {| kind := comment; startOffset := 0; endOffset := 12 |};
   {| kind := function_; startOffset := 6; endOffset := 9 |}].

(** Two lines with a comment each. *)
Definition two_line_text : text := cps "a # b" ++ [NL] ++ cps "c # d".

(** A block comment, a template string, a triple-quoted string and a markup
    comment, each with a newline inside. *)
Definition block_comment : text := cps "/* a" ++ [NL] ++ cps "b */".
Definition template_string : text := [96%N] ++ cps "a" ++ [NL] ++ cps "b" ++ [96%N].
Definition triple_quoted : text :=
  [DQ; DQ; DQ] ++ cps "a" ++ [NL] ++ cps "b" ++ [DQ; DQ; DQ].
Definition markup_comment : text := cps "<!-- a" ++ [NL] ++ cps "b -->".

(** Three lines of nothing but spaces. *)
Definition blank_text : text := cps "  " ++ [NL; NL] ++ cps " ".

(** A widget with the mark in the middle of its text and no selection. *)
Definition plain_widget : Typing.widget :=
  {| Typing.w_text := cps "x = f";
     Typing.w_insert := 5;
     Typing.w_sel := None |}.

(** A widget with the text [a + b] selected. *)
Definition selected_widget : Typing.widget :=
  {| Typing.w_text := cps "x = a + b";
     Typing.w_insert := 9;
     Typing.w_sel := Some (4%Z, 9%Z) |}.

(** A terminal with one command in its history and another typed. *)
Definition typed_terminal : Terminal.terminal :=
  {| Terminal.command_history := [cps "ls"];
     Terminal.history_index := 1;
     Terminal.terminal_input := cps "  make test " |}.

(** Three lines, the second indented. *)
Definition three_lines : text :=
  cps "a" ++ [NL] ++ cps "  b" ++ [NL] ++ cps "c".

(** Two open files, the first the current one and shown with a change that
    is not in its entry yet. *)
Definition two_tabs : Tabs.state :=
  {| Tabs.open_files :=
       [(cps "a.py",
         {| Tabs.fi_path := Some (cps "/src/a.py");
            Tabs.fi_content := cps "x = 1";
            Tabs.fi_modified := false |});
        (cps "b.py",
         {| Tabs.fi_path := Some (cps "/src/b.py");
            Tabs.fi_content := cps "y = 2";
            Tabs.fi_modified := false |})];
     Tabs.recent_files := [cps "/src/b.py"; cps "/src/a.py"];
     Tabs.ed :=
       {| current_file := Some (cps "a.py");
          content := cps "x = 10";
          tags := [];
          regex_cache := ∅ |} |}.

(** The same after the entry of the current file has gone. *)
Definition stale_tabs : Tabs.state :=
  Tabs.set_open_files (Tabs.dict_del (Tabs.open_files two_tabs) (cps "a.py"))
    two_tabs.

(** A widget on one indented line. *)
Definition indented_widget : Typing.widget :=
  {| Typing.w_text := cps "    return x;";
     Typing.w_insert := 6;
     Typing.w_sel := None |}.
End Samples.

(** * Properties *)

(** ** The matcher *)

Module ReFacts.
Import Re.

Section Facts.
Context `{unicode_data}.
Variable fl : flags.
Variable s : text.

Local Abbreviation m := (m fl s).
Local Abbreviation group_ok := (group_ok s).
Local Abbreviation is_match := (is_match fl s).
Local Abbreviation searches_left := (searches_left s).
Local Abbreviation no_newline := (no_newline s).
Local Abbreviation at_text_end := (at_text_end s).

Lemma step_char_In p i c j c' :
  In (j, c') (step_char s p i c) ->
  j = S i /\ c' = c /\ exists b, s !! i = Some b /\ p b = true.
Proof.
  unfold step_char. destruct (s !! i) as [b|] eqn:E; [|intros []].
  destruct (p b) eqn:Ep; [|intros []].
  intros [[= <- <-]|[]]. eauto.
Qed.

Lemma step_char_lt p i c j c' :
  In (j, c') (step_char s p i c) -> j = S i /\ c' = c /\ i < length s.
Proof.
  intros (-> & -> & b & Hb & _)%step_char_In.
  repeat split. by apply lookup_lt_Some in Hb.
Qed.

(** A relation between the state before and after a match that holds
    of single steps carries over to repetitions. *)
Lemma star_loop_ind (R : nat -> caps -> nat -> caps -> Prop) body g :
  (forall i c, R i c i c) ->
  (forall i c j c' k c'', R i c j c' -> R j c' k c'' -> R i c k c'') ->
  (forall i c j c', i < j -> In (j, c') (body i c) -> R i c j c') ->
  forall fuel i c j c',
    In (j, c') (star_loop body g fuel i c) -> R i c j c'.
Proof.
  intros Hrefl Htrans Hbody. induction fuel as [|fuel IH]; intros i c j c'.
  - simpl. intros [[= <- <-]|[]]. apply Hrefl.
  - simpl. intros Hin.
    assert (In (j, c') [(i, c)] \/
            In (j, c')
               (flat_map (fun jc : nat * caps =>
                            if i <? jc.1
                            then star_loop body g fuel jc.1 jc.2
                            else []) (body i c))) as [Hhere|Hmore].
    { destruct g; [apply in_app_or in Hin|simpl in Hin]; simpl; tauto. }
    + destruct Hhere as [[= <- <-]|[]]. apply Hrefl.
    + apply in_flat_map in Hmore as [[k ck] [Hk Hrest]]. simpl in Hrest.
      destruct (Nat.ltb_spec i k); [|destruct Hrest].
      eapply Htrans; [apply Hbody; eassumption|]. by apply IH.
Qed.

(** A match ends at or after its start, by at least [min_len]. *)
Lemma m_min_len r : forall i c j c',
  In (j, c') (m r i c) -> i + min_len r <= j.
Proof.
  induction r as [|a|neg items| |r1 IH1 r2 IH2|r1 IH1 r2 IH2|g r1 IH1
                 |r1 IH1| |]; intros i c j c'; simpl.
  - intros [[= <- <-]|[]]. lia.
  - intros (-> & _)%step_char_lt. lia.
  - intros (-> & _)%step_char_lt. lia.
  - intros (-> & _)%step_char_lt. lia.
  - intros [[k ck] [Hk Hj]]%in_flat_map. simpl in Hj.
    apply IH1 in Hk. apply IH2 in Hj. lia.
  - intros [Hin|Hin]%in_app_or; [apply IH1 in Hin|apply IH2 in Hin]; lia.
  - intros Hin. rewrite Nat.add_0_r.
    eapply (star_loop_ind (fun i _ j _ => i <= j)); [..|exact Hin]; simpl.
    + lia.
    + lia.
    + lia.
  - intros [[k ck] [[= <- <-] Hk]]%in_map_iff. simpl. by apply IH1 in Hk.
  - destruct (at_boundary s i); [|intros []]. intros [[= <- <-]|[]]. lia.
  - destruct (at_eol fl s i); [|intros []]. intros [[= <- <-]|[]]. lia.
Qed.

(** A match started inside the text ends inside the text. *)
Lemma m_end_le r : forall i c j c',
  i <= length s -> In (j, c') (m r i c) -> j <= length s.
Proof.
  induction r as [|a|neg items| |r1 IH1 r2 IH2|r1 IH1 r2 IH2|g r1 IH1
                 |r1 IH1| |]; intros i c j c' Hi; simpl.
  - intros [[= <- <-]|[]]. lia.
  - intros (-> & _ & ?)%step_char_lt. lia.
  - intros (-> & _ & ?)%step_char_lt. lia.
  - intros (-> & _ & ?)%step_char_lt. lia.
  - intros [[k ck] [Hk Hj]]%in_flat_map. simpl in Hj. eauto.
  - intros [Hin|Hin]%in_app_or; eauto.
  - intros Hin. revert Hi.
    eapply (star_loop_ind
              (fun i _ j _ => i <= length s -> j <= length s));
      [..|exact Hin]; simpl; eauto.
  - intros [[k ck] [[= <- <-] Hk]]%in_map_iff. simpl. eauto.
  - destruct (at_boundary s i); [|intros []]. intros [[= <- <-]|[]]. lia.
  - destruct (at_eol fl s i); [|intros []]. intros [[= <- <-]|[]]. lia.
Qed.

Lemma m_group_ok r : forall i c j c',
  groups_nonempty r = true -> i <= length s -> group_ok c ->
  In (j, c') (m r i c) -> group_ok c'.
Proof.
  induction r as [|a|neg items| |r1 IH1 r2 IH2|r1 IH1 r2 IH2|g r1 IH1
                 |r1 IH1| |]; intros i c j c' Hg Hi Hc; simpl in *.
  - by intros [[= <- <-]|[]].
  - by intros (-> & -> & _)%step_char_lt.
  - by intros (-> & -> & _)%step_char_lt.
  - by intros (-> & -> & _)%step_char_lt.
  - apply andb_prop in Hg as [Hg1 Hg2].
    intros [[k ck] [Hk Hj]]%in_flat_map. simpl in Hj.
    eapply IH2; [done| |eapply IH1; eauto|exact Hj].
    eapply m_end_le; eauto.
  - apply andb_prop in Hg as [Hg1 Hg2].
    intros [Hin|Hin]%in_app_or; eauto.
  - intros Hin. revert Hi Hc.
    eapply (star_loop_ind
              (fun i c j c' => i <= length s -> group_ok c ->
                               j <= length s /\ group_ok c'));
      [..|exact Hin]; simpl.
    + done.
    + intros ?????? H1 H2 ??. destruct H1 as [??]; auto.
    + intros i0 c0 j0 c0' _ Hin0 ??. split; [eapply m_end_le|]; eauto.
  - apply andb_prop in Hg as [Hg1 Hg2].
    intros [[k ck] [[= <- <-] Hk]]%in_map_iff. simpl.
    pose proof (m_min_len _ _ _ _ _ Hk).
    pose proof (m_end_le _ _ _ _ _ Hi Hk).
    destruct (min_len r1); [done|]. lia.
  - destruct (at_boundary s i); [|intros []]. by intros [[= <- <-]|[]].
  - destruct (at_eol fl s i); [|intros []]. by intros [[= <- <-]|[]].
Qed.

Lemma m_keeps_group r : forall i c j c',
  is_Some c -> In (j, c') (m r i c) -> is_Some c'.
Proof.
  induction r as [|a|neg items| |r1 IH1 r2 IH2|r1 IH1 r2 IH2|g r1 IH1
                 |r1 IH1| |]; intros i c j c' Hc; simpl.
  - by intros [[= <- <-]|[]].
  - by intros (-> & -> & _)%step_char_lt.
  - by intros (-> & -> & _)%step_char_lt.
  - by intros (-> & -> & _)%step_char_lt.
  - intros [[k ck] [Hk Hj]]%in_flat_map. simpl in Hj. eauto.
  - intros [Hin|Hin]%in_app_or; eauto.
  - intros Hin. revert Hc.
    eapply (star_loop_ind (fun _ c _ c' => is_Some c -> is_Some c'));
      [..|exact Hin]; simpl; eauto.
  - intros [[k ck] [[= <- <-] Hk]]%in_map_iff. simpl. eauto.
  - destruct (at_boundary s i); [|intros []]. by intros [[= <- <-]|[]].
  - destruct (at_eol fl s i); [|intros []]. by intros [[= <- <-]|[]].
Qed.

Lemma m_sets_group r : forall i c j c',
  sets_group r = true -> In (j, c') (m r i c) -> is_Some c'.
Proof.
  induction r as [|a|neg items| |r1 IH1 r2 IH2|r1 IH1 r2 IH2|g r1 IH1
                 |r1 IH1| |]; intros i c j c' Hg; simpl in *; try done.
  - intros [[k ck] [Hk Hj]]%in_flat_map. simpl in Hj.
    apply orb_prop in Hg as [Hg|Hg]; eauto using m_keeps_group.
  - apply andb_prop in Hg as [Hg1 Hg2].
    intros [Hin|Hin]%in_app_or; eauto.
  - intros [[k ck] [[= <- <-] Hk]]%in_map_iff. simpl. eauto.
Qed.

Lemma match_at_is_match r ma pos p mt :
  p <= length s -> match_at fl s r ma pos p = Some mt ->
  m_start mt = p /\ is_match r mt.
Proof.
  unfold match_at. intros Hp.
  destruct (filter _ _) as [|[j cj] l] eqn:E; [done|].
  intros [= <-]. simpl. split; [done|]. split; [done|]. simpl.
  assert (Hin : (j, cj) ∈ filter
            (fun jc : nat * caps =>
               negb (ma && (p =? pos) && (jc.1 =? pos)) = true)
            (m r p None)) by (rewrite E; left).
  apply list_elem_of_filter in Hin as [_ Hin].
  by apply list_elem_of_In.
Qed.

Lemma search_from_is_match r ma pos n : forall p mt,
  p + n <= length s -> search_from fl s r ma pos n p = Some mt ->
  p <= m_start mt /\ is_match r mt.
Proof.
  induction n as [|n IH]; intros p mt Hp; simpl.
  - destruct (match_at fl s r ma pos p) as [mt'|] eqn:E; [|done].
    intros [= <-]. apply match_at_is_match in E as [-> ?]; [done|lia].
  - destruct (match_at fl s r ma pos p) as [mt'|] eqn:E.
    + intros [= <-]. apply match_at_is_match in E as [-> ?]; [done|lia].
    + intros Hs. apply IH in Hs as [? ?]; [|lia]. split; [lia|done].
Qed.

Lemma search_is_match r ma pos mt :
  search fl s r ma pos = Some mt -> pos <= m_start mt /\ is_match r mt.
Proof.
  unfold search. destruct (Nat.leb_spec pos (length s)); [|done].
  apply search_from_is_match. lia.
Qed.

Lemma scan_is_match r fuel : forall ma pos mt,
  In mt (scan fl s r fuel ma pos) -> is_match r mt.
Proof.
  induction fuel as [|fuel IH]; intros ma pos mt; simpl; [done|].
  destruct (search fl s r ma pos) as [mt'|] eqn:E; [|done].
  intros [<-|Hin]; [by apply search_is_match in E as [_ ?]|eauto].
Qed.

Lemma finditer_is_match r mt :
  In mt (finditer fl s r) -> is_match r mt.
Proof. apply scan_is_match. Qed.

(** The whole match of a pattern that cannot match the empty string. *)
Lemma finditer_span r mt :
  1 <= min_len r -> In mt (finditer fl s r) ->
  (0 <= start0 mt < end0 mt)%Z /\ (end0 mt <= Z.of_nat (length s))%Z.
Proof.
  intros Hr [Hs Hin]%finditer_is_match. unfold start0, end0.
  pose proof (m_min_len _ _ _ _ _ Hin).
  pose proof (m_end_le _ _ _ _ _ Hs Hin). lia.
Qed.

(** The span of the group of a pattern that always goes through it. *)
Lemma finditer_group_span r mt :
  sets_group r = true -> groups_nonempty r = true ->
  In mt (finditer fl s r) ->
  (0 <= start1 mt < end1 mt)%Z /\ (end1 mt <= Z.of_nat (length s))%Z.
Proof.
  intros Hsg Hgn [Hs Hin]%finditer_is_match. unfold start1, end1.
  pose proof (m_sets_group _ _ _ _ _ Hsg Hin) as [[a b] Hab].
  pose proof (m_group_ok r _ None _ _ Hgn Hs I Hin) as Hok.
  rewrite Hab in *. simpl in Hok. lia.
Qed.
(** *** The repetition loop has fuel for every iteration *)

Lemma flat_map_eq_in {A B} (f g : A -> list B) (l : list A) :
  (forall x, In x l -> f x = g x) -> flat_map f l = flat_map g l.
Proof.
  induction l as [|x l IH]; intros Hfg; simpl; [done|].
  rewrite Hfg by (by left). f_equal. apply IH. intros y Hy. apply Hfg.
  by right.
Qed.

Lemma star_loop_fuel body g :
  (forall i c j c',
      i <= length s -> In (j, c') (body i c) -> j <= length s) ->
  forall fuel1 fuel2 i c,
    i <= length s ->
    length s - i <= fuel1 -> length s - i <= fuel2 ->
    star_loop body g fuel1 i c = star_loop body g fuel2 i c.
Proof.
  intros Hbody.
  assert (Hend : forall fuel c,
             star_loop body g fuel (length s) c = [(length s, c)]).
  { intros [|fuel] c; [done|]. cbn [star_loop].
    rewrite (flat_map_eq_in _ (fun _ => [])).
    - replace (flat_map (fun _ => []) (body (length s) c))
        with (@nil (nat * caps)) by (by induction (body (length s) c)).
      by destruct g.
    - intros [j c'] Hj%Hbody; [|done]. simpl.
      by rewrite (proj2 (Nat.ltb_ge (length s) j)) by lia. }
  induction fuel1 as [|fuel1 IH]; intros fuel2 i c Hi H1 H2.
  - assert (i = length s) as -> by lia. by rewrite !Hend.
  - destruct fuel2 as [|fuel2].
    { assert (i = length s) as -> by lia. by rewrite !Hend. }
    cbn [star_loop].
    rewrite (flat_map_eq_in _
               (fun jc : nat * caps =>
                  if i <? jc.1 then star_loop body g fuel2 jc.1 jc.2
                  else [])); [done|].
    intros [j c'] Hj%Hbody; [|done]. simpl.
    destruct (Nat.ltb_spec i j); [|done].
    apply IH; lia.
Qed.

(** The equation of [r*] and [r*?]: one more iteration and then the
    repetition again, or no more iteration. *)
Lemma m_star_unfold g r i c :
  i <= length s ->
  m (Star g r) i c
  = let more :=
      flat_map (fun jc : nat * caps =>
                  if i <? jc.1 then m (Star g r) jc.1 jc.2 else [])
               (m r i c) in
    if g then more ++ [(i, c)] else (i, c) :: more.
Proof.
  intros Hi. cbn [Re.m]. cbv zeta.
  destruct (length s - i) as [|fuel] eqn:Hf.
  - cbn [star_loop].
    rewrite (flat_map_eq_in _ (fun _ => [])).
    + replace (flat_map (fun _ => []) (m r i c))
        with (@nil (nat * caps)) by (by induction (m r i c)).
      by destruct g.
    + intros [j c'] Hj. simpl. destruct (Nat.ltb_spec i j); [|done].
      apply m_end_le in Hj; lia.
  - cbn [star_loop].
    rewrite (flat_map_eq_in _
               (fun jc : nat * caps =>
                  if i <? jc.1
                  then star_loop (m r) g (length s - jc.1) jc.1 jc.2
                  else [])); [done|].
    intros [j c'] Hj. simpl. destruct (Nat.ltb_spec i j); [|done].
    apply m_end_le in Hj; [|done].
    apply star_loop_fuel; [|lia..].
    intros i0 c0 j0 c0'. apply m_end_le.
Qed.

(** *** The scanner has fuel for every match *)

Lemma match_at_advance r pos p mt :
  pos <= p -> match_at fl s r true pos p = Some mt -> pos < m_end mt.
Proof.
  unfold match_at. intros Hp.
  destruct (filter _ _) as [|[j cj] l] eqn:E; [done|].
  intros [= <-]. simpl.
  assert (Hin : (j, cj) ∈ filter
            (fun jc : nat * caps =>
               negb (true && (p =? pos) && (jc.1 =? pos)) = true)
            (Re.m fl s r p None)) by (rewrite E; left).
  apply list_elem_of_filter in Hin as [Hf Hin]. simpl in Hf.
  apply list_elem_of_In, m_min_len in Hin.
  destruct (Nat.eqb_spec p pos), (Nat.eqb_spec j pos); simpl in Hf;
    try done; lia.
Qed.

Lemma search_from_advance r pos n : forall p mt,
  pos <= p -> search_from fl s r true pos n p = Some mt -> pos < m_end mt.
Proof.
  induction n as [|n IH]; intros p mt Hp; simpl;
    destruct (match_at fl s r true pos p) as [mt'|] eqn:E;
    try done; try (intros [= <-]; by eapply match_at_advance).
  intros Hs. apply IH in Hs; [done|lia].
Qed.

Lemma search_bounds r ma pos mt :
  search fl s r ma pos = Some mt ->
  pos <= m_start mt <= m_end mt /\ m_end mt <= length s /\
  (ma = true -> pos < m_end mt).
Proof.
  intros Hs. pose proof Hs as [Hp [Hst Hin]]%search_is_match.
  pose proof (m_min_len _ _ _ _ _ Hin).
  pose proof (m_end_le _ _ _ _ _ Hst Hin).
  repeat split; try lia. intros ->. revert Hs. unfold search.
  destruct (pos <=? length s); [|done]. by apply search_from_advance.
Qed.

Lemma scan_fuel r : forall fuel1 fuel2 ma pos,
  searches_left ma pos <= fuel1 -> searches_left ma pos <= fuel2 ->
  scan fl s r fuel1 ma pos = scan fl s r fuel2 ma pos.
Proof.
  unfold searches_left.
  induction fuel1 as [|fuel1 IH]; intros [|fuel2] ma pos H1 H2;
    try (destruct ma; lia).
  simpl. destruct (search fl s r ma pos) as [mt|] eqn:E; [|done].
  f_equal. apply search_bounds in E as (Hp & He & Hma).
  destruct (Nat.eqb_spec (m_end mt) (m_start mt)) as [Heq|Hne].
  - destruct ma; [specialize (Hma eq_refl)|]; apply IH; lia.
  - destruct ma; apply IH; lia.
Qed.

(** More fuel than [finditer] gives changes nothing. *)
Lemma finditer_fuel r fuel :
  2 * length s + 2 <= fuel -> scan fl s r fuel false 0 = finditer fl s r.
Proof.
  intros Hf. apply scan_fuel; unfold searches_left; lia.
Qed.

(** *** Inversion of matches *)

Lemma m_cat r1 r2 i c j c' :
  In (j, c') (m (Cat r1 r2) i c) <->
  exists k ck, In (k, ck) (m r1 i c) /\ In (j, c') (m r2 k ck).
Proof.
  simpl. rewrite in_flat_map. split.
  - intros [[k ck] [? ?]]. eauto.
  - intros (k & ck & ? & ?). exists (k, ck). eauto.
Qed.

Lemma m_chr a i c j c' :
  In (j, c') (m (Chr a) i c) <-> j = S i /\ c' = c /\ s !! i = Some a.
Proof.
  simpl. split.
  - intros (-> & -> & b & Hb & Heq)%step_char_In.
    apply N.eqb_eq in Heq as ->. done.
  - intros (-> & -> & Hs). unfold step_char. rewrite Hs, N.eqb_refl. by left.
Qed.

Lemma m_eps i c j c' : In (j, c') (m Eps i c) <-> j = i /\ c' = c.
Proof.
  simpl. split.
  - by intros [[= <- <-]|[]].
  - intros [-> ->]. by left.
Qed.

Lemma m_eol i c j c' :
  In (j, c') (m Eol i c) <-> j = i /\ c' = c /\ at_eol fl s i = true.
Proof.
  simpl. destruct (at_eol fl s i); split.
  - by intros [[= <- <-]|[]].
  - intros (-> & -> & _). by left.
  - intros [].
  - by intros (_ & _ & ?).
Qed.

(** Without DOTALL a run of [.] stays on one line. *)
Lemma star_any_one_line g fuel i c j c' :
  DOTALL fl = false ->
  In (j, c') (star_loop (m Any) g fuel i c) ->
  i <= j /\ c' = c /\ no_newline i j.
Proof.
  intros Hfl Hin.
  eapply (star_loop_ind
            (fun i c j c' => i <= j /\ c' = c /\ no_newline i j));
    [..|exact Hin].
  - intros i0 c0. repeat split; [lia|]. intros k ?. lia.
  - intros i0 c0 j0 c0' k0 c0'' (? & -> & H1) (? & -> & H2).
    repeat split; [lia|]. intros k ?.
    destruct (Nat.lt_ge_cases k j0); [apply H1|apply H2]; lia.
  - intros i0 c0 j0 c0' _ (-> & -> & b & Hb & Hany)%step_char_In.
    repeat split; [lia|]. intros k ?. assert (k = i0) as -> by lia.
    exists b. split; [done|]. unfold any_matches in Hany.
    rewrite Hfl in Hany. simpl in Hany.
    intros ->. by rewrite N.eqb_refl in Hany.
Qed.

Lemma at_eol_text_end i :
  MULTILINE fl = false -> at_eol fl s i = true -> at_text_end i.
Proof.
  unfold at_eol, at_text_end. intros ->. rewrite andb_false_l, orb_false_r.
  intros [Hi|[Hi Hnl]%andb_prop]%orb_prop.
  - left. by apply Nat.eqb_eq in Hi.
  - right. apply Nat.eqb_eq in Hi. by apply bool_decide_eq_true in Hnl.
Qed.

(** A match of [a.*?$]: it starts with [a], stays on one line and ends at
    the end of the text. *)
Lemma m_to_eol a i c j c' :
  DOTALL fl = false -> MULTILINE fl = false -> a <> NL ->
  In (j, c') (m (Cat (Chr a) (Cat (Star false Any) (Cat Eol Eps))) i c) ->
  s !! i = Some a /\ i < j /\ no_newline i j /\ at_text_end j.
Proof.
  intros Hd Hm Ha.
  intros (i1 & c1 & (-> & -> & Hs)%m_chr &
          (i2 & c2 & Hstar & (i3 & c3 & (-> & -> & Heol)%m_eol &
                              (-> & ->)%m_eps)%m_cat)%m_cat)%m_cat.
  simpl in Hstar. apply star_any_one_line in Hstar as (? & -> & Hnl); [|done].
  repeat split; [done|lia| |by apply at_eol_text_end].
  intros k ?. destruct (decide (k = i)) as [->|]; [eauto|]. apply Hnl. lia.
Qed.
(** *** The first match *)

Lemma m_chr_miss a r i c :
  s !! i <> Some a -> m (Cat (Chr a) r) i c = [].
Proof.
  intros Hs. simpl. unfold step_char.
  destruct (s !! i) as [b|] eqn:E; [|done].
  destruct (N.eqb_spec b a) as [->|]; [done|done].
Qed.

Lemma m_chr_hit a r i c :
  s !! i = Some a -> m (Cat (Chr a) r) i c = m r (S i) c.
Proof.
  intros Hs. simpl. unfold step_char. rewrite Hs, N.eqb_refl. simpl.
  apply app_nil_r.
Qed.

(** Under DOTALL a lazy run of [.] stops at every position up to the end of
    the text, the nearest first. *)
Lemma lazy_any_all fuel : forall i c,
  DOTALL fl = true -> fuel = length s - i -> i <= length s ->
  star_loop (m Any) false fuel i c
  = map (fun j => (j, c)) (seq i (S fuel)).
Proof.
  induction fuel as [|fuel IH]; intros i c Hd Hf Hi; [done|].
  destruct (lookup_lt_is_Some_2 s i) as [b Hb]; [lia|].
  change (seq i (S (S fuel))) with (i :: seq (S i) (S fuel)).
  assert (Hm : m Any i c = [(S i, c)]).
  { change (m Any i c) with (step_char s (any_matches fl) i c).
    unfold step_char, any_matches. by rewrite Hb, Hd. }
  cbn [star_loop map]. f_equal. rewrite Hm.
  cbn [flat_map fst snd].
  rewrite (proj2 (Nat.ltb_lt i (S i))) by lia.
  rewrite app_nil_r. apply IH; [done|lia..].
Qed.

Lemma flat_map_skip {A B} (f : A -> list B) (l1 : list A) x l2 :
  (forall y, In y l1 -> f y = []) ->
  flat_map f (l1 ++ x :: l2) = f x ++ flat_map f l2.
Proof.
  intros Hno. rewrite flat_map_app. simpl.
  replace (flat_map f l1) with (@nil B); [done|].
  symmetry. induction l1 as [|y l1 IH]; [done|]. simpl.
  rewrite (Hno y) by (by left). apply IH. intros z Hz. apply Hno. by right.
Qed.

(** A lazy run of [.] followed by [r], under DOTALL: the first match is the
    match of [r] at the nearest position where [r] matches at all. *)
Lemma lazy_any_then_first r i k c :
  DOTALL fl = true -> i + k <= length s ->
  (forall j, i <= j < i + k -> m r j c = []) ->
  exists rest,
    m (Cat (Star false Any) r) i c = m r (i + k) c ++ rest.
Proof.
  intros Hd Hk Hno. cbn [m].
  rewrite lazy_any_all by (done || lia).
  replace (S (length s - i)) with (k + S (length s - i - k)) by lia.
  rewrite seq_app, map_app. cbn [seq map].
  rewrite flat_map_skip.
  - simpl. eauto.
  - intros [j c'] [j' [[= <- <-] Hj%in_seq]]%in_map_iff. simpl.
    apply Hno. lia.
Qed.

Lemma match_at_first r pos p j c rest :
  m r p None = (j, c) :: rest -> p < j ->
  match_at fl s r false pos p
  = Some {| m_start := p; m_end := j; m_group := c |}.
Proof. unfold match_at. intros -> Hj. done. Qed.

Lemma match_at_none r ma pos p :
  m r p None = [] -> match_at fl s r ma pos p = None.
Proof. unfold match_at. by intros ->. Qed.

(** The search goes by the positions where the pattern does not match. *)
Lemma search_from_skip r ma pos k : forall n p,
  k <= n ->
  (forall p', p <= p' < p + k -> m r p' None = []) ->
  search_from fl s r ma pos n p = search_from fl s r ma pos (n - k) (p + k).
Proof.
  induction k as [|k IH]; intros n p Hk Hno.
  - by rewrite Nat.sub_0_r, Nat.add_0_r.
  - destruct n as [|n]; [lia|]. cbn [search_from].
    rewrite match_at_none by (apply Hno; lia).
    rewrite IH; [|lia|intros; apply Hno; lia].
    f_equal; lia.
Qed.

(** The first match [finditer] yields, when the pattern matches nowhere
    before position [p]. *)
Lemma finditer_first r p j c rest :
  p <= length s ->
  (forall p', p' < p -> m r p' None = []) ->
  m r p None = (j, c) :: rest -> p < j ->
  exists mts,
    finditer fl s r = {| m_start := p; m_end := j; m_group := c |} :: mts.
Proof.
  intros Hp Hno Hm Hj. unfold finditer.
  replace (2 * length s + 2) with (S (2 * length s + 1)) by lia.
  cbn [scan]. unfold search. simpl.
  rewrite (search_from_skip r false 0 p) by (lia || (intros; apply Hno; lia)).
  assert (Hs : search_from fl s r false 0 (length s - 0 - p) (0 + p)
               = Some {| m_start := p; m_end := j; m_group := c |}).
  { simpl. destruct (length s - 0 - p); simpl;
      by rewrite (match_at_first r 0 p j c rest). }
  rewrite Hs. eauto.
Qed.
End Facts.
End ReFacts.

(** ** The highlight engine *)

Module HighlightFacts.
Import Re Highlight ReFacts.

Lemma rule_table_functional key p1 p2 :
  (key, p1) ∈ rule_table -> (key, p2) ∈ rule_table -> p1 = p2.
Proof.
  assert (Hnd : NoDup (rule_table.*1)).
  { apply (bool_decide_unpack _). vm_compute. reflexivity. }
  intros H1 H2.
  apply (elem_of_list_to_map_1 (M := gmap string)) in H1, H2; try done.
  congruence.
Qed.

Lemma cache_ok_empty : cache_ok ∅.
Proof. intros key p pattern Hl. by rewrite lookup_empty in Hl. Qed.

Lemma get_compiled_regex_ok pattern key cache :
  (key, pattern) ∈ rule_table -> cache_ok cache ->
  exists cache',
    get_compiled_regex pattern key cache = (re_compile pattern, cache') /\
    cache_ok cache'.
Proof.
  intros Hin Hok. unfold get_compiled_regex.
  destruct (cache !! key) as [p|] eqn:E.
  - exists cache. split; [|done]. f_equal. eauto.
  - eexists. split; [done|].
    intros key' p' pattern' Hl Hin'.
    destruct (decide (key = key')) as [<-|Hne].
    + rewrite lookup_insert_eq in Hl. injection Hl as <-.
      f_equal. eauto using rule_table_functional.
    + rewrite lookup_insert_ne in Hl by done. eauto.
Qed.

Ltac in_table :=
  unfold rule_table;
  repeat first [apply list_elem_of_here | apply list_elem_of_further].

(** One cached lookup of a highlight function. *)
Ltac cached Hok :=
  match goal with
  | |- context [get_compiled_regex ?pattern ?key ?cache] =>
      let c := fresh "cache" in
      let E := fresh "E" in
      let Hok' := fresh "Hok" in
      destruct (get_compiled_regex_ok pattern key cache) as (c & E & Hok');
      [in_table | exact Hok | rewrite E; clear E; cbv beta iota; cached Hok']
  | |- _ => eexists; split; [reflexivity | exact Hok]
  end.

Section Facts.
Context `{unicode_data}.

Lemma highlight_python_spans content cache :
  cache_ok cache ->
  exists cache',
    highlight_python content cache = (python_spans content, cache') /\
    cache_ok cache'.
Proof. intros Hok. unfold highlight_python, python_spans. cached Hok. Qed.

Lemma highlight_javascript_spans content cache :
  cache_ok cache ->
  exists cache',
    highlight_javascript content cache = (javascript_spans content, cache') /\
    cache_ok cache'.
Proof. intros Hok. unfold highlight_javascript, javascript_spans. cached Hok. Qed.

Lemma highlight_c_like_spans content cache :
  cache_ok cache ->
  exists cache',
    highlight_c_like content cache = (c_like_spans content, cache') /\
    cache_ok cache'.
Proof. intros Hok. unfold highlight_c_like, c_like_spans. cached Hok. Qed.

Lemma highlight_html_spans content cache :
  cache_ok cache ->
  exists cache',
    highlight_html content cache = (html_spans content, cache') /\
    cache_ok cache'.
Proof. intros Hok. unfold highlight_html, html_spans. cached Hok. Qed.

(** With a cache the editor can hold, a call emits the spans of freshly
    compiled patterns and leaves such a cache. *)
Lemma highlight_profile_spans ext content cache :
  cache_ok cache ->
  exists cache',
    highlight ext content cache = (profile_spans ext content, cache') /\
    cache_ok cache'.
Proof.
  intros Hok. unfold highlight, profile_spans.
  repeat case_bool_decide;
    eauto using highlight_python_spans, highlight_javascript_spans,
      highlight_c_like_spans, highlight_html_spans.
Qed.

(** Every cache the editor goes through is one it can hold. *)
Lemma reachable_cache_ok cache : reachable_cache cache -> cache_ok cache.
Proof.
  induction 1 as [|ext content cache _ IH|]; try apply cache_ok_empty.
  by destruct (highlight_profile_spans ext content cache IH) as (c' & -> & ?).
Qed.

Lemma tag_matches_in_text t p content sp :
  1 <= min_len (pat p) -> sp ∈ tag_matches t p content ->
  span_in_text content sp.
Proof.
  intros Hp [mt [-> Hmt]]%list_elem_of_fmap. apply list_elem_of_In in Hmt.
  by apply finditer_span in Hmt.
Qed.

Lemma tag_groups_in_text t p content sp :
  sets_group (pat p) = true -> groups_nonempty (pat p) = true ->
  sp ∈ tag_groups t p content -> span_in_text content sp.
Proof.
  intros H1 H2 [mt [-> Hmt]]%list_elem_of_fmap. apply list_elem_of_In in Hmt.
  by apply finditer_group_span in Hmt.
Qed.

Lemma tag_matches_kind t p content sp :
  sp ∈ tag_matches t p content -> kind sp = t.
Proof. by intros [mt [-> _]]%list_elem_of_fmap. Qed.

Lemma tag_groups_kind t p content sp :
  sp ∈ tag_groups t p content -> kind sp = t.
Proof. by intros [mt [-> _]]%list_elem_of_fmap. Qed.

Ltac rule_in_text :=
  first
    [ eapply tag_matches_in_text; [|eassumption];
      apply Nat.leb_le; vm_compute; reflexivity
    | eapply tag_groups_in_text; [| |eassumption]; vm_compute; reflexivity ].

Lemma profile_spans_in_text ext content sp :
  sp ∈ profile_spans ext content -> span_in_text content sp.
Proof.
  unfold profile_spans, python_spans, javascript_spans, c_like_spans,
    html_spans, tag_finditer.
  repeat case_bool_decide; rewrite ?elem_of_app; intros Hin;
    repeat (destruct Hin as [Hin|Hin]; [rule_in_text|]);
    first [rule_in_text | by apply elem_of_nil in Hin].
Qed.
End Facts.
End HighlightFacts.

Import Re Highlight Samples ReFacts HighlightFacts.

(** C1: every span the highlight engine emits, for every text and every
    extension (so for each of the four profiles), starts at or after offset
    0, ends after its start and ends at or before the length of the text.
    The cache is any cache the editor can hold. *)
Theorem C1_spans_within_text `{unicode_data} (ext content : text)
    (cache : gmap string compiled) (sp : span) :
  cache_ok cache ->
  sp ∈ (highlight ext content cache).1 ->
  (0 <= startOffset sp < endOffset sp)%Z /\
  (endOffset sp <= Z.of_nat (length content))%Z.
Proof.
  intros Hok Hin.
  destruct (highlight_profile_spans ext content cache Hok) as (c' & E & _).
  rewrite E in Hin. by apply profile_spans_in_text in Hin.
Qed.

Lemma C1_spans_within_text_witness :
  (0 <= 0 < 12)%Z /\ (12 <= Z.of_nat (length (cps "# def foo():")))%Z.
Proof.
  apply (C1_spans_within_text (H := ascii_only) (cps "py")
           (cps "# def foo():") ∅
           {| kind := comment; startOffset := 0; endOffset := 12 |}).
  - apply cache_ok_empty.
  - apply list_elem_of_In. vm_compute. tauto.
Defined.

Lemma split_not_nil sep t : split sep t <> [].
Proof.
  destruct t as [|c t]; simpl; [done|].
  destruct (c =? sep)%N; [done|]. by destruct (split sep t).
Qed.

Lemma extension_ok `{unicode_data} f : exists ext, extension f = Ok ext.
Proof.
  unfold extension. destruct (contains f [DOT]); [|eauto].
  destruct (last (split DOT f)) as [e|] eqn:E; [eauto|].
  apply last_None in E. by apply split_not_nil in E.
Qed.

(** [highlight_syntax] starts from no syntax tag at all. *)
Lemma tags_cleared (ts : list span) :
  foldl (fun ts t => tag_remove t ts) ts
    [keyword; string_; comment; function_; number; class_; builtin; operator]
  = [].
Proof.
  apply elem_of_nil_inv. intros sp. simpl. unfold tag_remove.
  rewrite !list_elem_of_filter.
  intros (? & ? & ? & ? & ? & ? & ? & ? & _). by destruct (kind sp).
Qed.

Lemma highlight_unrecognized `{unicode_data} ext content cache :
  ext ∉ recognized_extensions -> highlight ext content cache = ([], cache).
Proof.
  intros Hext. unfold highlight.
  repeat case_bool_decide; try done; exfalso; apply Hext;
    unfold recognized_extensions; apply list_elem_of_In;
    repeat match goal with
           | Hin : _ ∈ _ |- _ => apply list_elem_of_In in Hin
           end; subst; simpl in *; tauto.
Qed.

(** C5: when the extension of the current file has no profile,
    [highlight_syntax] raises nothing, emits no span, and leaves the text
    without any syntax tag, whatever tags it had before. *)
Theorem C5_unknown_extension `{unicode_data} (e : editor) (f : text) :
  current_file e = Some f -> f <> [] ->
  exists ext,
    extension f = Ok ext /\
    (ext ∉ recognized_extensions ->
     (highlight ext (content e) (regex_cache e)).1 = [] /\
     highlight_syntax e =
       Ok {| current_file := current_file e; content := content e;
             tags := []; regex_cache := regex_cache e |}).
Proof.
  intros Hf Hne. destruct (extension_ok f) as [ext Hext].
  exists ext. split; [done|]. intros Hun.
  rewrite highlight_unrecognized by done. split; [done|].
  unfold highlight_syntax. rewrite Hf.
  destruct f as [|c f]; [done|]. simpl truthy. cbv iota.
  rewrite Hext, highlight_unrecognized, tags_cleared by done. done.
Qed.

Lemma C5_unknown_extension_witness :
  exists ext,
    extension (H := ascii_only) (cps "notes.txt") = Ok ext /\
    (ext ∉ recognized_extensions ->
     (highlight (H := ascii_only) ext (content notes_editor)
        (regex_cache notes_editor)).1 = [] /\
     highlight_syntax (H := ascii_only) notes_editor =
       Ok {| current_file := current_file notes_editor;
             content := content notes_editor;
             tags := []; regex_cache := regex_cache notes_editor |}).
Proof.
  apply (C5_unknown_extension (H := ascii_only) notes_editor
           (cps "notes.txt")).
  - reflexivity.
  - vm_compute. discriminate.
Defined.

(** C9: highlighting the same text twice gives the same spans, and the
    spans do not depend on the cache: a call on the cache the first call
    left, and a call on any cache the editor can hold, emit the spans of a
    call on the empty cache.  At the level of the editor, a second
    [highlight_syntax] leaves the tags of the first. *)
Theorem C9_highlight_deterministic `{unicode_data} (ext doc : text)
    (cache : gmap string compiled) :
  cache_ok cache ->
  (forall spans1 cache1 spans2 cache2,
      highlight ext doc cache = (spans1, cache1) ->
      highlight ext doc cache1 = (spans2, cache2) ->
      spans2 = spans1) /\
  (highlight ext doc cache).1 = (highlight ext doc ∅).1 /\
  cache_ok (highlight ext doc cache).2 /\
  (forall e e1 e2,
      regex_cache e = cache ->
      highlight_syntax e = Ok e1 -> highlight_syntax e1 = Ok e2 ->
      tags e2 = tags e1).
Proof.
  intros Hok.
  destruct (highlight_profile_spans ext doc cache Hok) as (c1 & E1 & Hok1).
  destruct (highlight_profile_spans ext doc ∅ cache_ok_empty)
    as (c0 & E0 & _).
  repeat split.
  - intros spans1 cache1 spans2 cache2 Ha Hb.
    rewrite E1 in Ha. injection Ha as <- <-.
    destruct (highlight_profile_spans ext doc c1 Hok1) as (c2 & E2 & _).
    rewrite E2 in Hb. by injection Hb as <- <-.
  - by rewrite E1, E0.
  - by rewrite E1.
  - intros e e1 e2 Hc. unfold highlight_syntax at 1.
    destruct (truthy (current_file e)) as [f|] eqn:Ef.
    + destruct (extension f) as [x|] eqn:Ex; [|done].
      destruct (highlight_profile_spans x (content e) (regex_cache e))
        as (c' & E' & Hok'); [by rewrite Hc|].
      rewrite E'. cbv beta iota zeta. rewrite (tags_cleared (tags e)).
      intros [= <-].
      unfold highlight_syntax. cbn [current_file content tags regex_cache].
      rewrite Ef, Ex.
      destruct (highlight_profile_spans x (content e) c' Hok')
        as (c'' & E'' & _).
      rewrite E''. cbv beta iota zeta.
      match goal with
      | |- context [foldl _ ?ts _] => rewrite (tags_cleared ts)
      end.
      by intros [= <-].
    + intros [= <-]. unfold highlight_syntax. rewrite Ef. by intros [= <-].
Qed.

Lemma C9_highlight_deterministic_witness :
  (highlight (H := ascii_only) (cps "py") (cps "x = 1 # one")
     (highlight (H := ascii_only) (cps "py") (cps "x = 1 # one") ∅).2).1
  = (highlight (H := ascii_only) (cps "py") (cps "x = 1 # one") ∅).1.
Proof.
  destruct (C9_highlight_deterministic (H := ascii_only) (cps "py")
              (cps "x = 1 # one") ∅ cache_ok_empty) as (Hsame & _).
  apply (Hsame _ (highlight (H := ascii_only) (cps "py")
                    (cps "x = 1 # one") ∅).2 _
               (highlight (H := ascii_only) (cps "py") (cps "x = 1 # one")
                  (highlight (H := ascii_only) (cps "py")
                     (cps "x = 1 # one") ∅).2).2).
  - apply surjective_pairing.
  - apply surjective_pairing.
Defined.

(** C3, as the code has it: for the line [# def foo():] the python profile
    emits a comment span over the whole line and, besides it, a keyword
    span over [def] and a function span over [foo].  In the priority order
    of the tags the comment tag is above the keyword tag, so [def] shows as
    comment, and below the function tag, so [foo] shows as function. *)
Theorem C3_comment_line `{unicode_data} (cache : gmap string compiled) :
  cache_ok cache ->
  (highlight_python comment_line cache).1 = comment_line_spans /\
  forall i : Z,
    (0 <= i < 12)%Z ->
    displayed (highlight_python comment_line cache).1 i
    = Some (if bool_decide (6 <= i < 9)%Z then function_ else comment).
Proof.
  intros Hok.
  destruct (highlight_python_spans comment_line cache Hok) as (c' & E & _).
  rewrite E. simpl fst.
  assert (Hs : python_spans comment_line = comment_line_spans)
    by (vm_compute; reflexivity).
  rewrite Hs. split; [done|]. intros i Hi.
  assert (i = 0 \/ i = 1 \/ i = 2 \/ i = 3 \/ i = 4 \/ i = 5 \/ i = 6 \/
          i = 7 \/ i = 8 \/ i = 9 \/ i = 10 \/ i = 11)%Z as Hcases by lia.
  repeat (destruct Hcases as [->|Hcases]; [vm_compute; reflexivity|]).
  subst i. vm_compute. reflexivity.
Qed.

Lemma C3_comment_line_witness :
  (highlight_python (H := ascii_only) comment_line ∅).1 = comment_line_spans /\
  forall i : Z,
    (0 <= i < 12)%Z ->
    displayed (highlight_python (H := ascii_only) comment_line ∅).1 i
    = Some (if bool_decide (6 <= i < 9)%Z then function_ else comment).
Proof. apply (C3_comment_line (H := ascii_only) ∅). apply cache_ok_empty. Defined.

(** The keyword and function spans of that line are not masked: they are
    emitted inside the comment span, and [foo] does not show as comment. *)
Lemma C3_not_masked :
  ~ masked_by_comments (highlight_python (H := ascii_only) comment_line ∅).1 /\
  displayed (highlight_python (H := ascii_only) comment_line ∅).1 6
  <> Some comment.
Proof.
  assert (Hs : (highlight_python (H := ascii_only) comment_line ∅).1
               = comment_line_spans) by (vm_compute; reflexivity).
  rewrite Hs. split.
  - intros Hm.
    apply (Hm {| kind := comment; startOffset := 0; endOffset := 12 |}
              {| kind := keyword; startOffset := 2; endOffset := 5 |}).
    + apply list_elem_of_In. simpl. tauto.
    + reflexivity.
    + apply list_elem_of_In. simpl. tauto.
    + by left.
    + split; simpl; lia.
  - vm_compute. discriminate.
Qed.

(** ** Line comments *)

Lemma comment_of_python `{unicode_data} content sp :
  sp ∈ python_spans content -> kind sp = comment ->
  sp ∈ tag_matches comment (re_compile py_comments_re) content.
Proof.
  unfold python_spans, tag_finditer. rewrite !elem_of_app.
  intros Hin Hk.
  repeat (destruct Hin as [Hin|Hin];
          [first [done | apply tag_matches_kind in Hin
                       | apply tag_groups_kind in Hin]; congruence|]).
  apply tag_groups_kind in Hin. congruence.
Qed.

Lemma comment_of_javascript `{unicode_data} content sp :
  sp ∈ javascript_spans content -> kind sp = comment ->
  sp ∈ tag_matches comment (re_compile slash_comments_re) content.
Proof.
  unfold javascript_spans. rewrite !elem_of_app.
  intros Hin Hk.
  repeat (destruct Hin as [Hin|Hin];
          [first [done | apply tag_matches_kind in Hin]; congruence|]).
  apply tag_matches_kind in Hin. congruence.
Qed.

Lemma comment_of_c_like `{unicode_data} content sp :
  sp ∈ c_like_spans content -> kind sp = comment ->
  sp ∈ tag_matches comment (re_compile slash_comments_re) content.
Proof.
  unfold c_like_spans. rewrite !elem_of_app.
  intros Hin Hk.
  repeat (destruct Hin as [Hin|Hin];
          [first [done | apply tag_matches_kind in Hin]; congruence|]).
  apply tag_matches_kind in Hin. congruence.
Qed.

(** What the text looks like around a span that starts at [i], stays on one
    line and ends at the end of the text. *)
Lemma one_line_to_text_end (content : text) (i j : nat) :
  i < j -> no_newline content i j -> at_text_end content j ->
  (Z.of_nat j = Z.of_nat (length content) \/
   (Z.of_nat j = Z.of_nat (length content) - 1 /\
    last content = Some NL))%Z /\
  forall q, content !! q = Some NL -> S q < length content ->
            (Z.of_nat q < Z.of_nat i)%Z.
Proof.
  intros Hij Hnl Hend. split.
  - destruct Hend as [->|[Hj Hl]]; [by left|right].
    split; [lia|]. rewrite last_lookup.
    replace (Nat.pred (length content)) with j by lia. done.
  - intros q Hq Hlt.
    destruct (Nat.lt_ge_cases q i) as [?|Hge]; [lia|].
    assert (q < j) by (destruct Hend as [->|[? _]]; lia).
    destruct (Hnl q) as (b & Hb & Hne); [lia|]. congruence.
Qed.

Lemma hash_comment_span `{unicode_data} content sp :
  sp ∈ tag_matches comment (re_compile py_comments_re) content ->
  exists i j,
    startOffset sp = Z.of_nat i /\ endOffset sp = Z.of_nat j /\ i < j /\
    no_newline content i j /\ at_text_end content j.
Proof.
  intros [mt [-> Hmt]]%list_elem_of_fmap.
  apply list_elem_of_In, finditer_is_match in Hmt as [_ Hin].
  apply m_to_eol in Hin as (_ & ? & ? & ?); [|done..].
  exists (m_start mt), (m_end mt). done.
Qed.

Lemma slash_comment_span `{unicode_data} content sp :
  sp ∈ tag_matches comment (re_compile slash_comments_re) content ->
  content !! S (Z.to_nat (startOffset sp)) = Some 47%N ->
  exists i j,
    startOffset sp = Z.of_nat i /\ endOffset sp = Z.of_nat j /\ i < j /\
    no_newline content i j /\ at_text_end content j.
Proof.
  intros [mt [-> Hmt]]%list_elem_of_fmap.
  apply list_elem_of_In, finditer_is_match in Hmt as [_ Hin].
  simpl startOffset. unfold start0. rewrite Nat2Z.id. intros Hsl.
  exists (m_start mt), (m_end mt). split; [done|]. split; [done|].
  simpl pat in Hin. simpl cflags in Hin. unfold slash_comments_re in Hin.
  change (In (m_end mt, m_group mt)
            (m no_flags content
               (Cat (Chr 47) (Cat (Chr 47) (Cat (Star false Any) (Cat Eol Eps))))
               (m_start mt) None ++
             m no_flags content
               (seq_of [Chr 47; Chr 42; Star false Any; Chr 42; Chr 47])
               (m_start mt) None)) in Hin.
  apply in_app_or in Hin as [Hin|Hin].
  - apply m_cat in Hin as (i1 & c1 & (-> & -> & Hs)%m_chr & Hin).
    apply m_to_eol in Hin as (_ & ? & Hnl & ?); [|done..].
    split; [lia|]. split; [|done].
    intros k ?. destruct (decide (k = m_start mt)) as [->|]; [|apply Hnl; lia].
    eexists. split; [exact Hs|done].
  - apply m_cat in Hin as (i1 & c1 & (-> & -> & ?)%m_chr & Hin).
    apply m_cat in Hin as (i2 & c2 & (-> & -> & ?)%m_chr & _).
    congruence.
Qed.

(** C10: a comment span of the python profile, and a comment span of the
    javascript and the C-like profile that starts with two slashes, ends at
    the end of the text, or one character before it when the text ends
    with a newline.  So every newline that is not the last character of the
    text lies before the start of the span: a line comment on a line that
    another line follows gets no span. *)
Theorem C10_line_comments_reach_the_end `{unicode_data} (ext content : text)
    (cache : gmap string compiled) (sp : span) :
  cache_ok cache ->
  ext ∈ map cps ["py"; "js"; "ts"; "jsx"; "tsx"; "java"; "c"; "cpp"; "cs"; "h"] ->
  sp ∈ (highlight ext content cache).1 ->
  kind sp = comment ->
  (ext <> cps "py" ->
   content !! S (Z.to_nat (startOffset sp)) = Some 47%N) ->
  (endOffset sp = Z.of_nat (length content) \/
   (endOffset sp = Z.of_nat (length content) - 1 /\
    last content = Some NL))%Z /\
  forall q : nat,
    content !! q = Some NL -> S q < length content ->
    (Z.of_nat q < startOffset sp)%Z.
Proof.
  intros Hok Hext Hin Hk Hsl.
  destruct (highlight_profile_spans ext content cache Hok) as (c' & E & _).
  rewrite E in Hin. simpl in Hin. clear E.
  assert (exists i j,
             startOffset sp = Z.of_nat i /\ endOffset sp = Z.of_nat j /\
             i < j /\ no_newline content i j /\ at_text_end content j)
    as (i & j & -> & -> & Hij & Hnl & Hend).
  { unfold profile_spans in Hin.
    repeat case_bool_decide.
    - by apply hash_comment_span, comment_of_python.
    - apply slash_comment_span; [by apply comment_of_javascript|auto].
    - apply slash_comment_span; [by apply comment_of_c_like|auto].
    - subst ext. apply list_elem_of_In in Hext. simpl in Hext.
      exfalso. intuition discriminate.
    - by apply elem_of_nil in Hin. }
  by apply one_line_to_text_end.
Qed.

Lemma C10_line_comments_reach_the_end_witness :
  (11 = Z.of_nat (length two_line_text) \/
   (11 = Z.of_nat (length two_line_text) - 1 /\
    last two_line_text = Some NL))%Z /\
  forall q : nat,
    two_line_text !! q = Some NL -> S q < length two_line_text ->
    (Z.of_nat q < 8)%Z.
Proof.
  apply (C10_line_comments_reach_the_end (H := ascii_only) (cps "py")
           two_line_text ∅
           {| kind := comment; startOffset := 8; endOffset := 11 |}).
  - apply cache_ok_empty.
  - apply list_elem_of_In. simpl. tauto.
  - apply list_elem_of_In. vm_compute. tauto.
  - reflexivity.
  - intros Hne. exfalso. by apply Hne.
Defined.

(** ** The bracket matcher *)

Module BracketFacts.
Import Bracket.
Local Open Scope Z_scope.

Section Scan.
Variable content : text.
Variables anchor counterpart : text.
Variables start d : Z.

(** [K] positions of the scan lie in the text. *)
Variable K : nat.
Hypothesis in_text_iff :
  forall t : nat, in_text content (start + Z.of_nat t * d) <-> (t < K)%nat.
Hypothesis d_not_0 : d <> 0.

Local Abbreviation pos k := (start + Z.of_nat k * d).
Local Abbreviation bal := (balance content anchor counterpart start d).
Local Abbreviation loop :=
  (scan_loop content start anchor counterpart d).

Lemma in_text_test i :
  (0 <=? i) && (i <? Z.of_nat (length content)) = true <-> in_text content i.
Proof. unfold in_text. rewrite andb_true_iff, Z.leb_le, Z.ltb_lt. done. Qed.

Lemma char_at_in_text i :
  in_text content i -> exists ch, char_at content i = Some ch.
Proof.
  intros Hi. unfold char_at.
  rewrite (proj2 (in_text_test i) Hi).
  apply lookup_lt_is_Some. unfold in_text in Hi. lia.
Qed.

Lemma balance_step k :
  bal (S k)
  = bal k + match char_at content (pos (S k)) with
            | Some ch => weight anchor counterpart ch
            | None => 0
            end.
Proof. reflexivity. Qed.

(** The loop, entered at step [k] with the count of the steps before it,
    ends with the first return of the count to 0, or at the end of the
    text when there is none. *)
Lemma scan_loop_spec fuel : forall k count,
  (K - k < fuel)%nat ->
  count = match k with O => 0 | S k' => bal k' end ->
  (forall t, (0 < t < k)%nat -> bal t <> 0) ->
  (exists k', loop fuel count (pos k) = Some (Found (pos k')) /\
              first_return content anchor counterpart start d k') \/
  (loop fuel count (pos k) = Some NotFound /\
   forall k', ~ first_return content anchor counterpart start d k').
Proof.
  induction fuel as [|fuel IH]; intros k count Hfuel Hcount Hbefore; [lia|].
  simpl.
  destruct ((0 <=? pos k) && (pos k <? Z.of_nat (length content))) eqn:Hin.
  - apply in_text_test in Hin. pose proof Hin as HkK%in_text_iff.
    destruct (char_at_in_text _ Hin) as [ch Hch]. rewrite Hch.
    set (count' := if bool_decide ([ch] = anchor) then count + 1
                   else if bool_decide ([ch] = counterpart) then count - 1
                   else count).
    assert (Hbal : count' = bal k).
    { subst count' count. destruct k as [|k'].
      - simpl. rewrite Hch. unfold weight. repeat case_bool_decide; lia.
      - rewrite balance_step, Hch. unfold weight.
        repeat case_bool_decide; lia. }
    destruct ((count' =? 0) && negb (pos k =? start)) eqn:Htest.
    + left. exists k. split; [done|].
      apply andb_prop in Htest as [Hz%Z.eqb_eq Hne%negb_true_iff%Z.eqb_neq].
      split; [|split; [done|split; [congruence|done]]].
      destruct k; [|lia]. exfalso. apply Hne. lia.
    + replace (pos k + d) with (pos (S k)) by lia.
      apply IH; [lia|by subst|].
      intros t Ht. destruct (decide (t = k)) as [->|]; [|apply Hbefore; lia].
      rewrite <- Hbal. intros Hz.
      apply andb_false_iff in Htest as [Hc%Z.eqb_neq|Hs%negb_false_iff%Z.eqb_eq];
        [done|].
      assert (Z.of_nat k * d = 0) as [?| ?]%Z.mul_eq_0 by lia; lia.
  - right. split; [done|].
    assert (Hout : ~ in_text content (pos k)).
    { intros Hi%in_text_test. congruence. }
    rewrite in_text_iff in Hout.
    intros k' (Hk' & Hi & Hz & _). apply in_text_iff in Hi.
    apply (Hbefore k'); [lia|done].
Qed.

Lemma first_return_unique k1 k2 :
  first_return content anchor counterpart start d k1 ->
  first_return content anchor counterpart start d k2 -> k1 = k2.
Proof.
  intros (H1 & _ & Hz1 & Hm1) (H2 & _ & Hz2 & Hm2).
  destruct (Nat.lt_trichotomy k1 k2) as [?|[?|?]]; [|done|].
  - exfalso. apply (Hm2 k1); [lia|done].
  - exfalso. apply (Hm1 k2); [lia|done].
Qed.
End Scan.

(** The positions of a forward scan that lie in the text. *)
Lemma forward_in_text content start (t : nat) :
  in_text content start ->
  in_text content (start + Z.of_nat t * 1)
  <-> (t < length content - Z.to_nat start)%nat.
Proof. unfold in_text. lia. Qed.

(** The positions of a backward scan that lie in the text. *)
Lemma backward_in_text content start (t : nat) :
  in_text content start ->
  in_text content (start + Z.of_nat t * -1) <-> (t < S (Z.to_nat start))%nat.
Proof. unfold in_text. lia. Qed.

(** A scan from inside the text, in either direction: what it ends with. *)
Lemma find_matching_bracket_spec content start anchor counterpart d :
  in_text content start -> d = 1 \/ d = -1 ->
  (exists k, find_matching_bracket content start anchor counterpart d
             = Some (Found (start + Z.of_nat k * d)) /\
             first_return content anchor counterpart start d k) \/
  (find_matching_bracket content start anchor counterpart d = Some NotFound /\
   forall k, ~ first_return content anchor counterpart start d k).
Proof.
  intros Hs Hd. unfold find_matching_bracket.
  assert (Hfirst : forall t : nat, (0 < t < 0)%nat ->
            balance content anchor counterpart start d t <> 0) by lia.
  destruct Hd as [-> | ->].
  - pose proof (scan_loop_spec content anchor counterpart start 1
                  (length content - Z.to_nat start)
                  (fun t => forward_in_text content start t Hs)
                  ltac:(lia) (S (length content)) 0%nat 0
                  ltac:(lia) eq_refl Hfirst) as Hspec.
    by rewrite Z.add_0_r in Hspec.
  - pose proof (scan_loop_spec content anchor counterpart start (-1)
                  (S (Z.to_nat start))
                  (fun t => backward_in_text content start t Hs)
                  ltac:(lia) (S (length content)) 0%nat 0
                  ltac:(unfold in_text in Hs; lia) eq_refl Hfirst) as Hspec.
    by rewrite Z.add_0_r in Hspec.
Qed.

(** A scan from outside the text finds nothing. *)
Lemma find_matching_bracket_outside content start anchor counterpart d :
  ~ in_text content start ->
  find_matching_bracket content start anchor counterpart d = Some NotFound.
Proof.
  intros Hs. unfold find_matching_bracket. simpl.
  destruct ((0 <=? start) && (start <? Z.of_nat (length content))) eqn:E;
    [|done].
  apply andb_prop in E as [?%Z.leb_le ?%Z.ltb_lt]. unfold in_text in Hs. lia.
Qed.

(** Every scan ends, and without a character read outside the text. *)
Lemma find_matching_bracket_total content start anchor counterpart d :
  d = 1 \/ d = -1 ->
  exists r, find_matching_bracket content start anchor counterpart d = Some r
            /\ r <> IndexError.
Proof.
  intros Hd.
  destruct (decide (in_text content start)) as [Hs|Hs].
  - destruct (find_matching_bracket_spec content start anchor counterpart d
                Hs Hd) as [(k & -> & _)|[-> _]]; eauto.
  - rewrite find_matching_bracket_outside by done. eauto.
Qed.

(** The two dictionaries hold the registered pairs, and nothing else. *)
Lemma matching_pairs_lookup (o c : text) :
  matching_pairs !! o = Some c <-> (o, c) ∈ brackets.
Proof.
  unfold matching_pairs. fold brackets. split.
  - apply elem_of_list_to_map_2.
  - apply elem_of_list_to_map_1. apply (bool_decide_unpack _).
    vm_compute. reflexivity.
Qed.

Lemma closing_pairs_lookup (o c : text) :
  closing_pairs !! c = Some o <-> (o, c) ∈ brackets.
Proof.
  assert (Hcl : closing_pairs
                = list_to_map ((fun kv : text * text => (kv.2, kv.1))
                                 <$> brackets)).
  { apply (bool_decide_unpack _). vm_compute. reflexivity. }
  rewrite Hcl. split.
  - intros Hl%elem_of_list_to_map_2.
    apply list_elem_of_fmap in Hl as [[o' c'] [[= -> ->] Hin]]. done.
  - intros Hin. apply elem_of_list_to_map_1.
    + apply (bool_decide_unpack _). vm_compute. reflexivity.
    + apply list_elem_of_fmap. exists (o, c). done.
Qed.
End BracketFacts.

Import Bracket BracketFacts.

Lemma closer_is_no_opener (o c : text) :
  (o, c) ∈ brackets -> matching_pairs !! c = None.
Proof.
  intros Hin%list_elem_of_In. simpl in Hin.
  destruct Hin as [[= <- <-]|[[= <- <-]|[[= <- <-]|[[= <- <-]|[]]]]];
    vm_compute; reflexivity.
Qed.

(** An opener starts a forward scan for its closer, a closer a backward
    scan for its opener, any other character no scan. *)
Lemma anchor_scan_opener content i (o c : text) :
  (o, c) ∈ brackets ->
  anchor_scan content i o = Some (find_matching_bracket content i o c 1).
Proof.
  intros Hin. unfold anchor_scan.
  by rewrite (proj2 (matching_pairs_lookup o c) Hin).
Qed.

Lemma anchor_scan_closer content i (o c : text) :
  (o, c) ∈ brackets ->
  anchor_scan content i c = Some (find_matching_bracket content i c o (-1)).
Proof.
  intros Hin. unfold anchor_scan.
  rewrite (closer_is_no_opener o c Hin).
  by rewrite (proj2 (closing_pairs_lookup o c) Hin).
Qed.

Lemma anchor_scan_other content i (ch : text) :
  (forall o c, (o, c) ∈ brackets -> ch <> o /\ ch <> c) ->
  anchor_scan content i ch = None.
Proof.
  intros Hno. unfold anchor_scan.
  destruct (matching_pairs !! ch) as [c|] eqn:E1.
  { apply matching_pairs_lookup in E1. by destruct (Hno _ _ E1). }
  destruct (closing_pairs !! ch) as [o|] eqn:E2; [|done].
  apply closing_pairs_lookup in E2. by destruct (Hno _ _ E2).
Qed.

Lemma clamp_inside n (a : Z) :
  (0 <= a <= Z.of_nat n)%Z -> clamp n a = Z.to_nat a.
Proof. unfold clamp. lia. Qed.

Lemma tk_get_char content (a : Z) (c : N) :
  (0 <= a)%Z -> content !! Z.to_nat a = Some c ->
  tk_get content a (a + 1) = [c].
Proof.
  intros Ha Hc. unfold tk_get.
  pose proof (lookup_lt_Some _ _ _ Hc) as Hlt.
  rewrite !clamp_inside by (rewrite length_app; simpl; lia).
  replace (Z.to_nat (a + 1) - Z.to_nat a)%nat with 1%nat by lia.
  rewrite (drop_S _ c); [done|].
  by rewrite lookup_app_l.
Qed.

Lemma tk_get_length content (b : Z) :
  (0 <= b <= Z.of_nat (length content))%Z ->
  Z.of_nat (length (tk_get content 0 b)) = b.
Proof.
  intros Hb. unfold tk_get.
  rewrite !clamp_inside by (rewrite length_app; simpl; lia).
  rewrite length_take, length_drop, length_app. simpl. lia.
Qed.

(** The anchor before the cursor. *)
Lemma scan_before_char content (cursor : Z) (c : N) :
  (0 < cursor)%Z -> content !! Z.to_nat (cursor - 1) = Some c ->
  scan_before content cursor = anchor_scan content (cursor - 1) [c].
Proof.
  intros Hc Hl. unfold scan_before, before_index, char_before.
  pose proof (lookup_lt_Some _ _ _ Hl).
  rewrite tk_get_length by lia.
  pose proof (tk_get_char content (cursor - 1) c ltac:(lia) Hl) as E.
  replace (cursor - 1 + 1)%Z with cursor in E by lia. by rewrite E.
Qed.

(** The anchor after the cursor. *)
Lemma scan_after_char content (cursor : Z) (c : N) :
  (0 <= cursor)%Z -> content !! Z.to_nat cursor = Some c ->
  scan_after content cursor = anchor_scan content cursor [c].
Proof.
  intros Hc Hl. unfold scan_after, after_index, char_after.
  pose proof (lookup_lt_Some _ _ _ Hl).
  rewrite tk_get_length by lia.
  by rewrite (tk_get_char content cursor c).
Qed.

(** C2: the bracket matcher counts balance.  The character before the
    cursor and the character after it start a scan when they are registered
    brackets: forward from an opener, backward from a closer.  The scan
    reports the first position besides its start at which the count, one up
    for each occurrence of the anchor and one down for each occurrence of
    its counterpart, is back at 0, and reports nothing when the count is
    back at 0 nowhere in the text.  With the text of one opening
    parenthesis and the cursor after it nothing is reported; with a pair of
    parentheses and the cursor between them the anchor before the cursor
    reports the pair of offsets 0 and 1. *)
Theorem C2_balanced_counting :
  (forall (content : text) (cursor : Z) (ch : N) (o c : text),
      (o, c) ∈ brackets ->
      ((0 < cursor)%Z -> content !! Z.to_nat (cursor - 1) = Some ch ->
       ([ch] = o ->
        scan_before content cursor
        = Some (find_matching_bracket content (cursor - 1) o c 1)) /\
       ([ch] = c ->
        scan_before content cursor
        = Some (find_matching_bracket content (cursor - 1) c o (-1)))) /\
      ((0 <= cursor)%Z -> content !! Z.to_nat cursor = Some ch ->
       ([ch] = o ->
        scan_after content cursor
        = Some (find_matching_bracket content cursor o c 1)) /\
       ([ch] = c ->
        scan_after content cursor
        = Some (find_matching_bracket content cursor c o (-1))))) /\
  (forall (content : text) (start : Z) (anchor counterpart : text) (d : Z),
      in_text content start -> d = 1%Z \/ d = (-1)%Z ->
      (forall j,
          find_matching_bracket content start anchor counterpart d
          = Some (Found j) <->
          exists k, j = (start + Z.of_nat k * d)%Z /\
                    first_return content anchor counterpart start d k) /\
      (find_matching_bracket content start anchor counterpart d
       = Some NotFound <->
       forall k, ~ first_return content anchor counterpart start d k)) /\
  matchAt (cps "(") 1 = (None, None) /\
  (matchAt (cps "()") 1).1 = Some (0, 1)%Z.
Proof.
  split; [|split; [|split]].
  - intros content cursor ch o c Hin. split.
    + intros Hc Hl. rewrite (scan_before_char content cursor ch) by done.
      split; intros ->;
        [by apply anchor_scan_opener|by apply anchor_scan_closer].
    + intros Hc Hl. rewrite (scan_after_char content cursor ch) by done.
      split; intros ->;
        [by apply anchor_scan_opener|by apply anchor_scan_closer].
  - intros content start anchor counterpart d Hs Hd.
    destruct (find_matching_bracket_spec content start anchor counterpart d
                Hs Hd) as [(k & E & Hk)|[E Hno]]; rewrite E.
    + split.
      * intros j. split.
        -- intros [= <-]. eauto.
        -- intros (k' & -> & Hk').
           by rewrite (first_return_unique _ _ _ _ _ _ _ Hk Hk').
      * split; [done|]. intros Hno. by apply Hno in Hk.
    + split.
      * intros j. split; [done|]. intros (k & _ & Hk). by apply Hno in Hk.
      * done.
  - vm_compute. reflexivity.
  - vm_compute. reflexivity.
Qed.

Lemma C2_balanced_counting_witness :
  find_matching_bracket (cps "(a[b]c)") 0 (cps "(") (cps ")") 1
  = Some (Found 6) <->
  exists k, 6%Z = (0 + Z.of_nat k * 1)%Z /\
            first_return (cps "(a[b]c)") (cps "(") (cps ")") 0 1 k.
Proof.
  destruct C2_balanced_counting as (_ & Hscan & _).
  apply (Hscan (cps "(a[b]c)") 0%Z (cps "(") (cps ")") 1%Z).
  - vm_compute. split; [discriminate|reflexivity].
  - by left.
Defined.

(** C6: for every text and every cursor offset, from the start of the text
    to its end and for the empty text too, each of the two scans of the
    bracket matcher either is not started or ends, with a position found or
    with nothing found, and reads no character outside the text. *)
Theorem C6_bracket_matcher_total (content : text) (cursor : Z) :
  (scan_before content cursor = None \/
   exists r, scan_before content cursor = Some (Some r) /\ r <> IndexError) /\
  (scan_after content cursor = None \/
   exists r, scan_after content cursor = Some (Some r) /\ r <> IndexError).
Proof.
  assert (Hany : forall i ch,
             anchor_scan content i ch = None \/
             exists r, anchor_scan content i ch = Some (Some r) /\
                       r <> IndexError).
  { intros i ch. unfold anchor_scan.
    destruct (matching_pairs !! ch) as [c|].
    - right.
      destruct (find_matching_bracket_total content i ch c 1) as (r & -> & ?);
        eauto.
    - destruct (closing_pairs !! ch) as [o|]; [right|by left].
      destruct (find_matching_bracket_total content i ch o (-1))
        as (r & -> & ?); eauto. }
  split; apply Hany.
Qed.

(** ** The minimap *)

Module MinimapFacts.
Import Minimap.

Lemma startswith_prefix (t p : text) :
  startswith t p = true <-> p `prefix_of` t.
Proof.
  revert t. induction p as [|a p IH]; intros t.
  - split; [intros _; apply prefix_nil|by destruct t].
  - destruct t as [|b t]; simpl.
    + split; [done|]. intros [k Hk]. discriminate.
    + rewrite andb_true_iff, N.eqb_eq, IH. split.
      * intros [-> Hp]. by apply prefix_cons.
      * intros [k [= -> ->]]. split; [done|]. by exists k.
Qed.

Lemma contains_occurs (t p : text) :
  contains t p = true <-> occurs_in p t.
Proof.
  induction t as [|c t IH]; cbn [contains].
  - rewrite orb_false_r, startswith_prefix. split.
    + intros [k ->]. by exists [], k.
    + intros (a & b & Hab). symmetry in Hab.
      apply app_eq_nil in Hab as [-> [-> ->]%app_eq_nil]. done.
  - rewrite orb_true_iff, startswith_prefix, IH. split.
    + intros [[k ->]|(a & b & ->)].
      * by exists [], k.
      * by exists (c :: a), b.
    + intros ([|c' a] & b & Hab).
      * left. by exists b.
      * right. injection Hab as -> ->. by exists a, b.
Qed.

Lemma existsb_startswith (t : text) (ps : list text) :
  existsb (startswith t) ps = true <-> exists p, p ∈ ps /\ p `prefix_of` t.
Proof.
  rewrite existsb_exists. split.
  - intros (p & Hin%list_elem_of_In & Hp%startswith_prefix). eauto.
  - intros (p & Hin%list_elem_of_In & Hp%startswith_prefix). eauto.
Qed.

Lemma existsb_contains (t : text) (ps : list text) :
  existsb (contains t) ps = true <-> exists p, p ∈ ps /\ occurs_in p t.
Proof.
  rewrite existsb_exists. split.
  - intros (p & Hin%list_elem_of_In & Hp%contains_occurs). eauto.
  - intros (p & Hin%list_elem_of_In & Hp%contains_occurs). eauto.
Qed.

Lemma comment_test l :
  startswith l (cps "#") || startswith l (cps "//") = true <-> comment_rule l.
Proof.
  unfold comment_rule. by rewrite orb_true_iff, !startswith_prefix.
Qed.

Lemma spaced_words (P : text -> Prop) (ws : list string) :
  (exists p, p ∈ map spaced ws /\ P p) <-> exists w, w ∈ ws /\ P (spaced w).
Proof.
  split.
  - intros (p & (w & -> & Hw)%list_elem_of_fmap & Hp). eauto.
  - intros (w & Hw & Hp). exists (spaced w). split; [|done].
    apply list_elem_of_fmap. eauto.
Qed.

Lemma definition_test l :
  existsb (startswith l) definition_prefixes = true <-> definition_rule l.
Proof.
  rewrite existsb_startswith. unfold definition_rule.
  rewrite <- (spaced_words (fun p => p `prefix_of` l)). done.
Qed.

Lemma import_test l :
  existsb (contains l) import_words = true <-> import_rule l.
Proof.
  rewrite existsb_contains. unfold import_rule.
  rewrite <- (spaced_words (fun p => occurs_in p l)). done.
Qed.

Lemma control_test l :
  existsb (startswith l) control_prefixes = true <-> control_rule l.
Proof.
  rewrite existsb_startswith. unfold control_rule.
  rewrite <- (spaced_words (fun p => p `prefix_of` l)). split.
  - intros (p & Hin & Hp). apply list_elem_of_In in Hin. simpl in Hin.
    destruct Hin as [<-|[<-|Hin]].
    + right. exists (spaced "if"). split; [|done].
      apply list_elem_of_In. simpl. tauto.
    + by left.
    + right. exists p. split; [|done].
      apply list_elem_of_In. simpl. tauto.
  - intros [He|(p & Hin & Hp)].
    + exists (cps "else"). split; [|done].
      apply list_elem_of_In. simpl. tauto.
    + exists p. split; [|done].
      apply list_elem_of_In in Hin. apply list_elem_of_In.
      simpl in *. tauto.
Qed.

(** The colours of the categories differ. *)
Lemma color_of_inj c1 c2 : color_of c1 = color_of c2 -> c1 = c2.
Proof. by destruct c1, c2. Qed.

(** The [if] chain picks the colour of the first rule that applies. *)
Lemma base_color_category (l : text) :
  exists c, base_color l = color_of c /\ category_of l c.
Proof.
  unfold base_color.
  destruct (startswith l (cps "#") || startswith l (cps "//")) eqn:E1.
  { exists Comment. split; [done|]. by apply comment_test. }
  assert (~ comment_rule l) by (rewrite <- comment_test; congruence).
  destruct (existsb (startswith l) definition_prefixes) eqn:E2.
  { exists Definition_. split; [done|]. split; [done|].
    by apply definition_test. }
  assert (~ definition_rule l) by (rewrite <- definition_test; congruence).
  destruct (existsb (contains l) import_words) eqn:E3.
  { exists Import_. split; [done|]. repeat split; try done.
    by apply import_test. }
  assert (~ import_rule l) by (rewrite <- import_test; congruence).
  destruct (existsb (startswith l) control_prefixes) eqn:E4.
  { exists ControlFlow. split; [done|]. repeat split; try done.
    by apply control_test. }
  assert (~ control_rule l) by (rewrite <- control_test; congruence).
  exists Plain. done.
Qed.

Lemma category_of_unique l c1 c2 :
  category_of l c1 -> category_of l c2 -> c1 = c2.
Proof. destruct c1, c2; simpl; tauto. Qed.
End MinimapFacts.

Import Minimap MinimapFacts.

(** C7, as the code has it: the colour of a line that is not blank is the
    colour of the first rule that applies to the line without its leading
    whitespace, in this order: (1) it starts with the comment prefix [#] or
    [//]; (2) it starts with [def], [class], [function], [public],
    [private], [async], [const], [let] or [var] and a space; (3) it
    contains [import], [from], [include] or [using] and a space; (4) it
    starts with [else], or with [if], [for], [while], [switch], [case] or
    [return] and a space; (5) none of these: plain. *)
Theorem C7_minimap_classification `{unicode_data}
    (indent_px scaled_width : Z -> Z -> Z) :
  (forall (l : text) (c : category),
      base_color l = color_of c <-> category_of l c) /\
  (forall (canvas_width : Z) (i : nat) (line : text) (it : item),
      it ∈ draw_line indent_px scaled_width canvas_width i line ->
      strip line <> [] /\
      exists c, category_of (lstrip line) c /\ fill_of it = Some (color_of c)).
Proof.
  split.
  - intros l c. destruct (base_color_category l) as (c' & Hcol & Hcat).
    rewrite Hcol. split.
    + by intros ->%color_of_inj.
    + intros Hc. by rewrite (category_of_unique l c c').
  - intros canvas_width i line it. unfold draw_line.
    destruct (strip line) as [|x xs] eqn:E; [by intros ?%elem_of_nil|].
    destruct (0 <? _)%Z; [|by intros ?%elem_of_nil].
    intros ->%list_elem_of_singleton. split; [done|].
    destruct (base_color_category (lstrip line)) as (c & Hcol & Hcat).
    exists c. split; [done|]. simpl. by rewrite Hcol.
Qed.

Lemma C7_minimap_classification_witness :
  base_color (cps "return x") = color_of ControlFlow <->
  category_of (cps "return x") ControlFlow.
Proof.
  destruct (C7_minimap_classification (H := ascii_only)
              (fun _ _ => 0%Z) (fun _ _ => 0%Z)) as [Hcat _].
  apply (Hcat (cps "return x") ControlFlow).
Defined.

(** A bare [return] is a line that starts with the keyword [return], and
    the code colours it as plain text, not as control flow. *)
Lemma C7_bare_return :
  claimed_category (cps "return") = ControlFlow /\
  base_color (cps "return") = color_of Plain /\
  base_color (cps "return") <> color_of (claimed_category (cps "return")).
Proof. vm_compute. repeat split; discriminate. Qed.

Section BlankLines.
Context `{unicode_data}.
Variables indent_px scaled_width : Z -> Z -> Z.

Lemma lstrip_spaces (l : text) :
  Forall (fun c => isspace c = true) l -> lstrip l = [].
Proof. induction 1 as [|c l Hc _ IH]; simpl; [done|by rewrite Hc]. Qed.

Lemma strip_spaces (l : text) :
  Forall (fun c => isspace c = true) l -> strip l = [].
Proof. intros Hl. unfold strip. by rewrite lstrip_spaces. Qed.

(** The loop over the lines stays inside the list of lines. *)
Lemma draw_lines_finished canvas_width (lines : list text) n : forall i,
  (0 < n -> i + n <= length lines) ->
  (draw_lines indent_px scaled_width canvas_width lines i n).2 = true.
Proof.
  induction n as [|n IH]; intros i Hi; simpl; [done|].
  destruct (lookup_lt_is_Some_2 lines i) as [line ->]; [lia|].
  simpl. apply IH. lia.
Qed.

Lemma draw_lines_blank canvas_width (lines : list text) n : forall i,
  (forall line, line ∈ lines -> strip line = []) ->
  (draw_lines indent_px scaled_width canvas_width lines i n).1 = [].
Proof.
  induction n as [|n IH]; intros i Hblank; simpl; [done|].
  destruct (lines !! i) as [line|] eqn:E; [|done].
  simpl. rewrite IH by done. unfold draw_line.
  rewrite (Hblank line); [done|]. by eapply list_elem_of_lookup_2.
Qed.
End BlankLines.

(** C8, as the code has it: for a text whose lines are all empty or
    whitespace, a call with the minimap visible and a canvas more than one
    pixel high and wide puts no filled rectangle on the canvas and puts the
    viewport rectangle on it, whatever was on the canvas before.  With a
    canvas at most one pixel high or wide the call leaves the canvas empty,
    and with the minimap hidden it leaves the canvas as it was. *)
Theorem C8_blank_text `{unicode_data} (indent_px scaled_width : Z -> Z -> Z)
    (content : text) (canvas_height canvas_width : Z)
    (first_visible last_visible : Z) (canvas : list item) :
  (forall line, line ∈ split NL content ->
                Forall (fun c => isspace c = true) line) ->
  ((1 < canvas_height)%Z -> (1 < canvas_width)%Z ->
   update_minimap indent_px scaled_width true content canvas_height
     canvas_width first_visible last_visible canvas
   = [ViewportRect 0 ((first_visible - 1) * 3) canvas_width
        ((first_visible - 1) * 3 + (last_visible - first_visible + 1) * 3)]) /\
  ((canvas_height <= 1)%Z \/ (canvas_width <= 1)%Z ->
   update_minimap indent_px scaled_width true content canvas_height
     canvas_width first_visible last_visible canvas = []) /\
  update_minimap indent_px scaled_width false content canvas_height
    canvas_width first_visible last_visible canvas = canvas.
Proof.
  intros Hblank. split; [|split; [|done]].
  - intros Hh Hw. unfold update_minimap. simpl negb. cbv iota.
    destruct (split NL content) as [|l0 ls] eqn:Hsplit;
      [by apply split_not_nil in Hsplit|].
    rewrite <- Hsplit in *.
    destruct (Z.leb_spec canvas_height 1); [lia|].
    destruct (Z.leb_spec canvas_width 1); [lia|]. simpl orb. cbv iota.
    set (vs := Z.max 0 (first_visible - 50)).
    set (ve := Z.min (Z.of_nat (length (split NL content)))
                     (first_visible + 200)).
    pose proof (draw_lines_finished indent_px scaled_width canvas_width
                  (split NL content) (Z.to_nat (ve - vs)) (Z.to_nat vs)
                  ltac:(subst vs ve; lia)) as Hfin.
    pose proof (draw_lines_blank indent_px scaled_width canvas_width
                  (split NL content) (Z.to_nat (ve - vs)) (Z.to_nat vs)
                  (fun line Hl => strip_spaces line (Hblank line Hl)))
      as Hnone.
    destruct (draw_lines _ _ _ _ _ _) as [rects finished].
    simpl in Hfin, Hnone. subst. done.
  - intros Hsmall. unfold update_minimap. simpl negb. cbv iota.
    destruct (split NL content) as [|l0 ls]; [done|].
    destruct (Z.leb_spec canvas_height 1), (Z.leb_spec canvas_width 1);
      try done; lia.
Qed.

Lemma C8_blank_text_witness :
  update_minimap (H := ascii_only) (fun _ _ => 0%Z) (fun _ _ => 0%Z) true
    blank_text 300 80 1 40 []
  = [ViewportRect 0 ((1 - 1) * 3) 80 ((1 - 1) * 3 + (40 - 1 + 1) * 3)].
Proof.
  destruct (C8_blank_text (H := ascii_only) (fun _ _ => 0%Z)
              (fun _ _ => 0%Z) blank_text 300 80 1 40 []) as (Hdraw & _).
  - intros line Hl. apply list_elem_of_In in Hl. simpl in Hl.
    destruct Hl as [<-|[<-|[<-|[]]]]; repeat constructor.
  - apply Hdraw; lia.
Defined.

(** On a canvas that is one pixel wide and high, as the canvas is before it
    is laid out, a call puts nothing on it: no viewport rectangle for the
    text of two empty lines. *)
Lemma C8_no_viewport_on_unmapped_canvas :
  update_minimap (H := ascii_only) (fun _ _ => 0%Z) (fun _ _ => 0%Z) true
    [NL] 1 1 1 1 [] = [] /\
  existsb is_viewport
    (update_minimap (H := ascii_only) (fun _ _ => 0%Z) (fun _ _ => 0%Z) true
       [NL] 1 1 1 1 []) = false.
Proof. vm_compute. done. Qed.

(** ** Constructs that run over several lines *)

(** Without DOTALL a match of [/\*.*?\*/] stays on one line. *)
Lemma block_comment_one_line `{unicode_data} (content : text) i c j c' :
  In (j, c')
     (m no_flags content
        (seq_of [Chr 47; Chr 42; Star false Any; Chr 42; Chr 47]) i c) ->
  no_newline content i j.
Proof.
  intros (i1 & c1 & (-> & -> & H1)%m_chr &
          (i2 & c2 & (-> & -> & H2)%m_chr &
           (i3 & c3 & Hstar &
            (i4 & c4 & (-> & -> & H3)%m_chr &
             (i5 & c5 & (-> & -> & H4)%m_chr &
              (-> & ->)%m_eps)%m_cat)%m_cat)%m_cat)%m_cat)%m_cat.
  simpl in Hstar. apply star_any_one_line in Hstar as (? & -> & Hnl); [|done].
  intros k Hk.
  destruct (decide (k = i)) as [->|]; [by eexists|].
  destruct (decide (k = S i)) as [->|]; [by eexists|].
  destruct (decide (k = i3)) as [->|]; [by eexists|].
  destruct (decide (k = S i3)) as [->|]; [by eexists|].
  apply Hnl. lia.
Qed.

(** No comment span of the javascript and the C-like profile has a newline
    inside: a block comment of several lines gets no span. *)
Lemma slash_comments_stay_on_one_line `{unicode_data} (content : text) sp :
  sp ∈ tag_matches comment (re_compile slash_comments_re) content ->
  forall q : nat,
    (startOffset sp <= Z.of_nat q < endOffset sp)%Z ->
    content !! q <> Some NL.
Proof.
  intros [mt [-> Hmt]]%list_elem_of_fmap.
  apply list_elem_of_In, finditer_is_match in Hmt as [_ Hin].
  simpl. unfold start0, end0. intros q Hq.
  assert (Hnl : no_newline content (m_start mt) (m_end mt)).
  { simpl pat in Hin. simpl cflags in Hin.
    change (In (m_end mt, m_group mt)
              (m no_flags content
                 (Cat (Chr 47)
                    (Cat (Chr 47) (Cat (Star false Any) (Cat Eol Eps))))
                 (m_start mt) None ++
               m no_flags content
                 (seq_of [Chr 47; Chr 42; Star false Any; Chr 42; Chr 47])
                 (m_start mt) None)) in Hin.
    apply in_app_or in Hin as [Hin|Hin].
    - apply m_cat in Hin as (i1 & c1 & (-> & -> & Hs)%m_chr & Hin).
      apply m_to_eol in Hin as (_ & ? & Hnl & ?); [|done..].
      intros k ?. destruct (decide (k = m_start mt)) as [->|];
        [by eexists|apply Hnl; lia].
    - by eapply block_comment_one_line. }
  destruct (Hnl q) as (b & Hb & Hne); [lia|]. congruence.
Qed.

(** C4, on the code: a block comment with a newline inside gets no span in
    the javascript and the C-like profile, and a template string with a
    newline inside gets none in the javascript profile, where the
    triple-quoted string of the python profile and the comment of the
    markup profile get one span over all their lines. *)
Theorem C4_multi_line_constructs `{unicode_data} :
  (highlight (cps "js") block_comment ∅).1 = [] /\
  (highlight (cps "c") block_comment ∅).1 = [] /\
  (highlight (cps "js") template_string ∅).1 = [] /\
  (highlight (cps "py") triple_quoted ∅).1
  = [{| kind := string_; startOffset := 0; endOffset := 9 |}] /\
  (highlight (cps "html") markup_comment ∅).1
  = [{| kind := comment; startOffset := 0; endOffset := 12 |}].
Proof. repeat split; vm_compute; reflexivity. Qed.

(** *** Triple-quoted strings of the python profile *)

Lemma lookup_app_plus {A} (l1 l2 : list A) (i : nat) :
  (l1 ++ l2) !! (length l1 + i) = l2 !! i.
Proof. rewrite lookup_app_r by lia. f_equal. lia. Qed.

Lemma py_strings_unfold `{unicode_data} (content : text) i c :
  m dotall content py_strings_re i c
  = map (fun jc : nat * caps => (jc.1, Some (i, jc.1)))
      (m dotall content (triple DQ) i c ++
       m dotall content (triple SQ) i c ++
       m dotall content (quoted DQ) i c ++
       m dotall content (quoted SQ) i c).
Proof. reflexivity. Qed.

(** Where no quote stands, no string starts. *)
Lemma py_strings_need_quote `{unicode_data} (content : text) i c :
  content !! i <> Some DQ -> content !! i <> Some SQ ->
  m dotall content py_strings_re i c = [].
Proof.
  intros Hd Hs. rewrite py_strings_unfold.
  unfold triple, quoted, seq_of. cbn [foldr].
  by rewrite !m_chr_miss.
Qed.

(** A triple quote, a body without the quote character and a triple quote:
    the first match of [qqq.*?qqq] from the first quote is all of it. *)
Lemma triple_first `{unicode_data} (q : N) (pre body post : text) c :
  q ∉ body ->
  exists rest,
    m dotall (pre ++ [q; q; q] ++ body ++ [q; q; q] ++ post) (triple q)
      (length pre) c
    = (length pre + length body + 6, c) :: rest.
Proof.
  intros Hbody.
  set (content := pre ++ [q; q; q] ++ body ++ [q; q; q] ++ post).
  assert (Hopen : forall t, t < 3 -> content !! (length pre + t) = Some q).
  { intros t Ht. unfold content. rewrite lookup_app_plus.
    destruct t as [|[|[|t]]]; [done..|lia]. }
  assert (Hbody' : forall t, t < length body ->
                     content !! (length pre + 3 + t) <> Some q).
  { intros t Ht. unfold content.
    rewrite <- Nat.add_assoc, lookup_app_plus.
    change (3 + t) with (length [q; q; q] + t).
    rewrite lookup_app_plus, lookup_app_l by done.
    intros Hq. apply Hbody. by eapply list_elem_of_lookup_2. }
  assert (Hclose : forall t, t < 3 ->
                     content !! (length pre + 3 + length body + t) = Some q).
  { intros t Ht. unfold content.
    replace (length pre + 3 + length body + t)
      with (length pre + (length [q; q; q] + (length body + t)))
      by (simpl; lia).
    rewrite !lookup_app_plus.
    destruct t as [|[|[|t]]]; [done..|lia]. }
  assert (Hlen : length content = length pre + length body + 6 + length post).
  { unfold content. rewrite !length_app. simpl. lia. }
  unfold triple, seq_of. cbn [foldr].
  rewrite (m_chr_hit dotall content q _ (length pre))
    by (rewrite <- (Nat.add_0_r (length pre)); apply Hopen; lia).
  rewrite (m_chr_hit dotall content q _ (S (length pre)))
    by (replace (S (length pre)) with (length pre + 1) by lia;
        apply Hopen; lia).
  rewrite (m_chr_hit dotall content q _ (S (S (length pre))))
    by (replace (S (S (length pre))) with (length pre + 2) by lia;
        apply Hopen; lia).
  destruct (lazy_any_then_first dotall content
              (Cat (Chr q) (Cat (Chr q) (Cat (Chr q) Eps)))
              (S (S (S (length pre)))) (length body) c)
    as [rest Hrest]; [done|lia| |].
  { intros j Hj. apply m_chr_miss.
    replace j with (length pre + 3 + (j - length pre - 3)) by lia.
    apply Hbody'. lia. }
  rewrite Hrest.
  replace (S (S (S (length pre))) + length body)
    with (length pre + 3 + length body + 0) by lia.
  rewrite (m_chr_hit dotall content q) by (apply Hclose; lia).
  replace (S (length pre + 3 + length body + 0))
    with (length pre + 3 + length body + 1) by lia.
  rewrite (m_chr_hit dotall content q) by (apply Hclose; lia).
  replace (S (length pre + 3 + length body + 1))
    with (length pre + 3 + length body + 2) by lia.
  rewrite (m_chr_hit dotall content q) by (apply Hclose; lia).
  cbn [m app].
  replace (S (length pre + 3 + length body + 2))
    with (length pre + length body + 6) by lia.
  eauto.
Qed.

(** The python profile gives a triple-quoted string one span over all its
    lines: with no quote before it and no quote character in its body, the
    string from its first to its last quote is a string span, whatever
    newlines the body has. *)
Lemma triple_quoted_string_span `{unicode_data} (q : N)
    (pre body post : text) :
  q = DQ \/ q = SQ ->
  DQ ∉ pre -> SQ ∉ pre -> q ∉ body ->
  {| kind := string_;
     startOffset := Z.of_nat (length pre);
     endOffset := Z.of_nat (length pre + length body + 6) |}
  ∈ python_spans (pre ++ [q; q; q] ++ body ++ [q; q; q] ++ post).
Proof.
  intros Hq Hd Hs Hbody.
  set (content := pre ++ [q; q; q] ++ body ++ [q; q; q] ++ post).
  assert (Hpre : forall p', p' < length pre ->
                   m dotall content py_strings_re p' None = []).
  { intros p' Hp'. unfold content.
    destruct (lookup_lt_is_Some_2 pre p' Hp') as [x Hx].
    apply py_strings_need_quote; rewrite lookup_app_l, Hx by done;
      intros [= ->]; [apply Hd|apply Hs]; by eapply list_elem_of_lookup_2. }
  assert (Hq0 : content !! length pre = Some q).
  { unfold content.
    by rewrite <- (Nat.add_0_r (length pre)), lookup_app_plus. }
  assert (Hhit : exists rest,
             m dotall content py_strings_re (length pre) None
             = (length pre + length body + 6,
                Some (length pre, length pre + length body + 6)) :: rest).
  { rewrite py_strings_unfold.
    destruct (triple_first q pre body post None Hbody) as [rest Hrest].
    fold content in Hrest.
    destruct Hq as [-> | ->].
    - rewrite Hrest. cbn [app map fst]. eauto.
    - assert (Hmiss : m dotall content (triple DQ) (length pre) None = []).
      { unfold triple, seq_of. cbn [foldr]. apply m_chr_miss.
        rewrite Hq0. discriminate. }
      rewrite Hmiss, Hrest. cbn [app map fst]. eauto. }
  destruct Hhit as [rest Hrest].
  destruct (finditer_first dotall content py_strings_re (length pre)
              (length pre + length body + 6)
              (Some (length pre, length pre + length body + 6)) rest)
    as [mts Hmts]; [|done|exact Hrest|lia|].
  { unfold content. rewrite length_app. lia. }
  unfold python_spans. rewrite !elem_of_app. right. right. left.
  unfold tag_finditer, tag_matches. cbn [pat cflags]. rewrite Hmts.
  cbn [map]. unfold start0, end0. cbn [m_start m_end]. left.
Qed.

(** ** The model on sample inputs *)

Section SampleRuns.
Context `{unicode_data}.

(** The scanner lets an empty match follow a match, but not an empty match
    at the place of the last empty match: [a*?] on [baac]. *)
Example finditer_lazy_star :
  map (fun mt => (m_start mt, m_end mt))
      (finditer no_flags (cps "baac") (Star false (Chr 97)))
  = [(0, 0); (1, 1); (1, 2); (2, 2); (2, 3); (3, 3); (4, 4)].
Proof. vm_compute. reflexivity. Qed.

(** The spans of a class with a method. *)
Example class_with_method :
  python_spans (cps "class Foo:" ++ [NL] ++ cps "    def bar(self):" ++ [NL]
                ++ cps "        pass")
  = [{| kind := keyword; startOffset := 0; endOffset := 5 |};
     {| kind := keyword; startOffset := 15; endOffset := 18 |};
     {| kind := keyword; startOffset := 38; endOffset := 42 |};
     {| kind := function_; startOffset := 19; endOffset := 22 |};
     {| kind := class_; startOffset := 6; endOffset := 9 |}].
Proof. vm_compute. reflexivity. Qed.

(** A comment on the line before a newline that ends the text has its
    span; with one more newline it has none. *)
Example comment_before_final_newline :
  python_spans (cps "# c" ++ [NL])
  = [{| kind := comment; startOffset := 0; endOffset := 3 |}] /\
  python_spans (cps "# c" ++ [NL; NL]) = [].
Proof. split; vm_compute; reflexivity. Qed.

(** Without a current file [highlight_syntax] changes nothing. *)
Example highlight_syntax_no_file (e : editor) :
  current_file e = None -> highlight_syntax e = Ok e.
Proof. intros He. unfold highlight_syntax. by rewrite He. Qed.

(** The extension is what follows the last dot, in lower case. *)
Example extension_upper_case :
  extension (cps "src/lib.v2/Main.PY") = Ok (cps "py").
Proof. vm_compute. reflexivity. Qed.
End SampleRuns.

(** The cursor between a closer and an opener, and at the end of nested
    brackets. *)
Example matchAt_back_to_back :
  matchAt (cps ")(") 1 = (None, None) /\
  matchAt (cps "(a[b]c)") 7 = (Some (0, 6)%Z, None) /\
  matchAt (cps "(a[b]c)") 3 = (Some (2, 4)%Z, None) /\
  matchAt (cps "") 0 = (None, None).
Proof. repeat split; vm_compute; reflexivity. Qed.

(** On a hidden minimap a call leaves the canvas as it is. *)
Example update_minimap_hidden `{unicode_data}
    (indent_px scaled_width : Z -> Z -> Z) content h w fv lv canvas :
  update_minimap indent_px scaled_width false content h w fv lv canvas
  = canvas.
Proof. reflexivity. Qed.

(** * Further properties *)

(** ** The bracket matcher: the pairs it tags *)

Section Pairs.
Import Bracket BracketFacts.
Local Open Scope Z_scope.

Variable content : text.

Lemma weight_swap (o c : text) ch :
  o <> c -> weight c o ch = - weight o c ch.
Proof. intros Hne. unfold weight. repeat case_bool_decide; congruence || lia. Qed.

Lemma weight_at_swap (o c : text) i :
  o <> c ->
  match char_at content i with
  | Some ch => weight c o ch
  | None => 0
  end
  = - match char_at content i with
      | Some ch => weight o c ch
      | None => 0
      end.
Proof. intros Hne. destruct (char_at content i); [by apply weight_swap|done]. Qed.

Lemma balance_S (o c : text) start d k :
  balance content o c start d (S k)
  = balance content o c start d k
    + match char_at content (start + Z.of_nat (S k) * d) with
      | Some ch => weight o c ch
      | None => 0
      end.
Proof. reflexivity. Qed.

Lemma balance_0 (o c : text) start d :
  balance content o c start d 0
  = match char_at content start with
    | Some ch => weight o c ch
    | None => 0
    end.
Proof. simpl. by rewrite Z.add_0_r. Qed.

(** The count of the scan back from step [k] of a scan, after [u] steps, is
    the count of the scan itself after the steps before step [k - u], less
    its count at step [k]. *)
Lemma balance_backward (o c : text) start d k u :
  o <> c -> (u <= k)%nat ->
  balance content c o (start + Z.of_nat k * d) (- d) u
  + balance content o c start d k
  = match (k - u)%nat with
    | O => 0
    | S j => balance content o c start d j
    end.
Proof.
  intros Hne. induction u as [|u IH]; intros Hu.
  - rewrite balance_0, Nat.sub_0_r, (weight_at_swap o c) by done.
    destruct k as [|k].
    + rewrite balance_0. replace (start + Z.of_nat 0 * d) with start by lia.
      lia.
    + rewrite balance_S. lia.
  - rewrite balance_S, (weight_at_swap o c) by done.
    replace (start + Z.of_nat k * d + Z.of_nat (S u) * - d)
      with (start + Z.of_nat (k - S u) * d)
      by (rewrite (Nat2Z.inj_sub k (S u)) by lia; ring).
    specialize (IH ltac:(lia)).
    replace (k - u)%nat with (S (k - S u)) in IH by lia.
    destruct (k - S u)%nat as [|j] eqn:Hj.
    + rewrite balance_0 in IH.
      replace (start + Z.of_nat 0 * d) with start by lia. lia.
    + rewrite balance_S in IH. lia.
Qed.

(** From a first return at step [k], the scan back from there has its
    first return at step [k] too, where the scan started. *)
Lemma first_return_backward (o c : text) start d k :
  o <> c -> in_text content start ->
  balance content o c start d 0 <> 0 ->
  first_return content o c start d k ->
  first_return content c o (start + Z.of_nat k * d) (- d) k.
Proof.
  intros Hne Hs H0 (Hk & Hin & Hz & Hbefore).
  split; [done|]. split; [|split].
  - by replace (start + Z.of_nat k * d + Z.of_nat k * - d) with start by lia.
  - pose proof (balance_backward o c start d k k Hne ltac:(lia)) as Hb.
    rewrite Nat.sub_diag in Hb. lia.
  - intros u Hu.
    pose proof (balance_backward o c start d k u Hne ltac:(lia)) as Hb.
    destruct (k - u)%nat as [|j] eqn:Hj; [lia|].
    rewrite Hz, Z.add_0_r in Hb. rewrite Hb.
    destruct j as [|j]; [done|]. apply Hbefore. lia.
Qed.

(** Between the start and the first return the count stays above 0. *)
Lemma balance_positive (o c : text) start d k :
  balance content o c start d 0 = 1 ->
  (forall t, (0 < t < k)%nat -> balance content o c start d t <> 0) ->
  forall t, (t < k)%nat -> 1 <= balance content o c start d t.
Proof.
  intros H0 Hne. induction t as [|t IH]; intros Ht; [lia|].
  specialize (IH ltac:(lia)). specialize (Hne (S t) ltac:(lia)).
  rewrite balance_S in *.
  destruct (char_at content _) as [ch|]; [|lia].
  unfold weight in *. repeat case_bool_decide; lia.
Qed.

(** What stands at a first return is the counterpart of the anchor. *)
Lemma first_return_counterpart (o c : text) start d k :
  balance content o c start d 0 = 1 ->
  first_return content o c start d k ->
  exists ch, char_at content (start + Z.of_nat k * d) = Some ch /\ [ch] = c.
Proof.
  intros H0 (Hk & Hin & Hz & Hbefore).
  destruct k as [|k]; [lia|].
  pose proof (balance_positive o c start d (S k) H0 Hbefore k ltac:(lia)).
  rewrite balance_S in Hz.
  destruct (char_at content _) as [ch|]; [|lia].
  exists ch. split; [done|]. unfold weight in Hz.
  repeat case_bool_decide; (done || lia).
Qed.

Lemma balance_at_anchor (o c : text) start d ch :
  char_at content start = Some ch -> [ch] = o ->
  balance content o c start d 0 = 1.
Proof.
  intros Hch Ho. rewrite balance_0, Hch. unfold weight.
  by rewrite bool_decide_eq_true_2.
Qed.

Lemma char_at_Some_in_text i ch :
  char_at content i = Some ch -> in_text content i.
Proof.
  unfold char_at.
  destruct ((0 <=? i) && (i <? Z.of_nat (length content))) eqn:E; [|done].
  intros _. by apply in_text_test.
Qed.

(** A scan in direction [d] from the anchor at [i] that finds [j]: a scan
    in the other direction from [j], for the anchor, finds [i]. *)
Lemma scan_back (o c : text) (d i j : Z) ch :
  o <> c -> d = 1 \/ d = -1 ->
  char_at content i = Some ch -> [ch] = o ->
  find_matching_bracket content i o c d = Some (Found j) ->
  find_matching_bracket content j c o (- d) = Some (Found i).
Proof.
  intros Hne Hd Hch Ho Hfind.
  pose proof (char_at_Some_in_text _ _ Hch) as Hi.
  pose proof (balance_at_anchor o c i d ch Hch Ho) as H0.
  destruct (find_matching_bracket_spec content i o c d Hi Hd)
    as [(k & E & Hk)|[E _]]; [|congruence].
  rewrite E in Hfind. injection Hfind as <-.
  pose proof (first_return_backward o c i d k Hne Hi ltac:(lia) Hk) as Hback.
  assert (Hj : in_text content (i + Z.of_nat k * d)) by apply Hk.
  destruct (find_matching_bracket_spec content (i + Z.of_nat k * d) c o (- d)
              Hj ltac:(lia)) as [(k' & E' & Hk')|[_ Hno]].
  - rewrite E'. do 2 f_equal.
    rewrite (first_return_unique _ _ _ _ _ _ _ Hk' Hback). lia.
  - by apply Hno in Hback.
Qed.
End Pairs.

(** The scan from an opener finds a closer exactly when the scan back from
    that closer finds the opener: the pair is the same from both ends. *)
Theorem bracket_match_symmetric (content : text) (o c : text) (i j : Z)
    (ch_i ch_j : N) :
  (o, c) ∈ brackets ->
  Bracket.char_at content i = Some ch_i -> [ch_i] = o ->
  Bracket.char_at content j = Some ch_j -> [ch_j] = c ->
  find_matching_bracket content i o c 1 = Some (Found j) <->
  find_matching_bracket content j c o (-1) = Some (Found i).
Proof.
  intros Hin Hi Ho Hj Hc.
  assert (Hne : o <> c).
  { apply list_elem_of_In in Hin. simpl in Hin.
    destruct Hin as [[= <- <-]|[[= <- <-]|[[= <- <-]|[[= <- <-]|[]]]]];
      discriminate. }
  split; intros Hfind.
  - apply (scan_back content o c 1 i j ch_i); auto.
  - apply (scan_back content c o (-1) j i ch_j); auto.
Qed.

Lemma bracket_match_symmetric_witness :
  find_matching_bracket (cps "(a[b]c)") 2 (cps "[") (cps "]") 1
  = Some (Found 4) <->
  find_matching_bracket (cps "(a[b]c)") 4 (cps "]") (cps "[") (-1)
  = Some (Found 2).
Proof.
  apply (bracket_match_symmetric (cps "(a[b]c)") (cps "[") (cps "]") 2 4
           91%N 93%N).
  - apply list_elem_of_In. simpl. tauto.
  - reflexivity.
  - reflexivity.
  - reflexivity.
  - reflexivity.
Defined.

Section TaggedPairs.
Import Bracket BracketFacts.
Local Open Scope Z_scope.

Variable content : text.
Local Abbreviation bracket_pair := (bracket_pair content).

Lemma char_at_lookup i ch :
  char_at content i = Some ch ->
  0 <= i /\ content !! Z.to_nat i = Some ch.
Proof.
  unfold char_at.
  destruct ((0 <=? i) && (i <? Z.of_nat (length content))) eqn:E; [|done].
  apply andb_prop in E as [?%Z.leb_le _]. done.
Qed.

Lemma brackets_differ (o c : text) : (o, c) ∈ brackets -> o <> c.
Proof.
  intros Hin%list_elem_of_In. simpl in Hin.
  destruct Hin as [[= <- <-]|[[= <- <-]|[[= <- <-]|[[= <- <-]|[]]]]];
    discriminate.
Qed.

(** A scan that an anchor in the text starts and that finds a position
    gives a bracket pair. *)
Lemma anchor_scan_pair (i j : Z) (c0 : N) :
  char_at content i = Some c0 ->
  anchor_scan content i [c0] = Some (Some (Found j)) ->
  bracket_pair (Z.min i j) (Z.max i j).
Proof.
  intros Hch. pose proof (char_at_Some_in_text content _ _ Hch) as Hi.
  destruct (char_at_lookup _ _ Hch) as [_ Hl]. unfold anchor_scan.
  destruct (matching_pairs !! [c0]) as [c|] eqn:E1.
  - apply matching_pairs_lookup in E1. intros [= Hf].
    destruct (find_matching_bracket_spec content i [c0] c 1 Hi ltac:(auto))
      as [(k & E & Hk)|[E _]]; [|congruence].
    rewrite E in Hf. injection Hf as <-.
    pose proof (balance_at_anchor content [c0] c i 1 c0 Hch eq_refl) as H0.
    destruct (first_return_counterpart content [c0] c i 1 k H0 Hk)
      as (cc & Hcc & Hc).
    destruct (char_at_lookup _ _ Hcc) as [_ Hlc].
    destruct Hk as (Hk & Hin & _). unfold in_text in *.
    rewrite Z.min_l, Z.max_r by lia.
    split; [lia|]. split; [lia|]. by exists [c0], c, c0, cc.
  - destruct (closing_pairs !! [c0]) as [o|] eqn:E2; [|done].
    apply closing_pairs_lookup in E2. intros [= Hf].
    destruct (find_matching_bracket_spec content i [c0] o (-1) Hi
                ltac:(auto)) as [(k & E & Hk)|[E _]]; [|congruence].
    rewrite E in Hf. injection Hf as <-.
    pose proof (balance_at_anchor content [c0] o i (-1) c0 Hch eq_refl)
      as H0.
    destruct (first_return_counterpart content [c0] o i (-1) k H0 Hk)
      as (co & Hco & Ho).
    destruct (char_at_lookup _ _ Hco) as [_ Hlo].
    destruct Hk as (Hk & Hin & _). unfold in_text in *.
    rewrite Z.min_r, Z.max_l by lia.
    split; [lia|]. split; [lia|]. by exists o, [c0], co, c0.
Qed.

(** No bracket is the empty string or the newline that ends the widget. *)
Lemma anchor_scan_no_bracket i (ch : text) :
  ch = [] \/ ch = [NL] -> anchor_scan content i ch = None.
Proof. intros [-> | ->]; apply anchor_scan_other; intros o c Hin%list_elem_of_In;
  simpl in Hin;
  destruct Hin as [[= <- <-]|[[= <- <-]|[[= <- <-]|[[= <- <-]|[]]]]];
  split; discriminate.
Qed.

(** The character the widget gives from offset [a] to [a + 1]: a character
    of the text, the newline behind the text, or nothing. *)
Lemma tk_get_one (a : Z) :
  (exists c0, 0 <= a /\ content !! Z.to_nat a = Some c0 /\
              tk_get content a (a + 1) = [c0]) \/
  tk_get content a (a + 1) = [] \/ tk_get content a (a + 1) = [NL].
Proof.
  destruct (Z.lt_ge_cases a 0) as [Hneg|Hpos].
  { right. unfold tk_get, clamp.
    destruct (decide (a + 1 <= 0)) as [?|?].
    - left. replace (Z.to_nat (Z.min (Z.max 0 (a + 1)) _)) with 0%nat by lia.
      by rewrite Z.max_l, Z.min_l by lia.
    - lia. }
  destruct (Z.lt_ge_cases a (Z.of_nat (length content))) as [Hin|Hout].
  - left. destruct (lookup_lt_is_Some_2 content (Z.to_nat a)) as [c0 Hc0];
      [lia|].
    exists c0. split; [done|]. split; [done|]. by apply tk_get_char.
  - right. unfold tk_get. rewrite length_app. simpl length.
    destruct (decide (a = Z.of_nat (length content))) as [->|Hne].
    + right. rewrite !clamp_inside by lia.
      replace (Z.to_nat (Z.of_nat (length content) + 1)
               - Z.to_nat (Z.of_nat (length content)))%nat with 1%nat by lia.
      rewrite Nat2Z.id, drop_app_length. done.
    + left. unfold clamp.
      replace (Z.to_nat (Z.min (Z.max 0 (a + 1))
                           (Z.of_nat (length content + 1))))
        with (length content + 1)%nat by lia.
      replace (Z.to_nat (Z.min (Z.max 0 a)
                           (Z.of_nat (length content + 1))))
        with (length content + 1)%nat by lia.
      by rewrite Nat.sub_diag.
Qed.
End TaggedPairs.



(** ** Typing helpers *)

Section TypingFacts.
Import Bracket BracketFacts Typing.
Local Open Scope Z_scope.

Lemma tk_insert_at (pre post s : text) :
  tk_insert (pre ++ post) (Z.of_nat (length pre)) s = pre ++ s ++ post.
Proof.
  unfold tk_insert. rewrite clamp_inside by (rewrite length_app; lia).
  by rewrite Nat2Z.id, take_app_length, drop_app_length.
Qed.

Lemma tk_delete_at (pre mid post : text) :
  tk_delete (pre ++ mid ++ post) (Z.of_nat (length pre))
    (Z.of_nat (length pre) + Z.of_nat (length mid))
  = pre ++ post.
Proof.
  unfold tk_delete.
  rewrite !clamp_inside by (rewrite !length_app; lia).
  rewrite Nat2Z.id.
  replace (Z.to_nat (Z.of_nat (length pre) + Z.of_nat (length mid)))
    with (length pre + length mid)%nat by lia.
  destruct (Nat.ltb_spec (length pre) (length pre + length mid)) as [Hlt|Hge].
  - rewrite take_app_length. f_equal.
    rewrite drop_app_ge by lia.
    replace (length pre + length mid - length pre)%nat
      with (length mid) by lia.
    by rewrite drop_app_length.
  - assert (mid = []) as -> by (apply length_zero_iff_nil; lia). done.
Qed.

Lemma tk_get_char_at (pre post : text) (c : N) :
  tk_get (pre ++ c :: post) (Z.of_nat (length pre))
    (Z.of_nat (length pre) + 1) = [c].
Proof.
  apply tk_get_char; [lia|]. rewrite Nat2Z.id. by apply list_lookup_middle.
Qed.

Lemma mark_at_inside (content : text) (i : Z) :
  0 <= i <= Z.of_nat (length content) -> mark_at content i = i.
Proof. intros Hi. unfold mark_at. rewrite clamp_inside by done. lia. Qed.

Lemma widget_split (content : text) (i : Z) :
  0 <= i <= Z.of_nat (length content) ->
  exists pre post,
    content = pre ++ post /\ i = Z.of_nat (length pre).
Proof.
  intros Hi. exists (take (Z.to_nat i) content), (drop (Z.to_nat i) content).
  split; [by rewrite take_drop|]. rewrite length_take. lia.
Qed.

Lemma bracket_chars (o c : text) :
  (o, c) ∈ brackets -> exists co cc, o = [co] /\ c = [cc] /\ co <> cc.
Proof.
  intros Hin%list_elem_of_In. simpl in Hin.
  destruct Hin as [[= <- <-]|[[= <- <-]|[[= <- <-]|[[= <- <-]|[]]]]];
    eexists _, _; (split; [reflexivity|split; [reflexivity|discriminate]]).
Qed.

(** The pair goes in at the mark, and the mark between the two. *)
Lemma insert_pair_at (pre post : text) (a b : N) :
  insert_pair [a] [b]
    {| w_text := pre ++ post; w_insert := Z.of_nat (length pre);
       w_sel := None |}
  = {| w_text := pre ++ [a; b] ++ post;
       w_insert := Z.of_nat (length pre) + 1;
       w_sel := None |}.
Proof.
  unfold insert_pair. cbn [w_text w_insert w_sel].
  rewrite tk_insert_at.
  rewrite (mark_at_inside (pre ++ post) (Z.of_nat (length pre)))
    by (rewrite length_app; lia).
  unfold after_insert. rewrite Z.leb_refl. cbn [app length].
  rewrite mark_at_inside by (rewrite length_app; simpl; lia).
  f_equal. lia.
Qed.

(** The scans of the bracket matcher around a pair that has just gone in. *)
Lemma matchAt_fresh_pair (pre post : text) (o c : text) (co cc : N) :
  (o, c) ∈ brackets -> o = [co] -> c = [cc] ->
  matchAt (pre ++ [co; cc] ++ post) (Z.of_nat (length pre) + 1)
  = (Some (Z.of_nat (length pre), Z.of_nat (length pre) + 1),
     Some (Z.of_nat (length pre), Z.of_nat (length pre) + 1)).
Proof.
  intros Hin -> ->.
  set (content := pre ++ [co; cc] ++ post).
  set (i := Z.of_nat (length pre)).
  assert (Hne : [co] <> [cc]) by by apply brackets_differ.
  assert (Hlen : length content = (length pre + 2 + length post)%nat).
  { unfold content. rewrite !length_app. simpl. lia. }
  assert (Hco : content !! length pre = Some co).
  { unfold content. by apply list_lookup_middle. }
  assert (Hcc : content !! S (length pre) = Some cc).
  { unfold content.
    change (pre ++ [co; cc] ++ post) with (pre ++ co :: cc :: post).
    rewrite lookup_app_r by lia.
    by replace (S (length pre) - length pre)%nat with 1%nat by lia. }
  assert (Hci : char_at content i = Some co).
  { unfold char_at.
    rewrite (proj2 (in_text_test content i)) by (unfold in_text; lia).
    unfold i. by rewrite Nat2Z.id. }
  assert (Hcj : char_at content (i + 1) = Some cc).
  { unfold char_at.
    rewrite (proj2 (in_text_test content (i + 1)))
      by (unfold in_text; lia).
    by replace (Z.to_nat (i + 1)) with (S (length pre)) by lia. }
  assert (Hfwd : find_matching_bracket content i [co] [cc] 1
                 = Some (Found (i + 1))).
  { assert (Hi : in_text content i) by (unfold in_text; lia).
    assert (Hret : first_return content [co] [cc] i 1 1).
    { split; [lia|]. split; [unfold in_text; lia|]. split; [|lia].
      rewrite balance_S, balance_0.
      replace (i + Z.of_nat 1 * 1) with (i + 1) by lia.
      rewrite Hci, Hcj. unfold weight.
      rewrite bool_decide_eq_true_2 by done.
      rewrite (bool_decide_eq_false_2 ([cc] = [co])) by congruence.
      by rewrite bool_decide_eq_true_2. }
    destruct (find_matching_bracket_spec content i [co] [cc] 1 Hi
                ltac:(auto)) as [(k & E & Hk)|[_ Hno]].
    - rewrite E.
      by rewrite (first_return_unique _ _ _ _ _ _ _ Hk Hret).
    - by apply Hno in Hret. }
  pose proof (scan_back content [co] [cc] 1 i (i + 1) co Hne ltac:(auto)
                Hci eq_refl Hfwd) as Hbwd.
  change (- (1)) with (-1) in Hbwd.
  unfold matchAt. f_equal.
  - rewrite (scan_before_char content (i + 1) co) by
      (lia || by replace (Z.to_nat (i + 1 - 1)) with (length pre) by lia).
    unfold before_index. rewrite tk_get_length by lia.
    replace (i + 1 - 1) with i by lia.
    rewrite (anchor_scan_opener content i [co] [cc] Hin), Hfwd. simpl.
    f_equal. f_equal; lia.
  - rewrite (scan_after_char content (i + 1) cc) by
      (lia || by replace (Z.to_nat (i + 1)) with (S (length pre)) by lia).
    unfold after_index. rewrite tk_get_length by lia.
    rewrite (anchor_scan_closer content (i + 1) [co] [cc] Hin), Hbwd. simpl.
    f_equal. f_equal; lia.
Qed.

Lemma smart_backspace_pair (pre post : text) (a b : N) :
  matching_pairs !! [a] = Some [b] \/ ([a] ∈ quote_chars /\ a = b) ->
  smart_backspace
    {| w_text := pre ++ [a; b] ++ post;
       w_insert := Z.of_nat (length pre) + 1;
       w_sel := None |}
  = ({| w_text := pre ++ post; w_insert := Z.of_nat (length pre);
        w_sel := None |}, true).
Proof.
  intros Hpair. unfold smart_backspace. cbn [w_text w_insert w_sel].
  replace (Z.of_nat (length pre) + 1 - 1) with (Z.of_nat (length pre))
    by lia.
  assert (Hprev : tk_get (pre ++ [a; b] ++ post) (Z.of_nat (length pre))
                    (Z.of_nat (length pre) + 1) = [a])
    by apply tk_get_char_at.
  assert (Hnext : tk_get (pre ++ [a; b] ++ post)
                    (Z.of_nat (length pre) + 1)
                    (Z.of_nat (length pre) + 1 + 1) = [b]).
  { pose proof (tk_get_char_at (pre ++ [a]) post b) as E.
    rewrite length_app, <- app_assoc in E. simpl in E.
    by rewrite Nat2Z.inj_add in E. }
  rewrite Hprev, Hnext.
  assert (Htest :
    match matching_pairs !! [a] with
    | Some closer => bool_decide ([b] = closer)
    | None => false
    end || (bool_decide ([a] ∈ quote_chars) && bool_decide ([a] = [b]))
    = true).
  { destruct Hpair as [-> | [Hq ->]].
    - by rewrite bool_decide_eq_true_2.
    - rewrite (bool_decide_eq_true_2 ([b] ∈ quote_chars)) by done.
      rewrite (bool_decide_eq_true_2 ([b] = [b])) by done.
      apply orb_true_r. }
  rewrite Htest.
  assert (Hlen : length (pre ++ [a; b] ++ post)
                 = (length pre + 2 + length post)%nat).
  { rewrite !length_app. simpl. lia. }
  rewrite !clamp_inside by lia.
  f_equal. f_equal.
  - pose proof (tk_delete_at pre [a; b] post) as E. simpl length in E.
    by replace (Z.of_nat (length pre) + 1 + 1)
      with (Z.of_nat (length pre) + Z.of_nat 2) by lia.
  - unfold after_delete.
    destruct (Z.leb_spec (Z.of_nat (length pre) + 1)
                (Z.of_nat (Z.to_nat (Z.of_nat (length pre))))); [lia|].
    destruct (Z.leb_spec (Z.of_nat (length pre) + 1)
                (Z.of_nat (Z.to_nat (Z.of_nat (length pre) + 1 + 1))));
      lia.
Qed.
End TypingFacts.

Import Typing.

Lemma auto_complete_bracket_plain (pre post : text) (co cc : N) :
  ([co], [cc]) ∈ brackets ->
  auto_complete_bracket [co]
    {| w_text := pre ++ post; w_insert := Z.of_nat (length pre);
       w_sel := None |}
  = Done {| w_text := pre ++ [co; cc] ++ post;
            w_insert := (Z.of_nat (length pre) + 1)%Z;
            w_sel := None |}.
Proof.
  intros Hin. unfold auto_complete_bracket. cbn [w_sel].
  rewrite (proj2 (BracketFacts.matching_pairs_lookup [co] [cc]) Hin).
  by rewrite insert_pair_at.
Qed.

Lemma auto_complete_quote_plain (pre post : text) (q : N) :
  Bracket.tk_get (pre ++ post) (Z.of_nat (length pre))
    (Z.of_nat (length pre) + 1) <> [q] ->
  auto_complete_quote [q]
    {| w_text := pre ++ post; w_insert := Z.of_nat (length pre);
       w_sel := None |}
  = {| w_text := pre ++ [q; q] ++ post;
       w_insert := (Z.of_nat (length pre) + 1)%Z;
       w_sel := None |}.
Proof.
  intros Hnext. unfold auto_complete_quote. cbn [w_sel w_text w_insert].
  rewrite bool_decide_eq_false_2 by done.
  by rewrite insert_pair_at.
Qed.

(** Typing an opener where nothing is selected and then Backspace gives the
    widget back as it was: the pair goes in around the mark and goes out
    again as a whole. *)
Theorem bracket_then_backspace (w : widget) (o c : text) :
  (o, c) ∈ brackets -> w_sel w = None ->
  (0 <= w_insert w <= Z.of_nat (length (w_text w)))%Z ->
  exists w',
    auto_complete_bracket o w = Done w' /\
    smart_backspace w' = (w, true).
Proof.
  intros Hin Hsel Hins. destruct w as [content i sel]. simpl in *. subst sel.
  destruct (widget_split content i Hins) as (pre & post & -> & ->).
  destruct (bracket_chars o c Hin) as (co & cc & -> & -> & Hne).
  rewrite (auto_complete_bracket_plain pre post co cc Hin).
  eexists. split; [reflexivity|].
  apply smart_backspace_pair. left.
  by apply BracketFacts.matching_pairs_lookup.
Qed.

Lemma bracket_then_backspace_witness :
  exists w',
    auto_complete_bracket (cps "[") plain_widget = Done w' /\
    smart_backspace w' = (plain_widget, true).
Proof.
  apply (bracket_then_backspace plain_widget (cps "[") (cps "]")).
  - apply list_elem_of_In. simpl. tauto.
  - reflexivity.
  - vm_compute. split; discriminate.
Defined.

(** After an opener is typed where nothing is selected, the mark is
    between the two new characters, and the bracket matcher tags these two
    as a pair, from the character before the mark and from the one after
    it. *)
Theorem typed_pair_is_tagged (w : widget) (o c : text) :
  (o, c) ∈ brackets -> w_sel w = None ->
  (0 <= w_insert w <= Z.of_nat (length (w_text w)))%Z ->
  exists w',
    auto_complete_bracket o w = Done w' /\
    w_insert w' = (w_insert w + 1)%Z /\
    matchAt (w_text w') (w_insert w')
    = (Some (w_insert w, w_insert w + 1)%Z,
       Some (w_insert w, w_insert w + 1)%Z).
Proof.
  intros Hin Hsel Hins. destruct w as [content i sel]. simpl in *. subst sel.
  destruct (widget_split content i Hins) as (pre & post & -> & ->).
  destruct (bracket_chars o c Hin) as (co & cc & -> & -> & Hne).
  rewrite (auto_complete_bracket_plain pre post co cc Hin).
  eexists. split; [reflexivity|].
  cbn [w_text w_insert]. split; [done|].
  by apply (matchAt_fresh_pair pre post [co] [cc]).
Qed.

Lemma typed_pair_is_tagged_witness :
  exists w',
    auto_complete_bracket (cps "{") plain_widget = Done w' /\
    w_insert w' = (w_insert plain_widget + 1)%Z /\
    matchAt (w_text w') (w_insert w')
    = (Some (w_insert plain_widget, w_insert plain_widget + 1)%Z,
       Some (w_insert plain_widget, w_insert plain_widget + 1)%Z).
Proof.
  apply (typed_pair_is_tagged plain_widget (cps "{") (cps "}")).
  - apply list_elem_of_In. simpl. tauto.
  - reflexivity.
  - vm_compute. split; discriminate.
Defined.

(** A quote typed twice where nothing is selected leaves two quotes, not
    four, and the mark behind them: the first call puts the pair in, the
    second steps over the quote the first one added. *)
Theorem quote_typed_twice (w : widget) (q : N) :
  w_sel w = None ->
  (0 <= w_insert w <= Z.of_nat (length (w_text w)))%Z ->
  Bracket.tk_get (w_text w) (w_insert w) (w_insert w + 1) <> [q] ->
  auto_complete_quote [q] (auto_complete_quote [q] w)
  = {| w_text := tk_insert (w_text w) (w_insert w) [q; q];
       w_insert := (w_insert w + 2)%Z;
       w_sel := None |}.
Proof.
  intros Hsel Hins Hnext. destruct w as [content i sel]. simpl in *.
  subst sel.
  destruct (widget_split content i Hins) as (pre & post & -> & ->).
  rewrite (auto_complete_quote_plain pre post q Hnext).
  rewrite tk_insert_at.
  unfold auto_complete_quote. cbn [w_sel w_text w_insert].
  assert (Hq : Bracket.tk_get (pre ++ [q; q] ++ post)
                 (Z.of_nat (length pre) + 1)
                 (Z.of_nat (length pre) + 1 + 1) = [q]).
  { pose proof (tk_get_char_at (pre ++ [q]) post q) as E.
    rewrite length_app, <- app_assoc in E. simpl in E.
    by rewrite Nat2Z.inj_add in E. }
  rewrite Hq, bool_decide_eq_true_2 by done.
  rewrite mark_at_inside by (rewrite !length_app; simpl; lia).
  f_equal. lia.
Qed.

Lemma quote_typed_twice_witness :
  auto_complete_quote [34%N] (auto_complete_quote [34%N] plain_widget)
  = {| w_text := tk_insert (w_text plain_widget) (w_insert plain_widget)
                   [34%N; 34%N];
       w_insert := (w_insert plain_widget + 2)%Z;
       w_sel := None |}.
Proof.
  apply (quote_typed_twice plain_widget 34%N).
  - reflexivity.
  - vm_compute. split; discriminate.
  - vm_compute. discriminate.
Defined.

(** Backspace right after a quote was typed takes both quotes of the new
    pair out again. *)
Theorem quote_then_backspace (w : widget) (q : N) :
  [q] ∈ quote_chars -> w_sel w = None ->
  (0 <= w_insert w <= Z.of_nat (length (w_text w)))%Z ->
  Bracket.tk_get (w_text w) (w_insert w) (w_insert w + 1) <> [q] ->
  smart_backspace (auto_complete_quote [q] w) = (w, true).
Proof.
  intros Hq Hsel Hins Hnext. destruct w as [content i sel]. simpl in *.
  subst sel.
  destruct (widget_split content i Hins) as (pre & post & -> & ->).
  rewrite (auto_complete_quote_plain pre post q Hnext).
  apply smart_backspace_pair. by right.
Qed.

Lemma quote_then_backspace_witness :
  smart_backspace (auto_complete_quote [39%N] plain_widget)
  = (plain_widget, true).
Proof.
  apply (quote_then_backspace plain_widget 39%N).
  - apply list_elem_of_In. simpl. tauto.
  - reflexivity.
  - vm_compute. split; discriminate.
  - vm_compute. discriminate.
Defined.

(** With text selected, an opener puts itself before the selection and its
    closer behind it, changes nothing else, and leaves the mark between the
    selected text and the closer. *)
Theorem bracket_wraps_selection (w : widget) (o c : text) (s e : Z) :
  (o, c) ∈ brackets -> w_sel w = Some (s, e) ->
  (0 <= s <= e)%Z -> (e <= Z.of_nat (length (w_text w)))%Z ->
  auto_complete_bracket o w
  = Done {| w_text :=
              take (Z.to_nat s) (w_text w) ++ o ++
              drop (Z.to_nat s) (take (Z.to_nat e) (w_text w)) ++ c ++
              drop (Z.to_nat e) (w_text w);
            w_insert := (e + 1)%Z;
            w_sel := None |}.
Proof.
  intros Hin Hsel Hs He. destruct w as [content i sel]. simpl in *.
  subst sel.
  destruct (bracket_chars o c Hin) as (co & cc & -> & -> & Hne).
  unfold auto_complete_bracket. cbn [w_sel].
  rewrite (proj2 (BracketFacts.matching_pairs_lookup [co] [cc]) Hin).
  unfold wrap_selection. cbn [w_text].
  set (pre := take (Z.to_nat s) content).
  set (mid := drop (Z.to_nat s) (take (Z.to_nat e) content)).
  set (post := drop (Z.to_nat e) content).
  assert (Hpre : length pre = Z.to_nat s)
    by (unfold pre; rewrite length_take; lia).
  assert (Hmid : length mid = (Z.to_nat e - Z.to_nat s)%nat)
    by (unfold mid; rewrite length_drop, length_take; lia).
  assert (Hc : content = pre ++ mid ++ post).
  { unfold pre, mid, post.
    rewrite <- (take_drop (Z.to_nat e) content) at 1.
    rewrite <- (take_drop (Z.to_nat s) (take (Z.to_nat e) content)) at 1.
    rewrite take_take, <- app_assoc. do 2 f_equal. lia. }
  assert (Hget : Bracket.tk_get content s e = mid).
  { unfold Bracket.tk_get.
    rewrite !clamp_inside by (rewrite length_app; simpl; lia).
    rewrite drop_app_le by lia.
    rewrite take_app_le by (rewrite length_drop; lia).
    rewrite take_drop_commute. unfold mid.
    by replace (Z.to_nat s + (Z.to_nat e - Z.to_nat s))%nat
      with (Z.to_nat e) by lia. }
  rewrite Hget.
  assert (Hdel : tk_delete content s e = pre ++ post).
  { rewrite Hc at 1.
    replace s with (Z.of_nat (length pre)) by lia.
    replace e with (Z.of_nat (length pre) + Z.of_nat (length mid))%Z
      by lia.
    apply tk_delete_at. }
  rewrite Hdel.
  assert (Hput : forall t, tk_insert (pre ++ post) s t = pre ++ t ++ post).
  { intros t. replace s with (Z.of_nat (length pre)) by lia.
    apply tk_insert_at. }
  rewrite !Hput.
  rewrite mark_at_inside by (rewrite !length_app; simpl; lia).
  do 2 f_equal; [|lia].
  by rewrite <- !app_assoc.
Qed.

Lemma bracket_wraps_selection_witness :
  auto_complete_bracket (cps "(") selected_widget
  = Done {| w_text := cps "x = (a + b)"; w_insert := 10%Z;
            w_sel := None |}.
Proof.
  apply (bracket_wraps_selection selected_widget (cps "(") (cps ")") 4 9).
  - apply list_elem_of_In. simpl. tauto.
  - reflexivity.
  - lia.
  - vm_compute. discriminate.
Defined.

(** Of the characters [setup_bindings] binds to [auto_complete_bracket],
    the closing angle bracket is the one the call raises [KeyError] for:
    it is no key of [matching_pairs].  For the others the call goes
    through. *)
Theorem bound_key_raises (o : text) (w : widget) :
  o ∈ bound_openers ->
  (auto_complete_bracket o w = KeyError <-> o = cps ">").
Proof.
  intros Hb.
  assert (Hiff : auto_complete_bracket o w = KeyError <->
                 forall c, (o, c) ∉ brackets).
  { unfold auto_complete_bracket.
    destruct (matching_pairs !! o) as [c|] eqn:E.
    - apply BracketFacts.matching_pairs_lookup in E. split.
      + by destruct (w_sel w) as [[? ?]|].
      + intros Hno. by apply Hno in E.
    - split; [|done]. intros _ c Hin.
      apply BracketFacts.matching_pairs_lookup in Hin. congruence. }
  rewrite Hiff.
  apply list_elem_of_In in Hb. simpl in Hb.
  destruct Hb as [<-|[<-|[<-|[<-|[<-|[]]]]]].
  - split; [|done]. intros Hno. exfalso. apply (Hno (cps ")")).
    apply list_elem_of_In. simpl. tauto.
  - split; [|done]. intros Hno. exfalso. apply (Hno (cps "]")).
    apply list_elem_of_In. simpl. tauto.
  - split; [|done]. intros Hno. exfalso. apply (Hno (cps "}")).
    apply list_elem_of_In. simpl. tauto.
  - split; [|done]. intros Hno. exfalso. apply (Hno (cps ">")).
    apply list_elem_of_In. simpl. tauto.
  - split; [done|]. intros _ c Hin%list_elem_of_In. simpl in Hin.
    destruct Hin as [[=]|[[=]|[[=]|[[=]|[]]]]].
Qed.

Lemma bound_key_raises_witness :
  auto_complete_bracket (cps ">") plain_widget = KeyError <->
  cps ">" = cps ">".
Proof.
  apply (bound_key_raises (cps ">") plain_widget).
  apply list_elem_of_In. simpl. tauto.
Defined.

(** ** Indentation *)

Section IndentFacts.
Context `{unicode_data}.

Lemma lstrip_suffix (t : text) :
  exists ind,
    t = ind ++ lstrip t /\ Forall (fun c => isspace c = true) ind /\
    length ind = length t - length (lstrip t).
Proof.
  induction t as [|c t (ind & E & Hsp & Hlen)].
  - exists []. by repeat split.
  - simpl. destruct (isspace c) eqn:Ec.
    + exists (c :: ind). split; [by rewrite <- app_comm_cons, <- E|].
      split; [by constructor|].
      assert (length (lstrip t) <= length t)
        by (rewrite E at 2; rewrite length_app; lia).
      simpl. lia.
    + exists []. repeat split; [constructor|simpl; lia].
Qed.

Lemma lstrip_nil_spaces (t : text) :
  lstrip t = [] -> Forall (fun c => isspace c = true) t.
Proof.
  induction t as [|c t IH]; [constructor|]. simpl.
  destruct (isspace c) eqn:Ec; [|done]. intros E. constructor; auto.
Qed.

Lemma lstrip_app_spaces (a b : text) :
  Forall (fun c => isspace c = true) a -> lstrip (a ++ b) = lstrip b.
Proof.
  induction 1 as [|c t Hc _ IH]; [done|]. simpl. by rewrite Hc.
Qed.
End IndentFacts.

(** [auto_indent] puts a newline and white space in, nothing else: the
    white space the line of the mark begins with, and four spaces more
    exactly when the last character of the line that is no white space is
    a colon or an opening brace, bracket or parenthesis. *)
Theorem auto_indent_keeps_indentation `{unicode_data} (line : text) :
  exists ind,
    line = ind ++ lstrip line /\
    lstrip ind = [] /\
    auto_indent_text line
    = NL :: ind ++
        match last (rstrip line) with
        | Some c =>
            if bool_decide (c ∈ [58; 123; 91; 40]%N) then cps "    " else []
        | None => []
        end.
Proof.
  destruct (lstrip_suffix line) as (ind & E & Hsp & Hlen).
  exists ind. split; [done|]. split; [by apply lstrip_spaces|].
  unfold auto_indent_text. f_equal.
  assert (Hind : take (length line - length (lstrip line)) line = ind).
  { rewrite <- Hlen. rewrite E at 1. by rewrite take_app_length. }
  rewrite Hind. unfold ends_with.
  destruct (last (rstrip line)) as [c|] eqn:El.
  - destruct (decide (c ∈ [58; 123; 91; 40]%N)) as [Hin|Hnin].
    + rewrite (bool_decide_eq_true_2 _ Hin).
      apply list_elem_of_In in Hin. simpl in Hin.
      destruct Hin as [<-|[<-|[<-|[<-|[]]]]].
      * by rewrite (bool_decide_eq_true_2 (Some 58%N = Some 58%N)).
      * rewrite (bool_decide_eq_true_2 (Some 123%N = Some 123%N)) by done.
        by rewrite orb_true_r.
      * rewrite (bool_decide_eq_true_2 (Some 91%N = Some 91%N)) by done.
        by rewrite orb_true_r.
      * rewrite (bool_decide_eq_true_2 (Some 40%N = Some 40%N)) by done.
        by rewrite orb_true_r.
    + rewrite (bool_decide_eq_false_2 _ Hnin).
      rewrite !bool_decide_eq_false_2
        by (intros [= ->]; apply Hnin, list_elem_of_In; simpl; tauto).
      by rewrite app_nil_r.
  - rewrite !bool_decide_eq_false_2 by done. simpl.
    by rewrite app_nil_r.
Qed.

(** ** The list of recent files *)

Section RecentFacts.
Import Recent.

Lemma list_remove_elem (x : text) (l : list text) :
  x ∈ l -> exists r, list_remove x l = Some r /\ l ≡ₚ x :: r /\ r `sublist_of` l.
Proof.
  induction l as [|y l IH]; intros Hin; [by apply elem_of_nil in Hin|].
  simpl. destruct (decide (x = y)) as [->|Hne].
  - exists l. split; [done|]. split; [done|]. by apply sublist_cons.
  - apply elem_of_cons in Hin as [?|Hin]; [done|].
    destruct (IH Hin) as (r & -> & Hp & Hs). exists (y :: r).
    split; [done|]. split.
    + rewrite Hp. apply Permutation_swap.
    + by apply sublist_skip.
Qed.

Lemma list_remove_head (x : text) (l : list text) :
  list_remove x (x :: l) = Some l.
Proof. simpl. by rewrite decide_True. Qed.

(** The list before it is cut to its maximal length. *)
Lemma add_to_recent_files_uncut (filepath : text) (recent : list text) :
  exists r,
    add_to_recent_files filepath recent
    = Some (take max_recent_files (filepath :: r)) /\
    r `sublist_of` recent /\
    (filepath ∈ recent -> recent ≡ₚ filepath :: r) /\
    (filepath ∉ recent -> r = recent).
Proof.
  unfold add_to_recent_files. case_bool_decide as Hin.
  - destruct (list_remove_elem filepath recent Hin) as (r & -> & Hp & Hs).
    exists r. split; [|done].
    destruct (Nat.ltb_spec max_recent_files (length (filepath :: r)));
      [done|].
    by rewrite take_ge.
  - exists recent. split; [|done].
    destruct (Nat.ltb_spec max_recent_files (length (filepath :: recent)));
      [done|].
    by rewrite take_ge.
Qed.
End RecentFacts.

(** [add_to_recent_files] never fails on [remove]; afterwards the file is
    the first of the list, the list has at most ten entries, and the
    others are entries of the old list in their old order. *)
Theorem add_to_recent_files_result (filepath : text) (recent : list text) :
  exists l,
    Recent.add_to_recent_files filepath recent = Some (filepath :: l) /\
    length (filepath :: l) <= 10 /\
    l `sublist_of` recent.
Proof.
  destruct (add_to_recent_files_uncut filepath recent)
    as (r & -> & Hs & _).
  exists (take 9 r). split; [done|]. split.
  - simpl. rewrite length_take. lia.
  - etrans; [apply sublist_take|done].
Qed.

(** A list without a file twice stays so. *)
Theorem recent_files_stay_distinct (filepath : text) (recent : list text) :
  NoDup recent ->
  exists l, Recent.add_to_recent_files filepath recent = Some l /\ NoDup l.
Proof.
  intros Hnd.
  destruct (add_to_recent_files_uncut filepath recent)
    as (r & -> & Hs & Hin & Hnin).
  eexists. split; [done|].
  assert (Hall : NoDup (filepath :: r)).
  { destruct (decide (filepath ∈ recent)) as [Hi|Hn].
    - by rewrite <- (Hin Hi).
    - rewrite (Hnin Hn). by constructor. }
  apply (sublist_NoDup _ _ Hall), sublist_take.
Qed.

Lemma recent_files_stay_distinct_witness :
  exists l,
    Recent.add_to_recent_files (cps "b.py") [cps "a.py"; cps "b.py"]
    = Some l /\ NoDup l.
Proof.
  apply recent_files_stay_distinct.
  apply (bool_decide_unpack _). vm_compute. reflexivity.
Defined.

(** Opening a file of the list again, when the list is not longer than it
    may be, only brings it to the front: no entry is lost. *)
Theorem reopened_file_moves_to_front (filepath : text)
    (recent : list text) :
  filepath ∈ recent -> length recent <= Recent.max_recent_files ->
  exists l,
    Recent.add_to_recent_files filepath recent = Some (filepath :: l) /\
    recent ≡ₚ filepath :: l.
Proof.
  intros Hin Hlen.
  destruct (add_to_recent_files_uncut filepath recent)
    as (r & -> & Hs & Hp & _).
  specialize (Hp Hin). exists r. split; [|done].
  rewrite take_ge; [done|]. by rewrite <- Hp.
Qed.

Lemma reopened_file_moves_to_front_witness :
  exists l,
    Recent.add_to_recent_files (cps "b.py") [cps "a.py"; cps "b.py"]
    = Some (cps "b.py" :: l) /\
    [cps "a.py"; cps "b.py"] ≡ₚ cps "b.py" :: l.
Proof.
  apply reopened_file_moves_to_front.
  - apply list_elem_of_In. simpl. tauto.
  - vm_compute. lia.
Defined.

(** Adding the same file twice is the same as adding it once. *)
Theorem add_to_recent_files_twice (filepath : text) (recent l : list text) :
  Recent.add_to_recent_files filepath recent = Some l ->
  Recent.add_to_recent_files filepath l = Some l.
Proof.
  intros E.
  destruct (add_to_recent_files_result filepath recent)
    as (l' & E' & Hlen & _).
  rewrite E in E'. injection E' as ->.
  unfold Recent.add_to_recent_files.
  rewrite bool_decide_eq_true_2 by (apply elem_of_cons; by left).
  rewrite list_remove_head.
  destruct (Nat.ltb_spec Recent.max_recent_files (length (filepath :: l')));
    [|done].
  unfold Recent.max_recent_files in *. lia.
Qed.

Lemma add_to_recent_files_twice_witness :
  Recent.add_to_recent_files (cps "b.py") [cps "b.py"; cps "a.py"]
  = Some [cps "b.py"; cps "a.py"].
Proof.
  apply (add_to_recent_files_twice (cps "b.py") [cps "a.py"; cps "b.py"]).
  vm_compute. reflexivity.
Defined.

(** ** The history of the terminal *)

Section TerminalFacts.
Import Terminal.
Local Open Scope Z_scope.

Lemma py_index_inside {A} (l : list A) (i : Z) :
  0 <= i < Z.of_nat (length l) ->
  exists x, py_index l i = Some x /\ l !! Z.to_nat i = Some x.
Proof.
  intros Hi. unfold py_index.
  destruct (Z.leb_spec 0 i); [|lia].
  destruct (lookup_lt_is_Some_2 l (Z.to_nat i)) as [x E]; [lia|].
  by exists x.
Qed.

Lemma nonempty_length {A} (l : list A) :
  nonempty l = true <-> 0 < Z.of_nat (length l).
Proof. destruct l; simpl; split; (done || lia). Qed.

Lemma history_up_moves (t : terminal) :
  index_ok t -> 0 < history_index t ->
  exists c,
    command_history t !! Z.to_nat (history_index t - 1) = Some c /\
    terminal_history_up t
    = Some {| command_history := command_history t;
              history_index := history_index t - 1;
              terminal_input := c |}.
Proof.
  intros [Hlo Hhi] Hpos. unfold terminal_history_up.
  rewrite (proj2 (nonempty_length (command_history t))) by lia.
  rewrite (proj2 (Z.ltb_lt 0 (history_index t))) by done. simpl.
  destruct (py_index_inside (command_history t) (history_index t - 1))
    as (c & -> & E); [lia|].
  by exists c.
Qed.

Lemma history_up_stays (t : terminal) :
  history_index t <= 0 -> terminal_history_up t = Some t.
Proof.
  intros Hle. unfold terminal_history_up.
  rewrite (proj2 (Z.ltb_ge 0 (history_index t))) by done.
  by rewrite andb_false_r.
Qed.

Lemma history_down_moves (t : terminal) :
  index_ok t ->
  history_index t < Z.of_nat (length (command_history t)) - 1 ->
  exists c,
    command_history t !! Z.to_nat (history_index t + 1) = Some c /\
    terminal_history_down t
    = Some {| command_history := command_history t;
              history_index := history_index t + 1;
              terminal_input := c |}.
Proof.
  intros [Hlo Hhi] Hlt. unfold terminal_history_down.
  rewrite (proj2 (nonempty_length (command_history t))) by lia.
  rewrite (proj2 (Z.ltb_lt _ _) Hlt). simpl.
  destruct (py_index_inside (command_history t) (history_index t + 1))
    as (c & -> & E); [lia|].
  by exists c.
Qed.

Lemma history_down_ends (t : terminal) :
  Z.of_nat (length (command_history t)) - 1 <= history_index t ->
  terminal_history_down t
  = Some {| command_history := command_history t;
            history_index := Z.of_nat (length (command_history t));
            terminal_input := [] |}.
Proof.
  intros Hge. unfold terminal_history_down.
  rewrite (proj2 (Z.ltb_ge _ _) Hge), andb_false_r.
  by rewrite (proj2 (Z.leb_le _ _) Hge).
Qed.
End TerminalFacts.

(** The index into the history stays between one before the first command
    and one behind the last, as it is at the start, under the three things
    that change it; and while it does, the arrow keys never index the
    history out of range. *)
Theorem history_index_stays_in_range `{unicode_data}
    (t : Terminal.terminal) :
  Terminal.index_ok t ->
  (exists t', Terminal.terminal_history_up t = Some t' /\
              Terminal.index_ok t' /\
              Terminal.command_history t' = Terminal.command_history t) /\
  (exists t', Terminal.terminal_history_down t = Some t' /\
              Terminal.index_ok t' /\
              Terminal.command_history t' = Terminal.command_history t) /\
  Terminal.index_ok (Terminal.record_command t).
Proof.
  intros Hok. pose proof Hok as [Hlo Hhi]. split; [|split].
  - destruct (Z.lt_ge_cases 0 (Terminal.history_index t)) as [Hpos|Hle].
    + destruct (history_up_moves t Hok Hpos) as (c & _ & ->).
      eexists. split; [done|]. split; [|done].
      unfold Terminal.index_ok. simpl. lia.
    + rewrite history_up_stays by done. by exists t.
  - destruct (Z.lt_ge_cases (Terminal.history_index t)
                (Z.of_nat (length (Terminal.command_history t)) - 1))
      as [Hlt|Hge].
    + destruct (history_down_moves t Hok Hlt) as (c & _ & ->).
      eexists. split; [done|]. split; [|done].
      unfold Terminal.index_ok. simpl. lia.
    + rewrite history_down_ends by done.
      eexists. split; [done|]. split; [|done].
      unfold Terminal.index_ok. simpl. lia.
  - unfold Terminal.record_command.
    destruct (strip (Terminal.terminal_input t)); [done|].
    unfold Terminal.index_ok. simpl. lia.
Qed.

Lemma history_index_stays_in_range_witness :
  (exists t', Terminal.terminal_history_up Terminal.initial = Some t' /\
              Terminal.index_ok t' /\
              Terminal.command_history t'
              = Terminal.command_history Terminal.initial) /\
  (exists t', Terminal.terminal_history_down Terminal.initial = Some t' /\
              Terminal.index_ok t' /\
              Terminal.command_history t'
              = Terminal.command_history Terminal.initial) /\
  Terminal.index_ok (Terminal.record_command (H := ascii_only)
                       Terminal.initial).
Proof.
  apply (history_index_stays_in_range (H := ascii_only) Terminal.initial).
  unfold Terminal.index_ok. simpl. lia.
Defined.

(** After a command that is not blank was entered, the up arrow brings it
    back into the input line, without the white space around it. *)
Theorem up_recalls_entered_command `{unicode_data}
    (t : Terminal.terminal) :
  strip (Terminal.terminal_input t) <> [] ->
  Terminal.terminal_history_up (Terminal.record_command t)
  = Some {| Terminal.command_history :=
              Terminal.command_history t ++
              [strip (Terminal.terminal_input t)];
            Terminal.history_index :=
              Z.of_nat (length (Terminal.command_history t));
            Terminal.terminal_input :=
              strip (Terminal.terminal_input t) |}.
Proof.
  intros Hne. unfold Terminal.record_command.
  destruct (strip (Terminal.terminal_input t)) as [|c command] eqn:E;
    [done|].
  set (h := Terminal.command_history t).
  unfold Terminal.terminal_history_up. cbn [Terminal.command_history
    Terminal.history_index].
  rewrite (proj2 (nonempty_length (h ++ [c :: command])))
    by (rewrite length_app; simpl; lia).
  rewrite (proj2 (Z.ltb_lt 0 _)) by (rewrite length_app; simpl; lia).
  simpl. unfold Terminal.py_index.
  rewrite (proj2 (Z.leb_le 0 _)) by (rewrite length_app; simpl; lia).
  replace (Z.to_nat (Z.of_nat (length (h ++ [c :: command])) - 1))
    with (length h) by (rewrite length_app; simpl; lia).
  rewrite list_lookup_middle by done.
  do 2 f_equal. rewrite length_app. simpl. lia.
Qed.

Lemma up_recalls_entered_command_witness :
  Terminal.terminal_history_up
    (Terminal.record_command (H := ascii_only) typed_terminal)
  = Some {| Terminal.command_history := [cps "ls"; cps "make test"];
            Terminal.history_index := 1;
            Terminal.terminal_input := cps "make test" |}.
Proof.
  apply (up_recalls_entered_command (H := ascii_only) typed_terminal).
  vm_compute. discriminate.
Defined.



(** ** The order of the matches of one rule *)

Section ScanOrder.
Context `{unicode_data}.
Variable fl : Re.flags.
Variable s : text.

Lemma scan_from r fuel : forall ma pos mt,
  In mt (Re.scan fl s r fuel ma pos) ->
  pos <= Re.m_start mt <= Re.m_end mt.
Proof.
  induction fuel as [|fuel IH]; intros ma pos mt; simpl; [done|].
  destruct (Re.search fl s r ma pos) as [mt'|] eqn:E; [|done].
  apply ReFacts.search_bounds in E as (Hp & _ & _).
  intros [<-|Hin]; [done|]. apply IH in Hin. lia.
Qed.

Lemma scan_in_order r fuel : forall ma pos i j a b,
  i < j ->
  Re.scan fl s r fuel ma pos !! i = Some a ->
  Re.scan fl s r fuel ma pos !! j = Some b ->
  Re.m_end a <= Re.m_start b.
Proof.
  induction fuel as [|fuel IH]; intros ma pos i j a b Hij; simpl; [done|].
  destruct (Re.search fl s r ma pos) as [mt|] eqn:E; [|done].
  destruct j as [|j]; [lia|]. destruct i as [|i]; simpl.
  - intros [= <-] Hb. apply list_elem_of_lookup_2, list_elem_of_In in Hb.
    apply scan_from in Hb. lia.
  - apply IH. lia.
Qed.
End ScanOrder.



(** ** The window of the minimap *)

Section MinimapWindow.
Import Minimap.
Context `{unicode_data}.
Variables indent_px scaled_width : Z -> Z -> Z.
Local Open Scope Z_scope.

Lemma draw_line_rectangle canvas_width (lines : list text) (i : nat) line it :
  lines !! i = Some line ->
  it ∈ draw_line indent_px scaled_width canvas_width i line ->
  rectangle_of lines (Z.of_nat i) (Z.of_nat i + 1) it.
Proof.
  intros Hl. unfold draw_line.
  destruct (strip line) as [|c l'] eqn:Es; [by intros ?%elem_of_nil|].
  match goal with
  | |- context [0 <? ?w] => destruct (Z.ltb_spec 0 w) as [Hw|Hw]
  end; [|by intros ?%elem_of_nil].
  intros ->%list_elem_of_singleton.
  eexists i, line, _, _. split; [reflexivity|].
  split; [lia|]. split; [done|]. split; [by rewrite Es|lia].
Qed.

Lemma draw_lines_window canvas_width (lines : list text) n : forall i,
  Forall (rectangle_of lines (Z.of_nat i) (Z.of_nat i + Z.of_nat n))
    (draw_lines indent_px scaled_width canvas_width lines i n).1 /\
  (length (draw_lines indent_px scaled_width canvas_width lines i n).1
   <= n)%nat.
Proof.
  induction n as [|n IH]; intros i; simpl; [by split|].
  destruct (lines !! i) as [line|] eqn:E; simpl; [|split; [done|lia]].
  destruct (IH (S i)) as [Hall Hlen]. split.
  - apply Forall_app. split.
    + apply Forall_forall. intros it Hit.
      destruct (draw_line_rectangle _ _ _ _ _ E Hit)
        as (k & l & x0 & x1 & -> & ? & ? & ? & ?).
      exists k, l, x0, x1. repeat split; (done || lia).
    + eapply Forall_impl; [exact Hall|].
      intros it (k & l & x0 & x1 & -> & ? & ? & ? & ?).
      exists k, l, x0, x1. repeat split; (done || lia).
  - rewrite length_app.
    assert (length (draw_line indent_px scaled_width canvas_width i line)
            <= 1)%nat; [|lia].
    unfold draw_line. destruct (strip line); [simpl; lia|].
    match goal with
    | |- context [0 <? ?w] => destruct (0 <? w)
    end; simpl; lia.
Qed.
End MinimapWindow.

Lemma update_minimap_window `{unicode_data}
    (indent_px scaled_width : Z -> Z -> Z)
    (content : text) (canvas_height canvas_width : Z)
    (first_visible last_visible : Z) (canvas : list Minimap.item) :
  (1 < canvas_height)%Z -> (1 < canvas_width)%Z ->
  exists rects,
    Minimap.update_minimap indent_px scaled_width true content
      canvas_height canvas_width first_visible last_visible canvas
    = rects ++
      [Minimap.ViewportRect 0 ((first_visible - 1) * 3) canvas_width
         ((first_visible - 1) * 3 + (last_visible - first_visible + 1) * 3)]
    /\
    Forall (Minimap.rectangle_of (split NL content)
              (Z.max 0 (first_visible - 50))
              (Z.min (Z.of_nat (length (split NL content)))
                 (first_visible + 200)))
      rects /\
    length rects <= 250.
Proof.
  intros Hh Hw. unfold Minimap.update_minimap. simpl negb. cbv iota.
  destruct (split NL content) as [|l0 ls] eqn:Hsplit;
    [by apply split_not_nil in Hsplit|].
  rewrite <- Hsplit in *.
  destruct (Z.leb_spec canvas_height 1); [lia|].
  destruct (Z.leb_spec canvas_width 1); [lia|]. simpl orb. cbv iota.
  set (vs := Z.max 0 (first_visible - 50)).
  set (ve := Z.min (Z.of_nat (length (split NL content)))
                   (first_visible + 200)).
  pose proof (draw_lines_finished indent_px scaled_width canvas_width
                (split NL content) (Z.to_nat (ve - vs)) (Z.to_nat vs)
                ltac:(subst vs ve; lia)) as Hfin.
  destruct (draw_lines_window indent_px scaled_width canvas_width
              (split NL content) (Z.to_nat (ve - vs)) (Z.to_nat vs))
    as [Hall Hlen].
  destruct (Minimap.draw_lines _ _ _ _ _ _) as [rects finished].
  simpl in Hfin, Hall, Hlen. subst finished.
  exists rects. split; [done|]. split.
  - eapply Forall_impl; [exact Hall|].
    intros it (k & l & x0 & x1 & -> & ? & ? & ? & ?).
    exists k, l, x0, x1. repeat split; (done || lia).
  - subst vs ve. lia.
Qed.


(** On a laid-out canvas [update_minimap] draws the viewport rectangle
    last and before it nothing but filled rectangles, each the rectangle of
    a line that is not blank, at the height of its line and in the colour
    of its category; the lines are those from fifty before the first
    visible line to two hundred after it, so there are at most two hundred
    and fifty rectangles, whatever the length of the text. *)
Theorem minimap_draws_a_window `{unicode_data}
    (indent_px scaled_width : Z -> Z -> Z)
    (content : text) (canvas_height canvas_width : Z)
    (first_visible last_visible : Z) (canvas : list Minimap.item) :
  (1 < canvas_height)%Z -> (1 < canvas_width)%Z ->
  exists rects,
    Minimap.update_minimap indent_px scaled_width true content
      canvas_height canvas_width first_visible last_visible canvas
    = rects ++
      [Minimap.ViewportRect 0 ((first_visible - 1) * 3) canvas_width
         ((first_visible - 1) * 3 + (last_visible - first_visible + 1) * 3)]
    /\
    forallb Minimap.is_fill rects = true /\
    Forall (Minimap.rectangle_of (split NL content)
              (Z.max 0 (first_visible - 50))
              (Z.min (Z.of_nat (length (split NL content)))
                 (first_visible + 200)))
      rects /\
    length rects <= 250.
Proof.
  intros Hh Hw.
  destruct (update_minimap_window indent_px scaled_width content
              canvas_height canvas_width first_visible last_visible canvas
              Hh Hw) as (rects & E & Hall & Hlen).
  exists rects. split; [done|]. split; [|done].
  apply forallb_forall. intros it Hit.
  rewrite Forall_forall in Hall.
  destruct (Hall it) as (i & line & x0 & x1 & -> & _);
    [by apply list_elem_of_In|done].
Qed.

Lemma minimap_draws_a_window_witness :
  exists rects,
    Minimap.update_minimap (H := ascii_only) (fun _ _ => 0%Z)
      (fun n w => (Z.min 100 n * w / 100)%Z) true two_line_text
      300 80 1 40 []
    = rects ++
      [Minimap.ViewportRect 0 ((1 - 1) * 3) 80
         ((1 - 1) * 3 + (40 - 1 + 1) * 3)] /\
    forallb Minimap.is_fill rects = true /\
    Forall (Minimap.rectangle_of (H := ascii_only) (split NL two_line_text)
              (Z.max 0 (1 - 50))
              (Z.min (Z.of_nat (length (split NL two_line_text)))
                 (1 + 200)))
      rects /\
    length rects <= 250.
Proof.
  apply (minimap_draws_a_window (H := ascii_only)); lia.
Defined.

(** A click on one of the rectangles of the minimap puts the mark on the
    line the rectangle was drawn for. *)
Theorem click_on_a_rectangle `{unicode_data}
    (indent_px scaled_width : Z -> Z -> Z)
    (content : text) (canvas_height canvas_width : Z)
    (first_visible last_visible : Z) (canvas : list Minimap.item)
    (x0 y0 x1 y1 canvas_y : Z) (fill : Minimap.rgb) :
  (1 < canvas_height)%Z -> (1 < canvas_width)%Z ->
  Minimap.FillRect x0 y0 x1 y1 fill
    ∈ Minimap.update_minimap indent_px scaled_width true content
        canvas_height canvas_width first_visible last_visible canvas ->
  (y0 <= canvas_y <= y1)%Z ->
  exists line,
    split NL content
      !! Z.to_nat (Minimap.minimap_click content canvas_y - 1) = Some line /\
    strip line <> [] /\
    fill = Minimap.base_color (lstrip line) /\
    y0 = ((Minimap.minimap_click content canvas_y - 1) * 3)%Z.
Proof.
  intros Hh Hw Hin Hy.
  destruct (update_minimap_window indent_px scaled_width content
              canvas_height canvas_width first_visible last_visible canvas
              Hh Hw) as (rects & E & Hall & _).
  rewrite E in Hin. apply elem_of_app in Hin as [Hin|Hin];
    [|by apply list_elem_of_singleton in Hin].
  rewrite Forall_forall in Hall.
  destruct (Hall _ Hin) as (i & line & x0' & x1' & [= -> -> -> -> ->]
                            & Hi & Hl & Hs & _).
  pose proof (lookup_lt_Some _ _ _ Hl) as Hlt.
  assert (Hc : Minimap.minimap_click content canvas_y
               = (Z.of_nat i + 1)%Z).
  { unfold Minimap.minimap_click, Minimap.pixels_per_line,
      Minimap.line_height, Minimap.line_gap.
    change (2 + 1)%Z with 3%Z.
    rewrite Z.quot_div_nonneg by lia.
    assert (canvas_y / 3 = Z.of_nat i)%Z; [|lia].
    symmetry. apply (Z.div_unique canvas_y 3 (Z.of_nat i)
                       (canvas_y - 3 * Z.of_nat i)); lia. }
  rewrite Hc. exists line.
  replace (Z.to_nat (Z.of_nat i + 1 - 1)) with i by lia.
  repeat split; (done || lia).
Qed.

Lemma click_on_a_rectangle_witness :
  exists line,
    split NL two_line_text
      !! Z.to_nat (Minimap.minimap_click two_line_text 4 - 1) = Some line /\
    strip (H := ascii_only) line <> [] /\
    (212, 212, 212)%Z = Minimap.base_color (lstrip (H := ascii_only) line) /\
    3%Z = ((Minimap.minimap_click two_line_text 4 - 1) * 3)%Z.
Proof.
  apply (click_on_a_rectangle (H := ascii_only) (fun _ _ => 0%Z)
           (fun n w => (Z.min 100 n * w / 100)%Z) two_line_text
           300 80 1 40 [] 0 3 4 5 4 (212, 212, 212)%Z).
  - lia.
  - lia.
  - vm_compute. apply list_elem_of_In. simpl. tauto.
  - lia.
Defined.

(** ** The size of the cache *)

Section CacheKeys.
Import Highlight.
Context `{unicode_data}.

Lemma get_compiled_regex_keys pattern key cache :
  key ∈ rule_table.*1 -> known_keys cache ->
  known_keys (get_compiled_regex pattern key cache).2.
Proof.
  intros Hk Hc. unfold get_compiled_regex.
  destruct (cache !! key) as [p|] eqn:E; [done|]. simpl.
  intros k. destruct (decide (key = k)) as [<-|Hne]; [done|].
  rewrite lookup_insert_ne by done. apply Hc.
Qed.

Ltac keys_step :=
  match goal with
  | HP : known_keys ?cache
    |- context [get_compiled_regex ?pattern ?key ?cache] =>
      let HP' := fresh "HP" in
      pose proof (get_compiled_regex_keys pattern key cache
                    ltac:(apply (bool_decide_unpack _); vm_compute;
                          reflexivity) HP) as HP';
      destruct (get_compiled_regex pattern key cache) as [? ?];
      simpl in HP'; clear HP
  end.

Lemma highlight_keys ext content cache :
  known_keys cache -> known_keys (highlight ext content cache).2.
Proof.
  intros HP. unfold highlight.
  repeat case_bool_decide; [| | | |done].
  - unfold highlight_python. repeat keys_step. done.
  - unfold highlight_javascript. repeat keys_step. done.
  - unfold highlight_c_like. repeat keys_step. done.
  - unfold highlight_html. repeat keys_step. done.
Qed.

Lemma reachable_cache_keys cache : reachable_cache cache -> known_keys cache.
Proof.
  induction 1 as [|ext content cache _ IH|].
  - intros k [p Hp]. by rewrite lookup_empty in Hp.
  - by apply highlight_keys.
  - intros k [p Hp]. by rewrite lookup_empty in Hp.
Qed.
End CacheKeys.

(** The cache of compiled patterns does not grow with the files that are
    highlighted: it never has a key that is not in the rule table, and so
    never more than fifteen patterns. *)
Theorem regex_cache_is_bounded `{unicode_data}
    (cache : gmap string Highlight.compiled) :
  Highlight.reachable_cache cache ->
  Highlight.known_keys cache /\ size cache <= 15.
Proof.
  intros Hr. pose proof (reachable_cache_keys cache Hr) as Hk.
  split; [done|].
  rewrite <- size_dom.
  assert (Hsub : dom cache ⊆ list_to_set (Highlight.rule_table.*1)).
  { intros k Hin. apply elem_of_dom in Hin.
    apply elem_of_list_to_set. by apply Hk. }
  apply subseteq_size in Hsub.
  rewrite size_list_to_set in Hsub
    by (apply (bool_decide_unpack _); vm_compute; reflexivity).
  simpl in Hsub. lia.
Qed.

Lemma regex_cache_is_bounded_witness :
  Highlight.known_keys
    (Highlight.highlight (H := ascii_only) (cps "py") comment_line ∅).2 /\
  size (Highlight.highlight (H := ascii_only) (cps "py") comment_line ∅).2
  <= 15.
Proof.
  apply (regex_cache_is_bounded (H := ascii_only)).
  apply Highlight.cache_highlighted, Highlight.cache_initial.
Defined.

(** ** Operations on lines *)

Section LinesFacts.
Import Bracket Typing Lines.
Local Open Scope Z_scope.

Lemma count_newlines_app (a b : text) :
  count_newlines (a ++ b) = (count_newlines a + count_newlines b)%nat.
Proof. unfold count_newlines. by rewrite filter_app, length_app. Qed.

Lemma count_newlines_nonl (l : text) : nonl l -> count_newlines l = 0%nat.
Proof.
  unfold nonl, count_newlines. induction l as [|c l IH]; [done|].
  intros Hn. rewrite filter_cons.
  destruct (decide (c = NL)) as [->|Hne].
  - exfalso. apply Hn. by left.
  - apply IH. intros Hin. apply Hn. by right.
Qed.

Lemma nonl_cons (c : N) (l : text) : nonl (c :: l) <-> c <> NL /\ nonl l.
Proof.
  unfold nonl. rewrite elem_of_cons. split.
  - intros Hn. split; [intros ->|]; tauto.
  - intros [Hc Hl] [E|Hin]; [by subst|done].
Qed.

Lemma nonl_app (a b : text) : nonl (a ++ b) <-> nonl a /\ nonl b.
Proof. unfold nonl. rewrite elem_of_app. tauto. Qed.

Lemma nonl_nil : nonl [].
Proof. unfold nonl. by intros ?%elem_of_nil. Qed.

Lemma closed_lines_cons (l : text) (ls : list text) :
  closed_lines (l :: ls) = l ++ NL :: closed_lines ls.
Proof. unfold closed_lines. simpl. by rewrite <- app_assoc. Qed.

Lemma closed_lines_snoc (ls : list text) (l : text) :
  closed_lines (ls ++ [l]) = closed_lines ls ++ l ++ [NL].
Proof.
  unfold closed_lines. rewrite map_app, concat_app. simpl.
  by rewrite app_nil_r.
Qed.

Lemma opened_lines_cons (l : text) (ls : list text) :
  opened_lines (l :: ls) = NL :: l ++ opened_lines ls.
Proof. done. Qed.

Lemma opened_lines_head (ls : list text) :
  opened_lines ls = [] \/ exists r, opened_lines ls = NL :: r.
Proof. destruct ls as [|l ls]; [by left|right]. by eexists. Qed.

Lemma count_newlines_closed (ls : list text) :
  Forall nonl ls -> count_newlines (closed_lines ls) = length ls.
Proof.
  induction 1 as [|l ls Hl _ IH]; [done|].
  rewrite closed_lines_cons, count_newlines_app, count_newlines_nonl by done.
  change (NL :: closed_lines ls) with ([NL] ++ closed_lines ls).
  rewrite count_newlines_app, IH. done.
Qed.

Lemma count_newlines_opened (ls : list text) :
  Forall nonl ls -> count_newlines (opened_lines ls) = length ls.
Proof.
  induction 1 as [|l ls Hl _ IH]; [done|].
  rewrite opened_lines_cons.
  change (NL :: l ++ opened_lines ls) with ([NL] ++ l ++ opened_lines ls).
  rewrite !count_newlines_app, (count_newlines_nonl l), IH by done. done.
Qed.

Lemma skip_lines_0 (t : text) : skip_lines t 0 = 0%nat.
Proof. by destruct t. Qed.

Lemma skip_lines_line (l rest : text) (k : nat) :
  nonl l ->
  skip_lines (l ++ NL :: rest) (S k)
  = (length l + 1 + skip_lines rest k)%nat.
Proof.
  induction l as [|c l IH]; intros Hn; simpl.
  - done.
  - apply nonl_cons in Hn as [Hc Hl].
    rewrite (proj2 (N.eqb_neq c NL) Hc). by rewrite IH.
Qed.

Lemma skip_lines_closed (pre : list text) (rest : text) (k : nat) :
  Forall nonl pre ->
  skip_lines (closed_lines pre ++ rest) (length pre + k)
  = (length (closed_lines pre) + skip_lines rest k)%nat.
Proof.
  induction 1 as [|l pre Hl _ IH]; [done|].
  rewrite closed_lines_cons, <- app_assoc. simpl length.
  rewrite <- app_comm_cons.
  change (S (length pre) + k)%nat with (S (length pre + k)).
  rewrite skip_lines_line by done. rewrite IH.
  rewrite !length_app. simpl. lia.
Qed.

Lemma skip_lines_short (t : text) : forall k,
  (count_newlines t < k)%nat -> skip_lines t k = length t.
Proof.
  induction t as [|c t IH]; intros [|k] Hk; try done; [simpl in Hk; lia|].
  simpl. f_equal. unfold count_newlines in Hk. rewrite filter_cons in Hk.
  destruct (N.eqb_spec c NL) as [->|Hne].
  - rewrite decide_True in Hk by done. simpl in Hk. apply IH.
    unfold count_newlines. lia.
  - rewrite decide_False in Hk by done. apply IH.
    unfold count_newlines. lia.
Qed.

Lemma line_len_line (l rest : text) :
  nonl l -> rest = [] \/ (exists r, rest = NL :: r) ->
  line_len (l ++ rest) = length l.
Proof.
  intros Hn Hr. induction l as [|c l IH]; simpl.
  - by destruct Hr as [->|[r ->]].
  - apply nonl_cons in Hn as [Hc Hl].
    rewrite (proj2 (N.eqb_neq c NL) Hc). by rewrite IH.
Qed.

Lemma tk_get_mid (a b c : text) :
  tk_get (a ++ b ++ c) (Z.of_nat (length a))
    (Z.of_nat (length a) + Z.of_nat (length b)) = b.
Proof.
  unfold tk_get.
  rewrite !clamp_inside by (rewrite !length_app; simpl; lia).
  rewrite Nat2Z.id.
  replace (Z.to_nat (Z.of_nat (length a) + Z.of_nat (length b))
           - length a)%nat with (length b) by lia.
  rewrite <- !app_assoc, drop_app_length. by rewrite take_app_length.
Qed.

(** A line in its text. *)
Lemma line_canon (pre : list text) (l : text) (post : list text) :
  Forall nonl pre -> nonl l ->
  let content := closed_lines pre ++ l ++ opened_lines post in
  let n := Z.of_nat (length pre) + 1 in
  line_start content n = Z.of_nat (length (closed_lines pre)) /\
  line_end content n
  = Z.of_nat (length (closed_lines pre)) + Z.of_nat (length l) /\
  get_line content n = l /\
  (forall i,
      Z.of_nat (length (closed_lines pre)) <= i
      <= Z.of_nat (length (closed_lines pre)) + Z.of_nat (length l) ->
      line_of content i = n).
Proof.
  intros Hpre Hl content n.
  assert (Hs : line_start content n = Z.of_nat (length (closed_lines pre))).
  { unfold line_start, content, n.
    replace (Z.to_nat (Z.of_nat (length pre) + 1 - 1))
      with (length pre + 0)%nat by lia.
    rewrite skip_lines_closed, skip_lines_0 by done. lia. }
  assert (He : line_end content n
               = Z.of_nat (length (closed_lines pre)) +
                 Z.of_nat (length l)).
  { unfold line_end. rewrite Hs, Nat2Z.id. unfold content.
    rewrite drop_app_length, line_len_line;
      [done|done|apply opened_lines_head]. }
  split; [done|]. split; [done|]. split.
  - unfold get_line. rewrite Hs, He. apply tk_get_mid.
  - intros i Hi. unfold line_of, n.
    assert (Hcount :
      count_newlines (take (clamp (length content + 1) i) (content ++ [NL]))
      = length pre); [|lia].
    rewrite clamp_inside by (unfold content; rewrite !length_app; lia).
    unfold content. rewrite <- !app_assoc.
    rewrite take_app_ge by lia.
    rewrite take_app_le by lia.
    rewrite count_newlines_app, count_newlines_closed by done.
    rewrite count_newlines_nonl; [lia|].
    intros Hin. apply Hl. eapply elem_of_sublist; [exact Hin|].
    apply sublist_take.
Qed.

Lemma replace_line_canon (pre : list text) (l l' : text)
    (post : list text) :
  Forall nonl pre -> nonl l ->
  replace_line (closed_lines pre ++ l ++ opened_lines post)
    (Z.of_nat (length pre) + 1) l'
  = closed_lines pre ++ l' ++ opened_lines post.
Proof.
  intros Hpre Hl. unfold replace_line.
  destruct (line_canon pre l post Hpre Hl) as (-> & -> & _).
  rewrite tk_delete_at.
  pose proof (line_canon pre [] post Hpre nonl_nil) as (Hs & _).
  simpl in Hs. rewrite Hs. apply tk_insert_at.
Qed.

(** Every offset of a text is on a line. *)
Lemma closed_prefix (t : text) :
  exists pre a, t = closed_lines pre ++ a /\ Forall nonl pre /\ nonl a.
Proof.
  induction t as [|c t (pre & a & -> & Hpre & Ha)].
  - exists [], []. repeat split; [constructor|apply nonl_nil].
  - destruct (decide (c = NL)) as [->|Hne].
    + exists ([] :: pre), a. repeat split; [|done].
      constructor; [apply nonl_nil|done].
    + destruct pre as [|p pre].
      * exists [], (c :: a). repeat split; [constructor|].
        by apply nonl_cons.
      * exists ((c :: p) :: pre), a.
        apply Forall_cons in Hpre as [Hp Hpre]. repeat split; [|done].
        constructor; [by apply nonl_cons|done].
Qed.

Lemma opened_suffix (t : text) :
  exists b post, t = b ++ opened_lines post /\ nonl b /\ Forall nonl post.
Proof.
  induction t as [|c t (b & post & -> & Hb & Hpost)].
  - exists [], []. repeat split; [apply nonl_nil|constructor].
  - destruct (decide (c = NL)) as [->|Hne].
    + exists [], (b :: post). repeat split; [apply nonl_nil|].
      by constructor.
    + exists (c :: b), post. repeat split; [|done]. by apply nonl_cons.
Qed.

Lemma line_at (content : text) (i : Z) :
  0 <= i <= Z.of_nat (length content) ->
  exists pre l post,
    content = closed_lines pre ++ l ++ opened_lines post /\
    Forall nonl pre /\ nonl l /\ Forall nonl post /\
    Z.of_nat (length (closed_lines pre)) <= i
    <= Z.of_nat (length (closed_lines pre)) + Z.of_nat (length l).
Proof.
  intros Hi.
  destruct (closed_prefix (take (Z.to_nat i) content))
    as (pre & a & Ea & Hpre & Ha).
  destruct (opened_suffix (drop (Z.to_nat i) content))
    as (b & post & Eb & Hb & Hpost).
  exists pre, (a ++ b), post.
  assert (Hlen : length (take (Z.to_nat i) content) = Z.to_nat i)
    by (rewrite length_take; lia).
  rewrite Ea, length_app in Hlen.
  split; [|split; [done|split; [by apply nonl_app|split; [done|]]]].
  - rewrite <- (take_drop (Z.to_nat i) content) at 1.
    by rewrite Ea, Eb, <- !app_assoc.
  - rewrite length_app. lia.
Qed.

(** The lines of a text, as [split] gives them. *)
Lemma split_nonl (l : text) : nonl l -> split NL l = [l].
Proof.
  induction l as [|c l IH]; [done|]. intros [Hc Hl]%nonl_cons. simpl.
  rewrite (proj2 (N.eqb_neq c NL) Hc). by rewrite IH.
Qed.

Lemma split_line (l rest : text) :
  nonl l -> split NL (l ++ NL :: rest) = l :: split NL rest.
Proof.
  induction l as [|c l IH]; [done|]. intros [Hc Hl]%nonl_cons. simpl.
  rewrite (proj2 (N.eqb_neq c NL) Hc). by rewrite IH.
Qed.

Lemma split_unlines (l : text) (ls : list text) :
  nonl l -> Forall nonl ls -> split NL (unlines (l :: ls)) = l :: ls.
Proof.
  intros Hl Hls. revert l Hl. induction Hls as [|l' ls Hl' _ IH];
    intros l Hl; unfold unlines.
  - change (opened_lines []) with (@nil N).
    rewrite app_nil_r. by apply split_nonl.
  - rewrite opened_lines_cons, split_line by done. f_equal.
    exact (IH l' Hl').
Qed.

Lemma opened_lines_app (pre : list text) (l : text) (post : list text) :
  opened_lines (pre ++ l :: post)
  = NL :: closed_lines pre ++ l ++ opened_lines post.
Proof.
  induction pre as [|a pre IH]; [done|].
  rewrite <- app_comm_cons, opened_lines_cons, IH, closed_lines_cons.
  by rewrite <- app_assoc.
Qed.

Lemma unlines_app (pre : list text) (l : text) (post : list text) :
  unlines (pre ++ l :: post)
  = closed_lines pre ++ l ++ opened_lines post.
Proof.
  destruct pre as [|a pre]; [done|].
  rewrite <- app_comm_cons. simpl unlines.
  by rewrite opened_lines_app, closed_lines_cons, <- app_assoc.
Qed.

Lemma split_canon (pre : list text) (l : text) (post : list text) :
  Forall nonl pre -> nonl l -> Forall nonl post ->
  split NL (closed_lines pre ++ l ++ opened_lines post) = pre ++ l :: post.
Proof.
  intros Hpre Hl Hpost. rewrite <- unlines_app.
  destruct pre as [|a pre].
  - by apply split_unlines.
  - apply Forall_cons in Hpre as [Ha Hpre]. rewrite <- app_comm_cons.
    apply split_unlines; [done|]. apply Forall_app. split; [done|].
    by constructor.
Qed.

(** The two lines [move_line_up] and [move_line_down] work on. *)
Lemma two_lines (pre : list text) (a b : text) (post : list text) :
  closed_lines pre ++ a ++ opened_lines (b :: post)
  = closed_lines (pre ++ [a]) ++ b ++ opened_lines post.
Proof.
  by rewrite closed_lines_snoc, opened_lines_cons, <- !app_assoc.
Qed.

Lemma delete_two_lines (pre : list text) (a b : text) (post : list text) :
  tk_delete (closed_lines pre ++ a ++ opened_lines (b :: post))
    (Z.of_nat (length (closed_lines pre)))
    (Z.of_nat (length (closed_lines pre) + (length a + 1)) +
     Z.of_nat (length b))
  = closed_lines pre ++ opened_lines post.
Proof.
  pose proof (tk_delete_at (closed_lines pre) (a ++ [NL] ++ b)
                (opened_lines post)) as E.
  rewrite !length_app in E. simpl length in E.
  rewrite opened_lines_cons.
  rewrite <- !app_assoc in E. simpl in E.
  rewrite <- E. f_equal. lia.
Qed.

Lemma move_line_up_canon (pre : list text) (a b : text)
    (post : list text) (i : Z) :
  Forall nonl pre -> nonl a -> nonl b ->
  Z.of_nat (length (closed_lines (pre ++ [a]))) <= i
  <= Z.of_nat (length (closed_lines (pre ++ [a]))) + Z.of_nat (length b) ->
  move_line_up (closed_lines pre ++ a ++ opened_lines (b :: post)) i
  = (closed_lines pre ++ b ++ opened_lines (a :: post),
     Z.of_nat (length (closed_lines pre))).
Proof.
  intros Hpre Ha Hb Hi.
  assert (Hpre' : Forall nonl (pre ++ [a]))
    by (apply Forall_app; split; [done|by constructor]).
  destruct (line_canon pre a (b :: post) Hpre Ha) as (Hs1 & He1 & Hg1 & _).
  destruct (line_canon (pre ++ [a]) b post Hpre' Hb)
    as (Hs2 & He2 & Hg2 & Hl2).
  cbv zeta in Hs1, He1, Hg1, Hs2, He2, Hg2, Hl2.
  rewrite <- two_lines in Hs2, He2, Hg2, Hl2.
  rewrite length_app in Hs2, He2, Hg2, Hl2. simpl length in *.
  unfold move_line_up. rewrite (Hl2 i Hi).
  destruct (Z.ltb_spec 1 (Z.of_nat (length pre + 1) + 1)); [|lia].
  replace (Z.of_nat (length pre + 1) + 1 - 1)
    with (Z.of_nat (length pre) + 1) by lia.
  rewrite Hg1, Hg2, Hs1, He2.
  rewrite closed_lines_snoc, !length_app. simpl length.
  rewrite delete_two_lines.
  pose proof (line_canon pre [] post Hpre nonl_nil) as (Hs3 & _).
  simpl in Hs3. rewrite Hs3, tk_insert_at.
  assert (Hnew : closed_lines pre ++ (b ++ [NL] ++ a) ++ opened_lines post
                 = closed_lines pre ++ b ++ opened_lines (a :: post))
    by (by rewrite opened_lines_cons, <- !app_assoc).
  rewrite Hnew.
  by destruct (line_canon pre b (a :: post) Hpre Hb) as (-> & _).
Qed.

Lemma last_line_count (content : text) :
  last_line content = 1 + Z.of_nat (count_newlines content).
Proof.
  unfold last_line, line_of.
  rewrite clamp_inside by lia. by rewrite Nat2Z.id, take_app_length.
Qed.

Lemma move_line_down_canon (pre : list text) (a b : text)
    (post : list text) (i : Z) :
  Forall nonl pre -> nonl a -> nonl b ->
  Z.of_nat (length (closed_lines pre)) <= i
  <= Z.of_nat (length (closed_lines pre)) + Z.of_nat (length a) ->
  move_line_down (closed_lines pre ++ a ++ opened_lines (b :: post)) i
  = (closed_lines pre ++ b ++ opened_lines (a :: post),
     Z.of_nat (length (closed_lines (pre ++ [b])))).
Proof.
  intros Hpre Ha Hb Hi.
  assert (Hpre' : Forall nonl (pre ++ [a]))
    by (apply Forall_app; split; [done|by constructor]).
  assert (Hpre'' : Forall nonl (pre ++ [b]))
    by (apply Forall_app; split; [done|by constructor]).
  destruct (line_canon pre a (b :: post) Hpre Ha)
    as (Hs1 & He1 & Hg1 & Hl1).
  destruct (line_canon (pre ++ [a]) b post Hpre' Hb)
    as (Hs2 & He2 & Hg2 & _).
  cbv zeta in Hs1, He1, Hg1, Hl1, Hs2, He2, Hg2.
  rewrite <- two_lines in Hs2, He2, Hg2.
  rewrite length_app in Hs2, He2, Hg2. simpl length in *.
  unfold move_line_down. rewrite (Hl1 i Hi).
  assert (Hlast : Z.of_nat (length pre) + 1
                  < last_line (closed_lines pre ++ a ++
                                 opened_lines (b :: post))).
  { rewrite last_line_count, opened_lines_cons.
    change (NL :: b ++ opened_lines post)
      with ([NL] ++ b ++ opened_lines post).
    rewrite !count_newlines_app, count_newlines_closed by done.
    change (count_newlines [NL]) with 1%nat. lia. }
  rewrite (proj2 (Z.ltb_lt _ _) Hlast).
  replace (Z.of_nat (length pre) + 1 + 1)
    with (Z.of_nat (length pre + 1) + 1) by lia.
  rewrite Hg1, Hg2, Hs1, He2.
  rewrite closed_lines_snoc, !length_app. simpl length.
  rewrite delete_two_lines.
  pose proof (line_canon pre [] post Hpre nonl_nil) as (Hs3 & _).
  simpl in Hs3. rewrite Hs3, tk_insert_at.
  assert (Hnew : closed_lines pre ++ (b ++ [NL] ++ a) ++ opened_lines post
                 = closed_lines pre ++ b ++ opened_lines (a :: post))
    by (by rewrite opened_lines_cons, <- !app_assoc).
  rewrite Hnew. f_equal.
  destruct (line_canon (pre ++ [b]) a post Hpre'' Ha) as (Hs4 & _).
  cbv zeta in Hs4.
  rewrite <- two_lines in Hs4. rewrite length_app in Hs4. exact Hs4.
Qed.

(** The mark is on a line behind the first: the line and the one above. *)
Lemma line_above (content : text) (i : Z) :
  0 <= i <= Z.of_nat (length content) -> 1 < line_of content i ->
  exists pre a b post,
    content = closed_lines pre ++ a ++ opened_lines (b :: post) /\
    Forall nonl pre /\ nonl a /\ nonl b /\ Forall nonl post /\
    line_of content i = Z.of_nat (length pre) + 2 /\
    Z.of_nat (length (closed_lines (pre ++ [a]))) <= i
    <= Z.of_nat (length (closed_lines (pre ++ [a]))) + Z.of_nat (length b).
Proof.
  intros Hi Hline.
  destruct (line_at content i Hi)
    as (pre & b & post & E & Hpre & Hb & Hpost & Hrange).
  destruct (line_canon pre b post Hpre Hb) as (_ & _ & _ & Hl).
  cbv zeta in Hl.
  rewrite <- E in Hl. specialize (Hl i Hrange). rewrite Hl in Hline.
  destruct pre as [|a' pre' _] using rev_ind; [simpl in Hline; lia|].
  apply Forall_app in Hpre as [Hpre Ha].
  apply Forall_cons in Ha as [Ha _].
  exists pre', a', b, post. rewrite two_lines.
  rewrite length_app in Hl. simpl in Hl.
  repeat split; try done; lia.
Qed.
End LinesFacts.



(** [move_line_up] makes the line of the mark and the line above it change
    places, leaves the other lines as they are, and takes the mark along. *)
Theorem move_line_up_swaps (content : text) (i : Z) :
  (0 <= i <= Z.of_nat (length content))%Z ->
  (1 < Lines.line_of content i)%Z ->
  exists pre a b post,
    split NL content = pre ++ a :: b :: post /\
    Lines.line_of content i = (Z.of_nat (length pre) + 2)%Z /\
    split NL (Lines.move_line_up content i).1 = pre ++ b :: a :: post /\
    Lines.line_of (Lines.move_line_up content i).1
      (Lines.move_line_up content i).2
    = (Z.of_nat (length pre) + 1)%Z.
Proof.
  intros Hi Hline.
  destruct (line_above content i Hi Hline)
    as (pre & a & b & post & -> & Hpre & Ha & Hb & Hpost & Hl & Hrange).
  exists pre, a, b, post.
  rewrite (move_line_up_canon pre a b post i) by done. simpl.
  split; [|split; [done|split]].
  - apply split_canon; [done..|]. by constructor.
  - apply split_canon; [done..|]. by constructor.
  - destruct (line_canon pre b (a :: post) Hpre Hb) as (_ & _ & _ & Hl').
    apply Hl'. lia.
Qed.

Lemma move_line_up_swaps_witness :
  exists pre a b post,
    split NL three_lines = pre ++ a :: b :: post /\
    Lines.line_of three_lines 4 = (Z.of_nat (length pre) + 2)%Z /\
    split NL (Lines.move_line_up three_lines 4).1 = pre ++ b :: a :: post /\
    Lines.line_of (Lines.move_line_up three_lines 4).1
      (Lines.move_line_up three_lines 4).2
    = (Z.of_nat (length pre) + 1)%Z.
Proof.
  apply move_line_up_swaps.
  - vm_compute. split; discriminate.
  - vm_compute. reflexivity.
Defined.

(** [duplicate_line] without a selection puts a copy of the line of the
    mark below it and leaves the other lines as they are. *)
Theorem duplicate_line_copies (w : Typing.widget) :
  Typing.w_sel w = None ->
  (0 <= Typing.w_insert w <= Z.of_nat (length (Typing.w_text w)))%Z ->
  exists pre l post,
    split NL (Typing.w_text w) = pre ++ l :: post /\
    Lines.line_of (Typing.w_text w) (Typing.w_insert w)
    = (Z.of_nat (length pre) + 1)%Z /\
    split NL (Lines.duplicate_line w).1 = pre ++ l :: l :: post.
Proof.
  intros Hsel Hi. destruct w as [content i sel]. simpl in *. subst sel.
  destruct (line_at content i Hi)
    as (pre & l & post & -> & Hpre & Hl & Hpost & Hrange).
  destruct (line_canon pre l post Hpre Hl) as (_ & He & Hg & Hline).
  cbv zeta in He, Hg, Hline.
  exists pre, l, post. split; [by apply split_canon|].
  split; [by apply Hline|].
  unfold Lines.duplicate_line.
  cbn [Typing.w_sel Typing.w_text Typing.w_insert]. cbv zeta. cbn [fst].
  rewrite (Hline i Hrange), He, Hg.
  pose proof (tk_insert_at (Lines.closed_lines pre ++ l)
                (Lines.opened_lines post) (NL :: l)) as E.
  rewrite length_app, <- !app_assoc, Nat2Z.inj_add in E. rewrite E.
  change (Lines.closed_lines pre ++ l ++ (NL :: l) ++ Lines.opened_lines post)
    with (Lines.closed_lines pre ++ l ++ Lines.opened_lines (l :: post)).
  apply split_canon; [done..|]. by constructor.
Qed.

Lemma duplicate_line_copies_witness :
  exists pre l post,
    split NL (Typing.w_text plain_widget) = pre ++ l :: post /\
    Lines.line_of (Typing.w_text plain_widget) (Typing.w_insert plain_widget)
    = (Z.of_nat (length pre) + 1)%Z /\
    split NL (Lines.duplicate_line plain_widget).1 = pre ++ l :: l :: post.
Proof.
  apply duplicate_line_copies.
  - reflexivity.
  - vm_compute. split; discriminate.
Defined.

(** ** Comments *)

Section ToggleFacts.
Import Bracket Typing Lines.
Context `{unicode_data}.
Local Open Scope Z_scope.

Lemma lstrip_head (t : text) (c : N) (r : text) :
  lstrip t = c :: r -> isspace c = false.
Proof.
  induction t as [|a t IH]; [done|]. simpl.
  destruct (isspace a) eqn:Ea; [done|]. by intros [= <- <-].
Qed.

Lemma lstrip_idem (t : text) : lstrip (lstrip t) = lstrip t.
Proof.
  destruct (lstrip t) as [|c r] eqn:E; [done|].
  simpl. by rewrite (lstrip_head t c r E).
Qed.

Lemma lstrip_elem (t : text) (x : N) : x ∈ lstrip t -> x ∈ t.
Proof.
  destruct (lstrip_suffix t) as (ind & E & _). intros Hx.
  rewrite E. apply elem_of_app. by right.
Qed.

Lemma strip_nil (t : text) : strip t = [] <-> lstrip t = [].
Proof.
  unfold strip, rstrip. split.
  - intros E. destruct (lstrip t) as [|c r] eqn:El; [done|]. exfalso.
    apply (f_equal reverse) in E. rewrite reverse_involutive in E.
    change (reverse []) with (@nil N) in E.
    apply lstrip_nil_spaces in E.
    rewrite Forall_forall in E.
    assert (Hc : isspace c = true).
    { apply E, elem_of_reverse. by left. }
    by rewrite (lstrip_head t c r El) in Hc.
  - by intros ->.
Qed.

Lemma truth_strip (t : text) :
  truth (strip t) = match lstrip t with [] => false | _ :: _ => true end.
Proof.
  destruct (lstrip t) as [|c r] eqn:E.
  - by rewrite (proj2 (strip_nil t) E).
  - destruct (strip t) eqn:Es; [|done].
    apply strip_nil in Es. congruence.
Qed.

Lemma indent_split (t : text) :
  exists ind,
    Forall (fun c => isspace c = true) ind /\
    t = ind ++ lstrip t /\
    take (length t - length (lstrip t)) t = ind /\
    drop (length t - length (lstrip t)) t = lstrip t.
Proof.
  destruct (lstrip_suffix t) as (ind & E & Hsp & Hlen).
  exists ind. split; [done|]. split; [done|]. rewrite <- Hlen. split.
  - rewrite E at 1. by rewrite take_app_length.
  - rewrite E at 1. by rewrite drop_app_length.
Qed.

Lemma startswith_app (p r : text) : startswith (p ++ r) p = true.
Proof. apply MinimapFacts.startswith_prefix. by exists r. Qed.

Lemma comment_symbol_ok (ext : text) : symbol_ok (comment_symbol ext).
Proof.
  assert (Hall : Forall symbol_ok
                   (cps "#" :: (comment_symbols.*2))).
  { repeat constructor;
      (intros Hin; apply list_elem_of_In in Hin; simpl in Hin;
       intuition discriminate) || (eexists _, _; split; reflexivity). }
  rewrite Forall_forall in Hall. apply Hall.
  unfold comment_symbol.
  destruct (_ !! ext) as [c|] eqn:E; simpl; [|by left].
  right. apply elem_of_list_to_map_2 in E.
  change (c ∈ comment_symbols.*2).
  apply list_elem_of_fmap. by exists (ext, c).
Qed.

Lemma toggled_add (c l : text) :
  toggled false c l
  = match lstrip l with
    | [] => l
    | _ :: _ =>
        take (length l - length (lstrip l)) l ++ c ++ cps " " ++ lstrip l
    end.
Proof.
  unfold toggled. rewrite truth_strip.
  destruct (indent_split l) as (ind & _ & _ & _ & Hd).
  destruct (lstrip l) eqn:E; [done|]. by rewrite Hd.
Qed.

Lemma toggled_back (c l : text) :
  symbol_ok c -> toggled true c (toggled false c l) = l.
Proof.
  intros (_ & c0 & c' & -> & Hc0). rewrite toggled_add.
  destruct (indent_split l) as (ind & Hsp & El & Ht & Hd).
  destruct (lstrip l) as [|r0 r] eqn:E.
  - unfold toggled. by rewrite E.
  - rewrite Ht.
    assert (Hr0 : isspace r0 = false) by apply (lstrip_head l r0 r E).
    set (l1 := ind ++ (c0 :: c') ++ cps " " ++ r0 :: r).
    assert (Hl1 : lstrip l1 = (c0 :: c') ++ cps " " ++ r0 :: r).
    { unfold l1. rewrite lstrip_app_spaces by done. simpl. by rewrite Hc0. }
    unfold toggled. rewrite Hl1, startswith_app.
    assert (Hind : (length l1 - length ((c0 :: c') ++ cps " " ++ r0 :: r)
                    = length ind)%nat)
      by (unfold l1; rewrite !length_app; lia).
    rewrite Hind. unfold l1 at 1 2.
    rewrite take_app_length, drop_app_length.
    assert (Hs : lstrip ((c0 :: c') ++ cps " " ++ r0 :: r)
                 = (c0 :: c') ++ cps " " ++ r0 :: r)
      by (simpl; by rewrite Hc0).
    rewrite Hs, drop_app_length.
    assert (Hsp32 : isspace 32 = true) by reflexivity.
    change (cps " " ++ r0 :: r) with (32%N :: r0 :: r).
    cbn [lstrip]. rewrite Hsp32, Hr0. by rewrite El.
Qed.

(** A line the second loop has put the symbol on passes the test of the
    first loop. *)
Lemma toggled_passes (c l : text) :
  symbol_ok c ->
  negb (truth (strip (toggled false c l)) &&
        negb (startswith (lstrip (toggled false c l)) c)) = true.
Proof.
  intros (_ & c0 & c' & -> & Hc0). rewrite toggled_add.
  destruct (indent_split l) as (ind & Hsp & El & Ht & Hd).
  destruct (lstrip l) as [|r0 r] eqn:E.
  - by rewrite truth_strip, E.
  - assert (Hs : lstrip ((c0 :: c') ++ cps " " ++ r0 :: r)
                 = (c0 :: c') ++ cps " " ++ r0 :: r)
      by (simpl; by rewrite Hc0).
    rewrite Ht, truth_strip. rewrite !lstrip_app_spaces by done.
    rewrite Hs, startswith_app. by rewrite <- app_comm_cons.
Qed.

Lemma toggled_nil (ac : bool) (c : text) :
  symbol_ok c -> toggled ac c [] = [].
Proof. intros (_ & c0 & c' & -> & _). by destruct ac. Qed.

Lemma toggled_nonl (ac : bool) (c l : text) :
  symbol_ok c -> nonl l -> nonl (toggled ac c l).
Proof.
  intros (Hc & _) Hl. unfold toggled.
  assert (Htake : forall n, nonl (take n l)).
  { intros n Hin. apply Hl. eapply elem_of_sublist; [exact Hin|].
    apply sublist_take. }
  assert (Hdrop : forall n t, nonl t -> nonl (drop n t)).
  { intros n t Ht Hin. apply Ht. eapply elem_of_sublist; [exact Hin|].
    apply sublist_drop. }
  assert (Hstrip : forall t, nonl t -> nonl (lstrip t)).
  { intros t Ht Hin. by apply Ht, lstrip_elem. }
  destruct ac.
  - destruct (startswith _ _); [|done].
    apply nonl_app. split; [done|]. auto.
  - destruct (truth _); [|done].
    rewrite !nonl_app. repeat split; auto.
    intros Hin. apply list_elem_of_In in Hin. simpl in Hin.
    intuition discriminate.
Qed.

Lemma count_newlines_unlines (l : text) (ls : list text) :
  nonl l -> Forall nonl ls ->
  count_newlines (unlines (l :: ls)) = length ls.
Proof.
  intros Hl Hls. unfold unlines.
  by rewrite count_newlines_app, count_newlines_nonl, count_newlines_opened.
Qed.

Lemma get_line_beyond (content : text) (n : Z) :
  (count_newlines content < Z.to_nat (n - 1))%nat ->
  get_line content n = [].
Proof.
  intros Hn. unfold get_line, line_end, line_start.
  rewrite skip_lines_short by done.
  rewrite Nat2Z.id, drop_all. simpl line_len.
  unfold tk_get.
  rewrite !clamp_inside by (rewrite length_app; simpl; lia).
  replace (Z.to_nat (Z.of_nat (length content) + Z.of_nat 0)
           - Z.to_nat (Z.of_nat (length content)))%nat with 0%nat by lia.
  done.
Qed.

Lemma toggle_line_beyond (ac : bool) (c content : text) (n : Z) :
  symbol_ok c -> get_line content n = [] ->
  toggle_line ac c content n = content.
Proof.
  intros (_ & c0 & c' & -> & _) Hg. unfold toggle_line. rewrite Hg.
  by destruct ac.
Qed.

Lemma toggle_line_at (ac : bool) (c : text) (pre : list text) (l : text)
    (post : list text) :
  Forall nonl pre -> nonl l ->
  toggle_line ac c (closed_lines pre ++ l ++ opened_lines post)
    (Z.of_nat (length pre) + 1)
  = closed_lines pre ++ toggled ac c l ++ opened_lines post.
Proof.
  intros Hpre Hl. unfold toggle_line, toggled.
  destruct (line_canon pre l post Hpre Hl) as (_ & _ & -> & _).
  destruct ac.
  - destruct (startswith _ _); [|done]. by apply replace_line_canon.
  - destruct (truth _); [|done]. by apply replace_line_canon.
Qed.

Lemma alter_beyond {A} (f : A -> A) (l : list A) (k : nat) :
  l !! k = None -> alter f k l = l.
Proof.
  intros Hk. apply list_eq. intros j. rewrite list_lookup_alter.
  destruct (decide (k = j)) as [<-|]; [by rewrite Hk|done].
Qed.

Lemma toggle_line_unlines (ac : bool) (c : text) (ls : list text)
    (k : nat) :
  symbol_ok c -> ls <> [] -> Forall nonl ls ->
  toggle_line ac c (unlines ls) (Z.of_nat k + 1)
  = unlines (alter (toggled ac c) k ls).
Proof.
  intros Hc Hne Hls. destruct (ls !! k) as [l|] eqn:E.
  - pose proof (lookup_lt_Some _ _ _ E) as Hlt.
    pose proof (take_drop_middle ls k l E) as Els.
    set (pre := take k ls) in *. set (post := drop (S k) ls) in *.
    assert (Hk : length pre = k) by (unfold pre; rewrite length_take; lia).
    rewrite <- Els in Hls. apply Forall_app in Hls as [Hpre Hl].
    apply Forall_cons in Hl as [Hl Hpost].
    rewrite <- Els, unlines_app, <- Hk.
    rewrite toggle_line_at by done.
    rewrite alter_app_r_alt by lia. rewrite Nat.sub_diag. simpl alter.
    by rewrite unlines_app.
  - rewrite alter_beyond by done.
    apply toggle_line_beyond; [done|]. apply get_line_beyond.
    apply lookup_ge_None in E.
    destruct ls as [|l0 ls']; [done|].
    apply Forall_cons in Hls as [Hl0 Hls'].
    rewrite count_newlines_unlines by done. simpl in E. lia.
Qed.

Lemma get_line_unlines (ls : list text) (k : nat) :
  ls <> [] -> Forall nonl ls ->
  get_line (unlines ls) (Z.of_nat k + 1) = default [] (ls !! k).
Proof.
  intros Hne Hls. destruct (ls !! k) as [l|] eqn:E.
  - pose proof (lookup_lt_Some _ _ _ E) as Hlt.
    pose proof (take_drop_middle ls k l E) as Els.
    set (pre := take k ls) in *. set (post := drop (S k) ls) in *.
    assert (Hk : length pre = k) by (unfold pre; rewrite length_take; lia).
    rewrite <- Els in Hls. apply Forall_app in Hls as [Hpre Hl].
    apply Forall_cons in Hl as [Hl Hpost].
    rewrite <- Els, unlines_app, <- Hk.
    by destruct (line_canon pre l post Hpre Hl) as (_ & _ & -> & _).
  - apply get_line_beyond. apply lookup_ge_None in E.
    destruct ls as [|l0 ls']; [done|].
    apply Forall_cons in Hls as [Hl0 Hls'].
    rewrite count_newlines_unlines by done. simpl in E. lia.
Qed.

Lemma foldl_toggle (ac : bool) (c : text) (ks : list nat) :
  symbol_ok c -> forall ls,
  ls <> [] -> Forall nonl ls ->
  foldl (toggle_line ac c) (unlines ls)
    (map (fun k : nat => Z.of_nat k + 1) ks)
  = unlines (foldl (fun ls k => alter (toggled ac c) k ls) ls ks).
Proof.
  intros Hc. induction ks as [|k ks IH]; intros ls Hne Hls; [done|].
  simpl. rewrite toggle_line_unlines by done. apply IH.
  - intros E. apply (f_equal length) in E.
    rewrite length_alter in E. by destruct ls.
  - apply Forall_alter; [done|]. intros l _ Hl. by apply toggled_nonl.
Qed.

Lemma line_numbers_seq (s e : Z) :
  1 <= s ->
  line_numbers s e
  = map (fun k : nat => Z.of_nat k + 1)
      (seq (Z.to_nat (s - 1)) (Z.to_nat (e + 1 - s))).
Proof.
  intros Hs. unfold line_numbers.
  replace (seq (Z.to_nat (s - 1)) (Z.to_nat (e + 1 - s)))
    with (seq (Z.to_nat (s - 1) + 0) (Z.to_nat (e + 1 - s)))
    by (f_equal; lia).
  rewrite <- (fmap_add_seq (Z.to_nat (s - 1)) 0).
  rewrite map_map. apply map_ext. intros k. lia.
Qed.

Lemma foldl_alter_lookup {A} (g : A -> A) (ls : list A) (a n k : nat) :
  foldl (fun ls k => alter g k ls) ls (seq a n) !! k
  = if bool_decide (a <= k < a + n)%nat then g <$> ls !! k else ls !! k.
Proof.
  induction n as [|n IH].
  - simpl. rewrite bool_decide_eq_false_2 by lia. done.
  - rewrite seq_S, foldl_snoc, list_lookup_alter.
    destruct (decide (a + n = k)%nat) as [<-|Hne].
    + rewrite IH. rewrite bool_decide_eq_false_2 by lia.
      by rewrite bool_decide_eq_true_2 by lia.
    + rewrite IH. repeat case_bool_decide; (done || lia).
Qed.

Lemma text_lines (content : text) :
  exists ls, content = unlines ls /\ ls <> [] /\ Forall nonl ls.
Proof.
  destruct (line_at content 0) as (pre & l & post & -> & Hpre & Hl & Hpost & _);
    [lia|].
  exists (pre ++ l :: post). split; [by rewrite unlines_app|].
  split; [by destruct pre|].
  apply Forall_app. split; [done|]. by constructor.
Qed.
End ToggleFacts.

(** Lines that [toggle_comment] has put the comment symbol on get back
    what they were when it is called on them again: if a line of the range
    has text that does not begin with the symbol, so that the first call
    comments the lines, the second call takes off what the first put
    on. *)
Theorem toggle_comment_twice `{unicode_data} (ext content : text)
    (start_line end_line : Z) :
  (1 <= start_line)%Z ->
  Lines.all_commented (Lines.comment_symbol ext) content
    start_line end_line = false ->
  Lines.toggle_lines (Lines.comment_symbol ext)
    (Lines.toggle_lines (Lines.comment_symbol ext) content
       start_line end_line)
    start_line end_line
  = content.
Proof.
  intros Hs Hac.
  pose proof (comment_symbol_ok ext) as Hc.
  set (c := Lines.comment_symbol ext) in *.
  destruct (text_lines content) as (ls & -> & Hne & Hls).
  set (a := Z.to_nat (start_line - 1)).
  set (n := Z.to_nat (end_line + 1 - start_line)).
  set (ls1 := foldl (fun ls k => alter (Lines.toggled false c) k ls) ls
                (seq a n)).
  assert (Hne1 : ls1 <> []).
  { intros E. apply (f_equal (fun l => l !! 0%nat)) in E.
    unfold ls1 in E. rewrite foldl_alter_lookup in E.
    destruct ls; [done|]. by case_bool_decide. }
  assert (Hls1 : Forall Lines.nonl ls1).
  { apply Forall_lookup. intros k l Hk. unfold ls1 in Hk.
    rewrite foldl_alter_lookup in Hk.
    rewrite Forall_lookup in Hls.
    case_bool_decide.
    - destruct (ls !! k) as [l'|] eqn:E; [|done].
      change (Some (Lines.toggled false c l') = Some l) in Hk.
      assert (El : l = Lines.toggled false c l') by congruence.
      rewrite El. apply toggled_nonl; eauto.
    - eauto. }
  assert (E1 : Lines.toggle_lines c (Lines.unlines ls) start_line end_line
               = Lines.unlines ls1).
  { unfold Lines.toggle_lines. rewrite Hac.
    rewrite line_numbers_seq by done. by apply foldl_toggle. }
  rewrite E1.
  assert (Hac1 : Lines.all_commented c (Lines.unlines ls1)
                   start_line end_line = true).
  { unfold Lines.all_commented. rewrite line_numbers_seq by done.
    apply forallb_forall. intros x Hx.
    apply in_map_iff in Hx as (k & <- & Hk). apply in_seq in Hk.
    rewrite get_line_unlines by done. unfold ls1.
    rewrite foldl_alter_lookup.
    rewrite bool_decide_eq_true_2 by (unfold a, n in *; lia).
    destruct (ls !! k) as [l|]; simpl.
    - by apply toggled_passes.
    - destruct Hc as (_ & c0 & c' & -> & _). done. }
  unfold Lines.toggle_lines. rewrite Hac1.
  rewrite line_numbers_seq by done.
  rewrite foldl_toggle by done. f_equal.
  apply list_eq. intros k. rewrite foldl_alter_lookup. unfold ls1.
  rewrite foldl_alter_lookup.
  fold a n.
  destruct (bool_decide (a <= k < a + n)); [|done].
  destruct (ls !! k) as [l|]; [|done].
  change (Some (Lines.toggled true c (Lines.toggled false c l)) = Some l).
  by rewrite toggled_back.
Qed.

Lemma toggle_comment_twice_witness :
  Lines.toggle_lines (H := ascii_only) (Lines.comment_symbol (cps "py"))
    (Lines.toggle_lines (H := ascii_only) (Lines.comment_symbol (cps "py"))
       three_lines 1 3)
    1 3
  = three_lines.
Proof.
  apply (toggle_comment_twice (H := ascii_only)).
  - lia.
  - vm_compute. reflexivity.
Defined.

(** ** Open files and tabs *)

Section TabsFacts.
Import Highlight Tabs.
Context `{unicode_data}.

Lemma dict_get_set_eq (d : dict) (k : text) (v : file_info) :
  dict_get (dict_set d k v) k = Some v.
Proof.
  induction d as [|[k' v'] d IH]; simpl.
  - by rewrite decide_True.
  - destruct (decide (k = k')) as [->|Hne]; simpl.
    + by rewrite decide_True.
    + by rewrite decide_False.
Qed.

Lemma dict_get_set_ne (d : dict) (k k' : text) (v : file_info) :
  k <> k' -> dict_get (dict_set d k v) k' = dict_get d k'.
Proof.
  intros Hne. induction d as [|[k0 v0] d IH]; simpl.
  - by rewrite decide_False.
  - destruct (decide (k = k0)) as [->|Hk]; simpl.
    + by rewrite !decide_False.
    + destruct (decide (k' = k0)); [done|]. apply IH.
Qed.

Lemma dict_get_del_eq (d : dict) (k : text) :
  dict_get (dict_del d k) k = None.
Proof.
  unfold dict_del. induction d as [|[k0 v0] d IH]; [done|].
  rewrite filter_cons. simpl. destruct (decide (k0 <> k)) as [Hne|_].
  - simpl. by rewrite decide_False.
  - done.
Qed.

Lemma dict_get_del_ne (d : dict) (k k' : text) :
  k <> k' -> dict_get (dict_del d k) k' = dict_get d k'.
Proof.
  intros Hne. unfold dict_del. induction d as [|[k0 v0] d IH]; [done|].
  rewrite filter_cons. simpl. destruct (decide (k0 <> k)) as [H0|H0].
  - simpl. destruct (decide (k' = k0)); [done|]. apply IH.
  - apply dec_stable in H0. subst k0. by rewrite decide_False.
Qed.

Lemma dict_del_head (d : dict) (k first : text) (v : file_info)
    (rest : dict) :
  dict_del d k = (first, v) :: rest ->
  first <> k /\ dict_get d first = Some v.
Proof.
  intros E.
  assert (Hin : (first, v) ∈ dict_del d k) by (rewrite E; left).
  apply list_elem_of_filter in Hin as [Hne _]. split; [done|].
  rewrite <- (dict_get_del_ne d k first) by done.
  rewrite E. simpl. by rewrite decide_True.
Qed.

Lemma file_info_eta (i : file_info) :
  {| fi_path := fi_path i; fi_content := fi_content i;
     fi_modified := fi_modified i |} = i.
Proof. by destruct i. Qed.

(** [highlight_syntax] raises nothing and leaves the file and the text. *)
Lemma highlight_syntax_keeps (e : editor) :
  exists e',
    highlight_syntax e = Ok e' /\
    current_file e' = current_file e /\ content e' = content e.
Proof.
  unfold highlight_syntax.
  destruct (truthy (current_file e)) as [f|]; [|by exists e].
  destruct (extension_ok f) as [ext ->].
  destruct (highlight ext (content e) (regex_cache e)) as [added cache].
  by eexists.
Qed.

Lemma highlight_step_keeps (st : state) :
  exists st',
    highlight_step st = Return st' /\
    open_files st' = open_files st /\
    recent_files st' = recent_files st /\
    current_file (ed st') = current_file (ed st) /\
    content (ed st') = content (ed st).
Proof.
  unfold highlight_step.
  destruct (highlight_syntax_keeps (ed st)) as (e' & -> & Hf & Hc).
  by eexists.
Qed.

(** A switch that gets past the entry of the current file. *)
Lemma switch_to_file_goes (g : text) (st : state) (d : dict)
    (ginfo : file_info) :
  dict_get (open_files st) g = Some ginfo ->
  match truthy (current_file (ed st)) with
  | Some cur =>
      exists info,
        dict_get (open_files st) cur = Some info /\
        d = dict_set (open_files st) cur
              {| fi_path := fi_path info; fi_content := content (ed st);
                 fi_modified := fi_modified info |}
  | None => d = open_files st
  end ->
  exists st' shown,
    switch_to_file g st = Return st' /\
    open_files st' = d /\
    recent_files st' = recent_files st /\
    current_file (ed st') = Some g /\
    dict_get d g = Some shown /\
    content (ed st') = fi_content shown.
Proof.
  intros Hg Hcur. unfold switch_to_file. rewrite Hg.
  assert (Hd : exists shown, dict_get d g = Some shown).
  { destruct (truthy (current_file (ed st))) as [cur|].
    - destruct Hcur as (info & _ & ->).
      destruct (decide (cur = g)) as [->|Hne].
      + rewrite dict_get_set_eq. eauto.
      + rewrite dict_get_set_ne by done. eauto.
    - subst d. eauto. }
  destruct Hd as [shown Hshown].
  assert (Hsave :
    match truthy (current_file (ed st)) with
    | Some cur =>
        match dict_get (open_files st) cur with
        | None => Raise KeyError st
        | Some info =>
            Return
              (set_open_files
                 (dict_set (open_files st) cur
                    {| fi_path := fi_path info;
                       fi_content := content (ed st);
                       fi_modified := fi_modified info |})
                 st)
        end
    | None => Return st
    end = Return (set_open_files d st)).
  { destruct (truthy (current_file (ed st))) as [cur|].
    - destruct Hcur as (info & -> & ->). done.
    - subst d. by destruct st. }
  rewrite Hsave. cbn [bind]. cbv zeta.
  cbn [open_files set_ed set_open_files]. rewrite Hshown.
  match goal with
  | |- context [highlight_step ?s] =>
      destruct (highlight_step_keeps s) as (st' & -> & Ho & Hr & Hf & Hc)
  end.
  cbn [open_files recent_files ed set_ed set_open_files set_text
       set_current_file current_file content] in Ho, Hr, Hf, Hc.
  cbn [bind]. unfold update_title. rewrite Hf. simpl truthy.
  exists st', shown.
  destruct g as [|c g'].
  - simpl. by rewrite Ho, Hr, Hf, Hc.
  - rewrite Ho, Hshown. by rewrite Hr, Hf, Hc.
Qed.

Lemma switch_to_file_stale (st : state) (cur g : text) :
  truthy (current_file (ed st)) = Some cur ->
  dict_get (open_files st) cur = None ->
  is_Some (dict_get (open_files st) g) ->
  switch_to_file g st = Raise KeyError st.
Proof.
  intros Hcur Hno [ginfo Hg]. unfold switch_to_file.
  by rewrite Hg, Hcur, Hno.
Qed.
End TabsFacts.

(** [switch_to_file] to an open file raises exactly when the current file
    has no entry in [open_files]: then it raises [KeyError] and changes
    nothing; otherwise it ends with the file as the current one, and the
    current file has an entry again. *)
Theorem switching_raises_only_when_stale `{unicode_data}
    (st : Tabs.state) (g : text) (ginfo : Tabs.file_info) :
  Tabs.dict_get (Tabs.open_files st) g = Some ginfo ->
  (Tabs.current_open st ->
   exists st',
     Tabs.switch_to_file g st = Tabs.Return st' /\
     Tabs.current_open st' /\
     Highlight.current_file (Tabs.ed st') = Some g /\
     Tabs.recent_files st' = Tabs.recent_files st) /\
  (~ Tabs.current_open st ->
   Tabs.switch_to_file g st = Tabs.Raise Tabs.KeyError st).
Proof.
  intros Hg. unfold Tabs.current_open at 1 3. split.
  - intros Hopen.
    assert (Hgoes : exists st' shown,
               Tabs.switch_to_file g st = Tabs.Return st' /\
               Tabs.recent_files st' = Tabs.recent_files st /\
               Highlight.current_file (Tabs.ed st') = Some g /\
               Tabs.dict_get (Tabs.open_files st') g = Some shown).
    { destruct (Highlight.truthy (Highlight.current_file (Tabs.ed st)))
        as [cur|] eqn:Ecur.
      - destruct Hopen as [info Hinfo].
        destruct (switch_to_file_goes g st
                    (Tabs.dict_set (Tabs.open_files st) cur
                       {| Tabs.fi_path := Tabs.fi_path info;
                          Tabs.fi_content := Highlight.content (Tabs.ed st);
                          Tabs.fi_modified := Tabs.fi_modified info |})
                    ginfo Hg)
          as (st' & shown & ? & Ho & ? & ? & ? & _).
        { rewrite Ecur. by exists info. }
        exists st', shown. by rewrite Ho.
      - destruct (switch_to_file_goes g st (Tabs.open_files st) ginfo Hg)
          as (st' & shown & ? & Ho & ? & ? & ? & _).
        { by rewrite Ecur. }
        exists st', shown. by rewrite Ho. }
    destruct Hgoes as (st' & shown & E & Hr & Hc & Hs).
    exists st'. split; [done|]. split; [|done].
    unfold Tabs.current_open. rewrite Hc.
    destruct g as [|c g']; [done|]. simpl. rewrite Hs. by eexists.
  - intros Hstale.
    destruct (Highlight.truthy (Highlight.current_file (Tabs.ed st)))
      as [cur|] eqn:Ecur; [|done].
    apply (switch_to_file_stale st cur g); [done| |by eexists].
    destruct (Tabs.dict_get (Tabs.open_files st) cur) eqn:E; [|done].
    exfalso. apply Hstale. by eexists.
Qed.

Lemma switching_raises_only_when_stale_witness :
  (Tabs.current_open two_tabs ->
   exists st',
     Tabs.switch_to_file (H := ascii_only) (cps "b.py") two_tabs
     = Tabs.Return st' /\
     Tabs.current_open st' /\
     Highlight.current_file (Tabs.ed st') = Some (cps "b.py") /\
     Tabs.recent_files st' = Tabs.recent_files two_tabs) /\
  (~ Tabs.current_open two_tabs ->
   Tabs.switch_to_file (H := ascii_only) (cps "b.py") two_tabs
   = Tabs.Raise Tabs.KeyError two_tabs).
Proof.
  apply (switching_raises_only_when_stale (H := ascii_only) two_tabs
           (cps "b.py")
           {| Tabs.fi_path := Some (cps "/src/b.py");
              Tabs.fi_content := cps "y = 2";
              Tabs.fi_modified := false |}).
  reflexivity.
Defined.

(** Closing the current tab while another file is open raises [KeyError]:
    [close_file] takes the entry out of [open_files] and then calls
    [switch_to_file], which looks the entry of the current file up.  The
    entry is gone, the editor still shows the text of the closed file and
    still has it as the current file, and from then on [switch_to_file]
    raises [KeyError] for every file that is open. *)
Theorem closing_the_current_tab_raises `{unicode_data}
    (save_file : Tabs.state -> Tabs.run) (response : option bool)
    (st : Tabs.state) (f : text) (info : Tabs.file_info) :
  Highlight.truthy (Highlight.current_file (Tabs.ed st)) = Some f ->
  Tabs.dict_get (Tabs.open_files st) f = Some info ->
  Tabs.fi_modified info = false ->
  Tabs.dict_del (Tabs.open_files st) f <> [] ->
  let st' :=
    Tabs.set_open_files (Tabs.dict_del (Tabs.open_files st) f) st in
  Tabs.close_current_tab save_file response st
  = Tabs.Raise Tabs.KeyError st' /\
  ~ Tabs.current_open st' /\
  forall g,
    is_Some (Tabs.dict_get (Tabs.open_files st') g) ->
    Tabs.switch_to_file g st' = Tabs.Raise Tabs.KeyError st'.
Proof.
  intros Hcur Hf Hmod Hrest st'.
  assert (Hstale : forall g,
             is_Some (Tabs.dict_get (Tabs.open_files st') g) ->
             Tabs.switch_to_file g st' = Tabs.Raise Tabs.KeyError st').
  { intros g Hg. apply (switch_to_file_stale st' f g); [done| |done].
    apply dict_get_del_eq. }
  split; [|split; [|done]].
  - unfold Tabs.close_current_tab, Tabs.close_file.
    rewrite Hcur, Hf, Hmod. cbn [andb Tabs.bind]. rewrite Hf. cbv zeta.
    fold st'.
    destruct (Tabs.dict_del (Tabs.open_files st) f) as [|[first v] rest]
      eqn:E; [done|].
    apply Hstale. unfold st'. simpl.
    rewrite decide_True by done. by eexists.
  - unfold Tabs.current_open, st'. simpl. rewrite Hcur, dict_get_del_eq.
    by intros [? ?].
Qed.

Lemma closing_the_current_tab_raises_witness :
  Tabs.close_current_tab (H := ascii_only) Tabs.Return None two_tabs
  = Tabs.Raise Tabs.KeyError stale_tabs /\
  ~ Tabs.current_open stale_tabs /\
  forall g,
    is_Some (Tabs.dict_get (Tabs.open_files stale_tabs) g) ->
    Tabs.switch_to_file (H := ascii_only) g stale_tabs
    = Tabs.Raise Tabs.KeyError stale_tabs.
Proof.
  apply (closing_the_current_tab_raises (H := ascii_only) Tabs.Return None
           two_tabs (cps "a.py")
           {| Tabs.fi_path := Some (cps "/src/a.py");
              Tabs.fi_content := cps "x = 1";
              Tabs.fi_modified := false |}).
  - reflexivity.
  - reflexivity.
  - reflexivity.
  - vm_compute. discriminate.
Defined.

(** Closing a tab that is not the current one raises nothing and loses no
    text: the text of the text area goes into the entry of the current
    file, the entry of the closed file goes, and the editor shows the file
    that is now the first of [open_files]. *)
Theorem closing_another_tab `{unicode_data}
    (save_file : Tabs.state -> Tabs.run) (response : option bool)
    (st : Tabs.state) (f g : text) (info ginfo : Tabs.file_info) :
  Highlight.truthy (Highlight.current_file (Tabs.ed st)) = Some g ->
  f <> g ->
  Tabs.dict_get (Tabs.open_files st) f = Some info ->
  Tabs.dict_get (Tabs.open_files st) g = Some ginfo ->
  Tabs.fi_modified info = false ->
  exists st' first shown,
    Tabs.close_file save_file f response st = Tabs.Return st' /\
    Tabs.dict_get (Tabs.open_files st') f = None /\
    Tabs.dict_get (Tabs.open_files st') g
    = Some {| Tabs.fi_path := Tabs.fi_path ginfo;
              Tabs.fi_content := Highlight.content (Tabs.ed st);
              Tabs.fi_modified := Tabs.fi_modified ginfo |} /\
    head (Tabs.open_files st').*1 = Some first /\
    Highlight.current_file (Tabs.ed st') = Some first /\
    Tabs.dict_get (Tabs.open_files st') first = Some shown /\
    Highlight.content (Tabs.ed st') = Tabs.fi_content shown.
Proof.
  intros Hcur Hne Hf Hg Hmod. unfold Tabs.close_file.
  rewrite Hf, Hmod. cbn [andb Tabs.bind]. rewrite Hf. cbv zeta.
  set (d := Tabs.dict_del (Tabs.open_files st) f).
  assert (Hdg : Tabs.dict_get d g = Some ginfo)
    by (unfold d; by rewrite dict_get_del_ne).
  destruct d as [|[first v] rest] eqn:E; [done|].
  destruct (dict_del_head _ _ _ _ _ E) as [Hfirst Hv].
  set (saved := {| Tabs.fi_path := Tabs.fi_path ginfo;
                   Tabs.fi_content := Highlight.content (Tabs.ed st);
                   Tabs.fi_modified := Tabs.fi_modified ginfo |}).
  destruct (switch_to_file_goes first
              (Tabs.set_open_files ((first, v) :: rest) st)
              (Tabs.dict_set ((first, v) :: rest) g saved) v)
    as (st' & shown & -> & Ho & _ & Hc & Hs & Hshown).
  { simpl. by rewrite decide_True. }
  { cbn [Tabs.ed Tabs.set_open_files Tabs.open_files]. rewrite Hcur.
    exists ginfo. by rewrite Hdg. }
  exists st', first, shown. rewrite Ho.
  split; [done|]. split.
  { rewrite dict_get_set_ne by done. rewrite <- E. apply dict_get_del_eq. }
  split; [by rewrite dict_get_set_eq|]. split.
  { simpl. by destruct (decide (g = first)) as [->|]. }
  done.
Qed.

Lemma closing_another_tab_witness :
  exists st' first shown,
    Tabs.close_file (H := ascii_only) Tabs.Return (cps "b.py") None two_tabs
    = Tabs.Return st' /\
    Tabs.dict_get (Tabs.open_files st') (cps "b.py") = None /\
    Tabs.dict_get (Tabs.open_files st') (cps "a.py")
    = Some {| Tabs.fi_path := Some (cps "/src/a.py");
              Tabs.fi_content := Highlight.content (Tabs.ed two_tabs);
              Tabs.fi_modified := false |} /\
    head (Tabs.open_files st').*1 = Some first /\
    Highlight.current_file (Tabs.ed st') = Some first /\
    Tabs.dict_get (Tabs.open_files st') first = Some shown /\
    Highlight.content (Tabs.ed st') = Tabs.fi_content shown.
Proof.
  apply (closing_another_tab (H := ascii_only) Tabs.Return None two_tabs
           (cps "b.py") (cps "a.py")
           {| Tabs.fi_path := Some (cps "/src/b.py");
              Tabs.fi_content := cps "y = 2";
              Tabs.fi_modified := false |}
           {| Tabs.fi_path := Some (cps "/src/a.py");
              Tabs.fi_content := cps "x = 1";
              Tabs.fi_modified := false |}).
  - reflexivity.
  - discriminate.
  - reflexivity.
  - reflexivity.
  - reflexivity.
Defined.

(** Switching to another tab and back loses nothing: the text area shows
    the text it had, the other file its own text in between, and the
    entry of the other file is what it was. *)
Theorem switch_there_and_back `{unicode_data} (st : Tabs.state)
    (f g : text) (finfo ginfo : Tabs.file_info) :
  Highlight.truthy (Highlight.current_file (Tabs.ed st)) = Some f ->
  f <> g ->
  Tabs.dict_get (Tabs.open_files st) f = Some finfo ->
  Tabs.dict_get (Tabs.open_files st) g = Some ginfo ->
  exists st1 st2,
    Tabs.switch_to_file g st = Tabs.Return st1 /\
    Highlight.content (Tabs.ed st1) = Tabs.fi_content ginfo /\
    Tabs.switch_to_file f st1 = Tabs.Return st2 /\
    Highlight.current_file (Tabs.ed st2) = Some f /\
    Highlight.content (Tabs.ed st2) = Highlight.content (Tabs.ed st) /\
    Tabs.dict_get (Tabs.open_files st2) g = Some ginfo.
Proof.
  intros Hcur Hne Hf Hg.
  set (saved := {| Tabs.fi_path := Tabs.fi_path finfo;
                   Tabs.fi_content := Highlight.content (Tabs.ed st);
                   Tabs.fi_modified := Tabs.fi_modified finfo |}).
  destruct (switch_to_file_goes g st
              (Tabs.dict_set (Tabs.open_files st) f saved) ginfo Hg)
    as (st1 & shown & E1 & Ho1 & _ & Hc1 & Hs1 & Hshown1).
  { rewrite Hcur. by exists finfo. }
  rewrite dict_get_set_ne in Hs1 by done.
  assert (shown = ginfo) as -> by congruence.
  assert (Hf1 : Tabs.dict_get (Tabs.open_files st1) f = Some saved)
    by (by rewrite Ho1, dict_get_set_eq).
  assert (Hg1 : Tabs.dict_get (Tabs.open_files st1) g = Some ginfo)
    by (by rewrite Ho1, dict_get_set_ne).
  destruct (Highlight.truthy (Highlight.current_file (Tabs.ed st1)))
    as [cur|] eqn:Ecur.
  - assert (cur = g) as ->.
    { rewrite Hc1 in Ecur. destruct g; [done|]. by injection Ecur. }
    destruct (switch_to_file_goes f st1
                (Tabs.dict_set (Tabs.open_files st1) g
                   {| Tabs.fi_path := Tabs.fi_path ginfo;
                      Tabs.fi_content := Highlight.content (Tabs.ed st1);
                      Tabs.fi_modified := Tabs.fi_modified ginfo |})
                saved Hf1)
      as (st2 & shown2 & E2 & Ho2 & _ & Hc2 & Hs2 & Hshown2).
    { rewrite Ecur. by exists ginfo. }
    rewrite dict_get_set_ne in Hs2 by done.
    assert (shown2 = saved) as -> by congruence.
    exists st1, st2. repeat split; try done.
    rewrite Ho2, dict_get_set_eq, Hshown1. by rewrite file_info_eta.
  - destruct (switch_to_file_goes f st1 (Tabs.open_files st1) saved Hf1)
      as (st2 & shown2 & E2 & Ho2 & _ & Hc2 & Hs2 & Hshown2).
    { by rewrite Ecur. }
    assert (shown2 = saved) as -> by congruence.
    exists st1, st2. repeat split; try done. by rewrite Ho2.
Qed.

Lemma switch_there_and_back_witness :
  exists st1 st2,
    Tabs.switch_to_file (H := ascii_only) (cps "b.py") two_tabs
    = Tabs.Return st1 /\
    Highlight.content (Tabs.ed st1) = cps "y = 2" /\
    Tabs.switch_to_file (H := ascii_only) (cps "a.py") st1
    = Tabs.Return st2 /\
    Highlight.current_file (Tabs.ed st2) = Some (cps "a.py") /\
    Highlight.content (Tabs.ed st2) = Highlight.content (Tabs.ed two_tabs) /\
    Tabs.dict_get (Tabs.open_files st2) (cps "b.py")
    = Some {| Tabs.fi_path := Some (cps "/src/b.py");
              Tabs.fi_content := cps "y = 2";
              Tabs.fi_modified := false |}.
Proof.
  apply (switch_there_and_back (H := ascii_only) two_tabs (cps "a.py")
           (cps "b.py")
           {| Tabs.fi_path := Some (cps "/src/a.py");
              Tabs.fi_content := cps "x = 1";
              Tabs.fi_modified := false |}
           {| Tabs.fi_path := Some (cps "/src/b.py");
              Tabs.fi_content := cps "y = 2";
              Tabs.fi_modified := false |}).
  - reflexivity.
  - discriminate.
  - reflexivity.
  - reflexivity.
Defined.

(** Loading a file whose base name is the name of the current tab does not
    show the file: what was read replaces the entry, [switch_to_file]
    writes the text of the text area over it, and the editor keeps the
    text it had, now under the path of the loaded file. *)
Theorem loading_over_the_current_tab `{unicode_data} (st : Tabs.state)
    (filepath f file_content : text) :
  Highlight.truthy (Highlight.current_file (Tabs.ed st)) = Some f ->
  exists st',
    Tabs.load_file filepath f (Some file_content) st = (st', None) /\
    Highlight.current_file (Tabs.ed st') = Some f /\
    Highlight.content (Tabs.ed st') = Highlight.content (Tabs.ed st) /\
    Tabs.dict_get (Tabs.open_files st') f
    = Some {| Tabs.fi_path := Some filepath;
              Tabs.fi_content := Highlight.content (Tabs.ed st);
              Tabs.fi_modified := false |}.
Proof.
  intros Hcur. unfold Tabs.load_file. cbv zeta.
  set (new := {| Tabs.fi_path := Some filepath;
                 Tabs.fi_content := file_content;
                 Tabs.fi_modified := false |}).
  set (st0 := Tabs.set_open_files
                (Tabs.dict_set (Tabs.open_files st) f new) st).
  set (saved := {| Tabs.fi_path := Some filepath;
                   Tabs.fi_content := Highlight.content (Tabs.ed st);
                   Tabs.fi_modified := false |}).
  destruct (switch_to_file_goes f st0
              (Tabs.dict_set (Tabs.open_files st0) f saved) new)
    as (st1 & shown & -> & Ho1 & Hr1 & Hc1 & Hs1 & Hshown1).
  { unfold st0. simpl. apply dict_get_set_eq. }
  { unfold st0. cbn [Tabs.ed Tabs.set_open_files Tabs.open_files].
    rewrite Hcur. exists new. by rewrite dict_get_set_eq. }
  rewrite dict_get_set_eq in Hs1. injection Hs1 as <-.
  cbn [Tabs.bind].
  destruct (highlight_step_keeps st1) as (st2 & -> & Ho2 & Hr2 & Hf2 & Hc2).
  cbn [Tabs.bind]. unfold Tabs.update_title.
  rewrite Hf2, Hc1.
  assert (Ht : Highlight.truthy (Some f) = Some f).
  { rewrite <- Hcur. by destruct (Highlight.current_file (Tabs.ed st))
      as [[|? ?]|]. }
  rewrite Ht, Ho2, Ho1, dict_get_set_eq. cbn [Tabs.bind].
  destruct (add_to_recent_files_result filepath (Tabs.recent_files st2))
    as (l & -> & _).
  eexists. split; [reflexivity|]. cbn [Tabs.ed Tabs.open_files].
  rewrite Hf2, Hc1, Hc2, Hshown1, Ho2, Ho1, dict_get_set_eq. done.
Qed.

Lemma loading_over_the_current_tab_witness :
  exists st',
    Tabs.load_file (H := ascii_only) (cps "/tmp/a.py") (cps "a.py")
      (Some (cps "z = 3")) two_tabs = (st', None) /\
    Highlight.current_file (Tabs.ed st') = Some (cps "a.py") /\
    Highlight.content (Tabs.ed st') = Highlight.content (Tabs.ed two_tabs) /\
    Tabs.dict_get (Tabs.open_files st') (cps "a.py")
    = Some {| Tabs.fi_path := Some (cps "/tmp/a.py");
              Tabs.fi_content := Highlight.content (Tabs.ed two_tabs);
              Tabs.fi_modified := false |}.
Proof.
  apply (loading_over_the_current_tab (H := ascii_only) two_tabs).
  reflexivity.
Defined.

(** ** A commented line in the highlighter *)

Section LineComment.
Import Re Highlight ReFacts.
Context `{unicode_data}.
Variable fl : flags.
Variable s : text.
Hypothesis no_dotall : DOTALL fl = false.
Hypothesis no_multiline : MULTILINE fl = false.

(** On text without a newline a lazy run of [.] stops at every position
    up to the end, the nearest first. *)
Lemma lazy_any_line fuel : forall i c,
  (forall k, i <= k -> s !! k <> Some NL) ->
  fuel = length s - i -> i <= length s ->
  star_loop (m fl s Any) false fuel i c
  = map (fun j => (j, c)) (seq i (S fuel)).
Proof.
  induction fuel as [|fuel IH]; intros i c Hnl Hf Hi; [done|].
  destruct (lookup_lt_is_Some_2 s i) as [b Hb]; [lia|].
  change (seq i (S (S fuel))) with (i :: seq (S i) (S fuel)).
  assert (Hm : m fl s Any i c = [(S i, c)]).
  { change (m fl s Any i c) with (step_char s (any_matches fl) i c).
    unfold step_char, any_matches. rewrite Hb.
    destruct (N.eqb_spec b NL) as [->|Hne].
    - by destruct (Hnl i).
    - by rewrite orb_true_r. }
  cbn [star_loop map]. f_equal. rewrite Hm.
  cbn [flat_map fst snd].
  rewrite (proj2 (Nat.ltb_lt i (S i))) by lia.
  rewrite app_nil_r. apply IH; [|lia..].
  intros k Hk. apply Hnl. lia.
Qed.

(** [.*?$] on the rest of a last line without a newline: one match, up
    to the end of the text. *)
Lemma lazy_to_eol i c :
  (forall k, i <= k -> s !! k <> Some NL) -> i <= length s ->
  m fl s (Cat (Star false Any) (Cat Eol Eps)) i c = [(length s, c)].
Proof.
  intros Hnl Hi. cbn [m].
  rewrite lazy_any_line by (done || lia).
  replace (S (length s - i)) with ((length s - i) + 1) by lia.
  rewrite seq_app, map_app. cbn [seq map].
  replace (i + (length s - i)) with (length s) by lia.
  rewrite flat_map_skip.
  - simpl. unfold at_eol. by rewrite Nat.eqb_refl.
  - intros [j c'] [j' [[= <- <-] Hj%in_seq]]%in_map_iff. simpl.
    unfold at_eol. rewrite no_multiline.
    rewrite (proj2 (Nat.eqb_neq j' (length s))) by lia.
    rewrite (bool_decide_eq_false_2 (s !! j' = Some NL))
      by (apply Hnl; lia).
    by rewrite andb_false_r.
Qed.
End LineComment.

Section CommentedLine.
Import Re Highlight ReFacts HighlightFacts Lines.
Context `{unicode_data}.

(** The text of a commented line: white space, the symbol, the rest. *)
Lemma spaces_before (ind rest : text) (a : N) (p : nat) :
  Forall (fun c => isspace c = true) ind -> isspace a = false ->
  p < length ind -> (ind ++ rest) !! p <> Some a.
Proof.
  intros Hsp Ha Hp. rewrite lookup_app_l by done.
  intros Hl. rewrite Forall_lookup in Hsp.
  specialize (Hsp _ _ Hl). congruence.
Qed.

Lemma nonl_lookup (t : text) (k : nat) : nonl t -> t !! k <> Some NL.
Proof. intros Hn Hl. apply Hn. by eapply list_elem_of_lookup_2. Qed.

Lemma hash_comment_found (ind rest : text) :
  Forall (fun c => isspace c = true) ind ->
  nonl (ind ++ 35%N :: rest) ->
  exists mts,
    finditer no_flags (ind ++ 35%N :: rest) py_comments_re
    = {| m_start := length ind; m_end := length (ind ++ 35%N :: rest);
         m_group := None |} :: mts.
Proof.
  intros Hsp Hnl. set (t := ind ++ 35%N :: rest) in *.
  assert (Hlen : length t = length ind + S (length rest))
    by (unfold t; rewrite length_app; simpl; lia).
  assert (Hat : t !! length ind = Some 35%N)
    by (unfold t; by apply list_lookup_middle).
  change py_comments_re
    with (Cat (Chr 35) (Cat (Star false Any) (Cat Eol Eps))).
  apply (finditer_first no_flags t _ (length ind) (length t) None []).
  - lia.
  - intros p' Hp'. apply m_chr_miss.
    unfold t. by apply spaces_before.
  - rewrite m_chr_hit by done. apply lazy_to_eol; [done| |lia].
    intros k _. by apply nonl_lookup.
  - lia.
Qed.

Lemma slash_comment_found (ind rest : text) :
  Forall (fun c => isspace c = true) ind ->
  nonl (ind ++ 47%N :: 47%N :: rest) ->
  exists mts,
    finditer no_flags (ind ++ 47%N :: 47%N :: rest) slash_comments_re
    = {| m_start := length ind;
         m_end := length (ind ++ 47%N :: 47%N :: rest);
         m_group := None |} :: mts.
Proof.
  intros Hsp Hnl. set (t := ind ++ 47%N :: 47%N :: rest) in *.
  assert (Hlen : length t = length ind + S (S (length rest)))
    by (unfold t; rewrite length_app; simpl; lia).
  assert (Hat : t !! length ind = Some 47%N)
    by (unfold t; by apply list_lookup_middle).
  assert (Hat' : t !! S (length ind) = Some 47%N).
  { unfold t. rewrite lookup_app_r by lia.
    by replace (S (length ind) - length ind) with 1 by lia. }
  change slash_comments_re
    with (Alt (Cat (Chr 47) (Cat (Chr 47)
                 (Cat (Star false Any) (Cat Eol Eps))))
              (Cat (Chr 47) (Cat (Chr 42)
                 (Cat (Star false Any) (Cat (Chr 42) (Cat (Chr 47) Eps)))))).
  apply (finditer_first no_flags t _ (length ind) (length t) None
           (m no_flags t
              (Cat (Chr 47) (Cat (Chr 42)
                 (Cat (Star false Any) (Cat (Chr 42) (Cat (Chr 47) Eps)))))
              (length ind) None)).
  - lia.
  - intros p' Hp'. cbn [m].
    change (m no_flags t (Cat (Chr 47) ?r) p' None) with
      (m no_flags t (Cat (Chr 47) r) p' None).
    assert (Hmiss : forall r, m no_flags t (Cat (Chr 47) r) p' None = []).
    { intros r. apply m_chr_miss. unfold t. by apply spaces_before. }
    pose proof (Hmiss (Cat (Chr 47) (Cat (Star false Any) (Cat Eol Eps))))
      as H1.
    pose proof (Hmiss (Cat (Chr 42) (Cat (Star false Any)
                  (Cat (Chr 42) (Cat (Chr 47) Eps))))) as H2.
    cbn [m] in H1, H2. by rewrite H1, H2.
  - assert (E1 : m no_flags t
                   (Cat (Chr 47) (Cat (Chr 47)
                      (Cat (Star false Any) (Cat Eol Eps))))
                   (length ind) None
                 = [(length t, None)]).
    { rewrite !m_chr_hit by done.
      apply lazy_to_eol; [done| |lia].
      intros k _. by apply nonl_lookup. }
    change (m no_flags t (Alt ?a ?b) (length ind) None)
      with (m no_flags t a (length ind) None ++
            m no_flags t b (length ind) None).
    by rewrite E1.
  - lia.
Qed.

(** The comment span of a line the second loop of [toggle_comment] has
    put [#] or [//] on. *)
Lemma commented_line_span (c line : text) (re : regex) :
  (c = cps "#" /\ re = py_comments_re) \/
  (c = cps "//" /\ re = slash_comments_re) ->
  nonl line -> lstrip line <> [] ->
  {| kind := comment;
     startOffset := Z.of_nat (length line - length (lstrip line));
     endOffset := Z.of_nat (length (toggled false c line)) |}
  ∈ tag_matches comment (re_compile re) (toggled false c line).
Proof.
  intros Hc Hnl Hrest.
  assert (Hok : symbol_ok c).
  { destruct Hc as [[-> _]|[-> _]]; (split;
      [intros Hin; apply list_elem_of_In in Hin; simpl in Hin;
       intuition discriminate
      |eexists _, _; split; reflexivity]). }
  pose proof (toggled_nonl false c line Hok Hnl) as Hnl'.
  rewrite toggled_add in *.
  destruct (indent_split line) as (ind & Hsp & El & Ht & Hd).
  destruct (lstrip line) as [|r0 r] eqn:E; [done|].
  rewrite Ht in *.
  assert (Hind : length line - length (r0 :: r) = length ind).
  { rewrite El at 1. rewrite length_app. lia. }
  rewrite Hind. unfold tag_matches.
  destruct Hc as [[-> ->]|[-> ->]].
  - destruct (hash_comment_found ind (cps " " ++ r0 :: r) Hsp Hnl')
      as [mts E'].
    cbn [pat cflags re_compile].
    change (ind ++ cps "#" ++ cps " " ++ r0 :: r)
      with (ind ++ 35%N :: cps " " ++ r0 :: r).
    rewrite E'. left.
  - destruct (slash_comment_found ind (cps " " ++ r0 :: r) Hsp Hnl')
      as [mts E'].
    cbn [pat cflags re_compile].
    change (ind ++ cps "//" ++ cps " " ++ r0 :: r)
      with (ind ++ 47%N :: 47%N :: cps " " ++ r0 :: r).
    rewrite E'. left.
Qed.

(** A text of one line is its own first line. *)
Lemma toggle_lines_one_line (c line : text) :
  symbol_ok c -> nonl line -> lstrip line <> [] ->
  startswith (lstrip line) c = false ->
  toggle_lines c line 1 1 = toggled false c line.
Proof.
  intros Hc Hnl Hrest Hstart.
  assert (El : line = unlines [line])
    by (unfold unlines, opened_lines; simpl; by rewrite app_nil_r).
  assert (Hls : Forall nonl [line]) by (by constructor).
  assert (Hg : get_line line 1 = line).
  { pose proof (get_line_unlines [line] 0 ltac:(done) Hls) as Hg.
    rewrite <- El in Hg. exact Hg. }
  assert (Ht : toggle_line false c line 1 = toggled false c line).
  { pose proof (toggle_line_unlines false c [line] 0 Hc ltac:(done) Hls)
      as Ht.
    rewrite <- El in Ht. etrans; [exact Ht|].
    unfold unlines, opened_lines. simpl. by rewrite app_nil_r. }
  unfold toggle_lines, all_commented.
  change (line_numbers 1 1) with [1%Z].
  cbn [forallb foldl]. rewrite Hg, truth_strip, Hstart.
  destruct (lstrip line) as [|r0 r] eqn:E; [done|]. cbn [negb andb].
  exact Ht.
Qed.
End CommentedLine.

(** A line commented by [toggle_comment] shows as a comment: in a file
    with the extension py, js, ts, java, c, cpp or cs whose text is one
    line that is not blank and not commented yet, [toggle_comment] puts
    the symbol behind the indentation, and [highlight_syntax] then tags
    the line from the symbol to its end as comment. *)
Theorem commented_line_shows_as_comment `{unicode_data}
    (f ext : text) (w : Typing.widget) (cache : gmap string Highlight.compiled) :
  f <> [] -> Highlight.extension f = Highlight.Ok ext ->
  ext ∈ map cps ["py"; "js"; "ts"; "java"; "c"; "cpp"; "cs"] ->
  Typing.w_sel w = None ->
  (0 <= Typing.w_insert w <= Z.of_nat (length (Typing.w_text w)))%Z ->
  Lines.nonl (Typing.w_text w) ->
  lstrip (Typing.w_text w) <> [] ->
  startswith (lstrip (Typing.w_text w)) (Lines.comment_symbol ext) = false ->
  Highlight.cache_ok cache ->
  exists t,
    Lines.toggle_comment (Some f) w = Highlight.Ok t /\
    t = Lines.toggled false (Lines.comment_symbol ext) (Typing.w_text w) /\
    {| Highlight.kind := Highlight.comment;
       Highlight.startOffset :=
         Z.of_nat (length (Typing.w_text w)
                   - length (lstrip (Typing.w_text w)));
       Highlight.endOffset := Z.of_nat (length t) |}
    ∈ (Highlight.highlight ext t cache).1.
Proof.
  intros Hf Hext Hin Hsel Hi Hnl Hrest Hstart Hok.
  destruct w as [line i sel].
  cbn [Typing.w_text Typing.w_sel Typing.w_insert] in *. subst sel.
  eexists. split; [|split; [reflexivity|]].
  - unfold Lines.toggle_comment. cbn [Typing.w_sel Typing.w_text
      Typing.w_insert].
    destruct f as [|c0 f']; [done|]. simpl Highlight.truthy. cbv iota.
    rewrite Hext.
    assert (Hline : Lines.line_of line i = 1%Z).
    { pose proof (line_canon [] line [] (Forall_nil_2 _) Hnl)
        as (_ & _ & _ & Hl).
      cbv zeta in Hl. simpl in Hl. rewrite app_nil_r in Hl.
      apply Hl. lia. }
    rewrite Hline. f_equal.
    apply toggle_lines_one_line; [apply comment_symbol_ok|done..].
  - destruct (HighlightFacts.highlight_profile_spans ext
                (Lines.toggled false (Lines.comment_symbol ext) line)
                cache Hok) as (c' & -> & _).
    cbn [fst].
    assert (Hsym : (Lines.comment_symbol ext = cps "#" /\ ext = cps "py") \/
                   (Lines.comment_symbol ext = cps "//" /\
                    (ext ∈ map cps ["js"; "ts"] \/
                     ext ∈ map cps ["java"; "c"; "cpp"; "cs"]))).
    { apply list_elem_of_In in Hin. simpl in Hin.
      destruct Hin as [<-|[<-|[<-|[<-|[<-|[<-|[<-|[]]]]]]]];
        [left|right..]; (split; [vm_compute; reflexivity|]);
        first [reflexivity
              |left; apply list_elem_of_In; simpl; tauto
              |right; apply list_elem_of_In; simpl; tauto]. }
    destruct Hsym as [[Hc ->]|[Hc [Hjs|Hcl]]]; rewrite Hc.
    + unfold Highlight.profile_spans.
      rewrite bool_decide_eq_true_2 by done.
      unfold Highlight.python_spans. rewrite !elem_of_app.
      do 3 right. left. apply commented_line_span; [by left|done..].
    + unfold Highlight.profile_spans.
      rewrite bool_decide_eq_false_2
        by (intros ->; apply list_elem_of_In in Hjs; simpl in Hjs;
            intuition discriminate).
      rewrite bool_decide_eq_true_2
        by (apply list_elem_of_In in Hjs; apply list_elem_of_In;
            simpl in *; tauto).
      unfold Highlight.javascript_spans. rewrite !elem_of_app.
      do 2 right. left. apply commented_line_span; [by right|done..].
    + unfold Highlight.profile_spans.
      rewrite bool_decide_eq_false_2
        by (intros ->; apply list_elem_of_In in Hcl; simpl in Hcl;
            intuition discriminate).
      rewrite bool_decide_eq_false_2
        by (intros Hjs; apply list_elem_of_In in Hjs, Hcl; simpl in *;
            intuition (subst; discriminate)).
      rewrite bool_decide_eq_true_2
        by (apply list_elem_of_In in Hcl; apply list_elem_of_In;
            simpl in *; tauto).
      unfold Highlight.c_like_spans. rewrite !elem_of_app.
      do 2 right. left. apply commented_line_span; [by right|done..].
Qed.

Lemma commented_line_shows_as_comment_witness :
  exists t,
    Lines.toggle_comment (H := ascii_only) (Some (cps "main.cpp"))
      indented_widget = Highlight.Ok t /\
    t = Lines.toggled (H := ascii_only) false
          (Lines.comment_symbol (cps "cpp"))
          (Typing.w_text indented_widget) /\
    {| Highlight.kind := Highlight.comment;
       Highlight.startOffset :=
         Z.of_nat (length (Typing.w_text indented_widget)
                   - length (lstrip (H := ascii_only)
                               (Typing.w_text indented_widget)));
       Highlight.endOffset := Z.of_nat (length t) |}
    ∈ (Highlight.highlight (H := ascii_only) (cps "cpp") t ∅).1.
Proof.
  apply (commented_line_shows_as_comment (H := ascii_only)).
  - discriminate.
  - vm_compute. reflexivity.
  - apply list_elem_of_In. simpl. tauto.
  - reflexivity.
  - vm_compute. split; discriminate.
  - intros Hin. apply list_elem_of_In in Hin. simpl in Hin.
    intuition discriminate.
  - vm_compute. discriminate.
  - vm_compute. reflexivity.
  - apply HighlightFacts.cache_ok_empty.
Defined.
